(** * LLeX.Ai front end: the streaming answer consumer

    A shallow embedding of the client side of the Ask endpoint:

    - [ChatWindow]: the effect of [ChatWindow.tsx] that opens the stream,
      decodes byte ranges, splits them into lines, parses each line as a
      JSON record and applies it to the running answer and the status list
      ([pushStatus], [handleLine], [fetchStream] and the effect's cleanup);
    - [App]: the handlers of [App.tsx] that own the chat history;
    - [ApiService]: the request built by [ApiService.askQuestion].

    The platform functions the code calls (string methods, [TextDecoder],
    [JSON.parse], [JSON.stringify]) are modelled in [JS], after ECMA-262,
    ECMA-404 and the WHATWG Encoding Standard. *)

From Stdlib Require Import String Ascii.
From Stdlib Require Import ZArith List Bool Lia.
Import ListNotations.

Local Open Scope Z_scope.

Set Implicit Arguments.

(* ================================================================== *)
(** * The platform *)
(* ================================================================== *)

Module JS.

(** A JavaScript string is a sequence of UTF-16 code units. *)
Definition jsstring := list Z.

(** A [Uint8Array] is a sequence of octets. *)
Definition Uint8Array := list Z.

(** String literals of the source that are plain ASCII. *)
Definition lit (s : String.string) : jsstring :=
  map (fun a => Z.of_N (N_of_ascii a)) (String.list_ascii_of_string s).

(** JSON text written with apostrophes standing for the double quote
    (code unit 0x22), which a literal of this file cannot hold. *)
Definition json_text (s : String.string) : jsstring :=
  map (fun c => if c =? 39 then 34 else c) (lit s).

Fixpoint str_eqb (a b : jsstring) : bool :=
  match a, b with
  | [], [] => true
  | x :: a', y :: b' => (x =? y) && str_eqb a' b'
  | _, _ => false
  end.

(** ** WhiteSpace and LineTerminator

    The code units that [String.prototype.trim] strips and that the
    regular expression class [\s] matches (ECMA-262, 12.2 and 12.3, with
    the Unicode category Zs). *)
Definition is_whitespace (c : Z) : bool :=
  (c =? 0x09) || (c =? 0x0A) || (c =? 0x0B) || (c =? 0x0C) || (c =? 0x0D)
  || (c =? 0x20) || (c =? 0xA0) || (c =? 0x1680)
  || ((0x2000 <=? c) && (c <=? 0x200A))
  || (c =? 0x2028) || (c =? 0x2029) || (c =? 0x202F) || (c =? 0x205F)
  || (c =? 0x3000) || (c =? 0xFEFF).

Fixpoint dropWhile {A} (p : A -> bool) (l : list A) : list A :=
  match l with
  | [] => []
  | x :: l' => if p x then dropWhile p l' else l
  end.

Definition trimStart (s : jsstring) : jsstring := dropWhile is_whitespace s.
Definition trimEnd (s : jsstring) : jsstring :=
  rev (dropWhile is_whitespace (rev s)).

(** [s.trim()] *)
Definition trim (s : jsstring) : jsstring := trimEnd (trimStart s).

(** [!s] for a string [s]: the empty string is the only falsy string. *)
Definition is_empty (s : jsstring) : bool :=
  match s with [] => true | _ => false end.

(** [s.startsWith(p)] *)
Fixpoint startsWith (s p : jsstring) : bool :=
  match p, s with
  | [], _ => true
  | y :: p', x :: s' => (x =? y) && startsWith s' p'
  | _ :: _, [] => false
  end.

(** [s.split(sep)] for a separator of one code unit: the pieces between
    the separators, never an empty array. *)
Fixpoint split (sep : Z) (s : jsstring) : list jsstring :=
  match s with
  | [] => [[]]
  | c :: s' =>
      if c =? sep then [] :: split sep s'
      else match split sep s' with
           | piece :: pieces => (c :: piece) :: pieces
           | [] => [[c]]
           end
  end.

(** [a.pop()]: the last element ([None] for [undefined] on an empty
    array) and the array that is left. *)
Fixpoint pop {A} (l : list A) : option A * list A :=
  match l with
  | [] => (None, [])
  | [x] => (Some x, [])
  | x :: l' => let (last, rest) := pop l' in (last, x :: rest)
  end.

(** [Number.prototype.toString] on a non-negative integer: its decimal
    digits. *)
Fixpoint digits (d : Decimal.uint) : jsstring :=
  match d with
  | Decimal.Nil => []
  | Decimal.D0 d' => 48 :: digits d'
  | Decimal.D1 d' => 49 :: digits d'
  | Decimal.D2 d' => 50 :: digits d'
  | Decimal.D3 d' => 51 :: digits d'
  | Decimal.D4 d' => 52 :: digits d'
  | Decimal.D5 d' => 53 :: digits d'
  | Decimal.D6 d' => 54 :: digits d'
  | Decimal.D7 d' => 55 :: digits d'
  | Decimal.D8 d' => 56 :: digits d'
  | Decimal.D9 d' => 57 :: digits d'
  end.

Definition decimal (n : Z) : jsstring := digits (N.to_uint (Z.to_N n)).

(** ** [TextDecoder("utf-8")], used with [{ stream: true }]

    The UTF-8 decoder of the WHATWG Encoding Standard (section 8.1.1)
    in replacement error mode, and the byte order mark rule of
    "serialize I/O queue" for a decoder created without [ignoreBOM]. *)
Record TextDecoder := {
  code_point : Z;
  bytes_seen : Z;
  bytes_needed : Z;
  lower_boundary : Z;
  upper_boundary : Z;
  BOM_seen : bool
}.

Definition new_TextDecoder : TextDecoder :=
  {| code_point := 0; bytes_seen := 0; bytes_needed := 0;
     lower_boundary := 0x80; upper_boundary := 0xBF; BOM_seen := false |}.

Definition between (lo hi x : Z) : bool := (lo <=? x) && (x <=? hi).

Definition REPLACEMENT : Z := 0xFFFD.

(** Step 3 of the handler: no sequence is in progress. The result is the
    new decoder and the code points emitted ([REPLACEMENT] on error). *)
Definition utf8_lead (d : TextDecoder) (b : Z) : TextDecoder * list Z :=
  let start needed lo hi cp :=
    ({| code_point := cp; bytes_seen := 0; bytes_needed := needed;
        lower_boundary := lo; upper_boundary := hi;
        BOM_seen := BOM_seen d |}, []) in
  if between 0x00 0x7F b then (d, [b])
  else if between 0xC2 0xDF b then start 1 0x80 0xBF (Z.land b 0x1F)
  else if between 0xE0 0xEF b then
    start 2 (if b =? 0xE0 then 0xA0 else 0x80)
            (if b =? 0xED then 0x9F else 0xBF) (Z.land b 0xF)
  else if between 0xF0 0xF4 b then
    start 3 (if b =? 0xF0 then 0x90 else 0x80)
            (if b =? 0xF4 then 0x8F else 0xBF) (Z.land b 0x7)
  else (d, [REPLACEMENT]).

Definition utf8_reset (d : TextDecoder) : TextDecoder :=
  {| code_point := 0; bytes_seen := 0; bytes_needed := 0;
     lower_boundary := 0x80; upper_boundary := 0xBF;
     BOM_seen := BOM_seen d |}.

(** The handler on one byte. A byte that breaks a sequence in progress is
    an error and is then read again with no sequence in progress. *)
Definition utf8_byte (d : TextDecoder) (b : Z) : TextDecoder * list Z :=
  if bytes_needed d =? 0 then utf8_lead d b
  else if negb (between (lower_boundary d) (upper_boundary d) b) then
    let (d', out) := utf8_lead (utf8_reset d) b in
    (d', REPLACEMENT :: out)
  else
    let cp := Z.lor (Z.shiftl (code_point d) 6) (Z.land b 0x3F) in
    let seen := bytes_seen d + 1 in
    if negb (seen =? bytes_needed d) then
      ({| code_point := cp; bytes_seen := seen;
          bytes_needed := bytes_needed d;
          lower_boundary := 0x80; upper_boundary := 0xBF;
          BOM_seen := BOM_seen d |}, [])
    else (utf8_reset d, [cp]).

(** A scalar value as UTF-16 code units. *)
Definition utf16 (cp : Z) : jsstring :=
  if cp <? 0x10000 then [cp]
  else [0xD800 + Z.shiftr (cp - 0x10000) 10;
        0xDC00 + Z.land (cp - 0x10000) 0x3FF].

(** "serialize I/O queue" on one code point: a byte order mark that comes
    first is dropped. *)
Definition serialize (d : TextDecoder) (cp : Z) : TextDecoder * jsstring :=
  let seen :=
    {| code_point := code_point d; bytes_seen := bytes_seen d;
       bytes_needed := bytes_needed d;
       lower_boundary := lower_boundary d;
       upper_boundary := upper_boundary d; BOM_seen := true |} in
  if BOM_seen d then (d, utf16 cp)
  else if cp =? 0xFEFF then (seen, [])
  else (seen, utf16 cp).

Fixpoint serialize_all (d : TextDecoder) (cps : list Z)
  : TextDecoder * jsstring :=
  match cps with
  | [] => (d, [])
  | cp :: cps' =>
      let (d1, s1) := serialize d cp in
      let (d2, s2) := serialize_all d1 cps' in
      (d2, s1 ++ s2)
  end.

(** [decoder.decode(value, { stream: true })]: the decoder is kept between
    calls and an unfinished sequence stays pending. *)
Fixpoint decode (d : TextDecoder) (value : Uint8Array)
  : TextDecoder * jsstring :=
  match value with
  | [] => (d, [])
  | b :: value' =>
      let (d1, cps) := utf8_byte d b in
      let (d2, s1) := serialize_all d1 cps in
      let (d3, s2) := decode d2 value' in
      (d3, s1 ++ s2)
  end.

(** ** Values

    The values [JSON.parse] produces, plus [undefined], which reading an
    absent property gives. *)

(** A Number, an IEEE 754 binary64 value: [Finite neg m e] is
    [m * 2^e] with [2^52 <= m < 2^53] and [-1074 <= e <= 971], or
    [0 < m < 2^52] and [e = -1074]. *)
Inductive Number :=
| NaN
| Infinity (negative : bool)
| Zero (negative : bool)
| Finite (negative : bool) (m e : Z).

#[local] Unset Elimination Schemes.
Inductive value :=
| VUndefined
| VNull
| VBoolean (b : bool)
| VNumber (n : Number)
| VString (s : jsstring)
| VArray (elements : list value)
| VObject (properties : list (jsstring * value)).
#[local] Set Elimination Schemes.

(** What a statement that throws throws: an instance of [Error] with
    its [message], or any other value. The message texts of the errors
    the platform itself throws depend on the engine and are left empty. *)
Inductive ErrorName := SyntaxError | TypeError | AbortError | OtherError.

Inductive exn :=
| ErrorInstance (name : ErrorName) (message : jsstring)
| Thrown (v : value).

(** ToBoolean *)
Definition truthy (v : value) : bool :=
  match v with
  | VUndefined | VNull => false
  | VBoolean b => b
  | VNumber NaN | VNumber (Zero _) => false
  | VNumber _ => true
  | VString s => negb (is_empty s)
  | VArray _ | VObject _ => true
  end.

(** [v === s] for a string literal [s] *)
Definition is_string (v : value) (s : jsstring) : bool :=
  match v with VString t => str_eqb t s | _ => false end.

Fixpoint lookup (key : jsstring) (props : list (jsstring * value))
  : option value :=
  match props with
  | [] => None
  | (k, v) :: props' => if str_eqb k key then Some v else lookup key props'
  end.

(** CreateDataProperty on an ordinary object: a key that is present
    keeps its place and takes the new value. *)
Fixpoint define (key : jsstring) (v : value)
  (props : list (jsstring * value)) : list (jsstring * value) :=
  match props with
  | [] => [(key, v)]
  | (k, w) :: props' =>
      if str_eqb k key then (k, v) :: props'
      else (k, w) :: define key v props'
  end.

(** [data.key] for the property names the source reads ([event], [type]
    and [payload]): none of them is a property of [Object.prototype],
    [Array.prototype], [String.prototype], [Number.prototype] or
    [Boolean.prototype], so only an own property of an object is found.
    Reading a property of [null] or [undefined] throws a TypeError. *)
Definition get (data : value) (key : jsstring) : exn + value :=
  match data with
  | VUndefined | VNull => inl (ErrorInstance TypeError [])
  | VObject props =>
      inr (match lookup key props with Some v => v | None => VUndefined end)
  | _ => inr VUndefined
  end.

(** ** Numbers

    The Number value of a decimal literal [m * 10^e10] ([0 <= m]): the
    binary64 value nearest to it, ties to even (ECMA-262, 6.1.6.1). *)
Definition round_binary64 (neg : bool) (P Q : Z) : Number :=
  let l := Z.log2 P - Z.log2 Q in
  let floor_log2 :=
    if 0 <=? l then (if Q * 2 ^ l <=? P then l else l - 1)
    else (if Q <=? P * 2 ^ (- l) then l else l - 1) in
  let e2 := Z.max (floor_log2 - 52) (-1074) in
  let num := if e2 <? 0 then P * 2 ^ (- e2) else P in
  let den := if e2 <? 0 then Q else Q * 2 ^ e2 in
  let q := num / den in
  let r := num mod den in
  let q1 := if (den <? 2 * r) || ((den =? 2 * r) && Z.odd q)
            then q + 1 else q in
  let m := if q1 =? 2 ^ 53 then 2 ^ 52 else q1 in
  let e := if q1 =? 2 ^ 53 then e2 + 1 else e2 in
  if m =? 0 then Zero neg
  else if 971 <? e then Infinity neg
  else Finite neg m e.

Definition of_decimal (neg : bool) (m e10 : Z) : Number :=
  if m <=? 0 then Zero neg
  else
    let magnitude := Z.of_nat (length (decimal m)) + e10 in
    if 310 <? magnitude then Infinity neg
    else if magnitude <? -324 then Zero neg
    else if 0 <=? e10 then round_binary64 neg (m * 10 ^ e10) 1
    else round_binary64 neg m (10 ^ (- e10)).

Definition Number_eqb (x y : Number) : bool :=
  match x, y with
  | NaN, NaN => true
  | Infinity a, Infinity b | Zero a, Zero b => Bool.eqb a b
  | Finite a m e, Finite b m' e' => Bool.eqb a b && (m =? m') && (e =? e')
  | _, _ => false
  end.

(** [a/b < c/d], [a/b = c/d] for positive denominators *)
Definition frac_ltb (a b c d : Z) : bool := a * d <? c * b.

(** [m * 2^e] and [s * 10^t] as fractions *)
Definition frac2 (m e : Z) : Z * Z :=
  if 0 <=? e then (m * 2 ^ e, 1) else (m, 2 ^ (- e)).
Definition frac10 (s t : Z) : Z * Z :=
  if 0 <=? t then (s * 10 ^ t, 1) else (s, 10 ^ (- t)).

(** The [n] of Number::toString: [10^(n-1) <= m * 2^e < 10^n]. *)
Definition decimal_exponent (m e : Z) : Z :=
  let (vn, vd) := frac2 m e in
  let f := ((Z.log2 m + e) * 30103) / 100000 in
  let below n := let (pn, pd) := frac10 1 n in frac_ltb vn vd pn pd in
  if below f then f
  else if below (f + 1) then f + 1
  else if below (f + 2) then f + 2
  else f + 3.

(** The digits [s] with [k] digits for which [s * 10^(n-k)] has the
    Number value [m * 2^e], nearest to it, if there are any. *)
Definition shortest_at (m e n k : Z) : option (Z * Z) :=
  let (vn, vd) := frac2 m e in
  let (pn, pd) := frac10 1 (n - k) in
  let lo := (vn * pd) / (vd * pn) in
  let hi := lo + 1 in
  let ok s := Number_eqb (of_decimal false s (n - k)) (Finite false m e) in
  let (mn, md) := frac10 (2 * lo + 1) (n - k) in
  let nearer_lo := frac_ltb (2 * vn) vd mn md in
  let nearer_hi := frac_ltb mn md (2 * vn) vd in
  let pick s := if s =? 10 ^ k then Some (10 ^ (k - 1), n + 1)
                else Some (s, n) in
  match ok lo, ok hi with
  | true, false => pick lo
  | false, true => pick hi
  | true, true =>
      if nearer_lo then pick lo
      else if nearer_hi then pick hi
      else if Z.even lo then pick lo else pick hi
  | false, false => None
  end.

Fixpoint shortest (m e n : Z) (ks : list Z) : Z * Z * Z :=
  match ks with
  | [] => (m, 0, 0)
  | k :: ks' =>
      match shortest_at m e n k with
      | Some (s, n') => (s, k, n')
      | None => shortest m e n ks'
      end
  end.

Definition zeros (n : Z) : jsstring := repeat 48 (Z.to_nat n).

(** Number::toString(x, 10) *)
Definition Number_toString (x : Number) : jsstring :=
  match x with
  | NaN => lit "NaN"
  | Infinity neg => (if neg then [45] else []) ++ lit "Infinity"
  | Zero _ => lit "0"
  | Finite neg m e =>
      let '(s, k, n) :=
        shortest m e (decimal_exponent m e)
          [1; 2; 3; 4; 5; 6; 7; 8; 9; 10; 11; 12; 13; 14; 15; 16; 17] in
      let ds := decimal s in
      let exponent :=
        (if 0 <? n - 1 then [43] else [45]) ++ decimal (Z.abs (n - 1)) in
      (if neg then [45] else []) ++
      (if (k <=? n) && (n <=? 21) then ds ++ zeros (n - k)
       else if (0 <? n) && (n <=? 21) then
         firstn (Z.to_nat n) ds ++ [46] ++ skipn (Z.to_nat n) ds
       else if (-6 <? n) && (n <=? 0) then
         [48; 46] ++ zeros (- n) ++ ds
       else if k =? 1 then ds ++ [101] ++ exponent
       else firstn 1 ds ++ [46] ++ skipn 1 ds ++ [101] ++ exponent)
  end.

(** ** [JSON.parse]

    The JSON grammar of ECMA-404, read in one pass over the code units:
    a lexer with a finite state, then a parser with a stack of the
    arrays and objects that are still open. *)
Inductive token :=
| TLBrace | TRBrace | TLBracket | TRBracket | TColon | TComma
| TString (s : jsstring)
| TNumber (n : Number)
| TTrue | TFalse | TNull.

(** The lexer's state. Strings are accumulated in reverse. A number is
    its sign [neg], the digits read so far as an integer [m], the count
    [k] of those after the point, and the exponent's sign and value. *)
Inductive lexer :=
| LIdle
| LString (acc : jsstring)
| LEscape (acc : jsstring)
| LUnicode (acc : jsstring) (more : nat) (v : Z)
| LLiteral (rest : jsstring) (t : token)
| LMinus
| LZero (neg : bool)
| LInt (neg : bool) (m : Z)
| LPoint (neg : bool) (m : Z)
| LFraction (neg : bool) (m k : Z)
| LExp (neg : bool) (m k : Z)
| LExpSign (neg : bool) (m k : Z) (eneg : bool)
| LExpDigits (neg : bool) (m k : Z) (eneg : bool) (e : Z)
| LError.

Definition is_digit (c : Z) : bool := between 48 57 c.

Definition hex_digit (c : Z) : option Z :=
  if between 48 57 c then Some (c - 48)
  else if between 97 102 c then Some (c - 87)
  else if between 65 70 c then Some (c - 55)
  else None.

Definition lex_idle (c : Z) : lexer * list token :=
  if (c =? 9) || (c =? 10) || (c =? 13) || (c =? 32) then (LIdle, [])
  else if c =? 123 then (LIdle, [TLBrace])
  else if c =? 125 then (LIdle, [TRBrace])
  else if c =? 91 then (LIdle, [TLBracket])
  else if c =? 93 then (LIdle, [TRBracket])
  else if c =? 58 then (LIdle, [TColon])
  else if c =? 44 then (LIdle, [TComma])
  else if c =? 34 then (LString [], [])
  else if c =? 45 then (LMinus, [])
  else if c =? 48 then (LZero false, [])
  else if is_digit c then (LInt false (c - 48), [])
  else if c =? 116 then (LLiteral (lit "rue") TTrue, [])
  else if c =? 102 then (LLiteral (lit "alse") TFalse, [])
  else if c =? 110 then (LLiteral (lit "ull") TNull, [])
  else (LError, []).

(** A number ends at the first code unit that cannot continue it; that
    code unit is then read as the start of the next token. *)
Definition lex_number_end (n : Number) (c : Z) : lexer * list token :=
  let (l, ts) := lex_idle c in (l, TNumber n :: ts).

Definition exponent_of (k : Z) (eneg : bool) (e : Z) : Z :=
  (if eneg then - e else e) - k.

Definition lex_step (l : lexer) (c : Z) : lexer * list token :=
  match l with
  | LIdle => lex_idle c
  | LString acc =>
      if c =? 34 then (LIdle, [TString (rev acc)])
      else if c =? 92 then (LEscape acc, [])
      else if c <? 32 then (LError, [])
      else (LString (c :: acc), [])
  | LEscape acc =>
      if c =? 34 then (LString (34 :: acc), [])
      else if c =? 92 then (LString (92 :: acc), [])
      else if c =? 47 then (LString (47 :: acc), [])
      else if c =? 98 then (LString (8 :: acc), [])
      else if c =? 102 then (LString (12 :: acc), [])
      else if c =? 110 then (LString (10 :: acc), [])
      else if c =? 114 then (LString (13 :: acc), [])
      else if c =? 116 then (LString (9 :: acc), [])
      else if c =? 117 then (LUnicode acc 3 0, [])
      else (LError, [])
  | LUnicode acc more v =>
      match hex_digit c with
      | None => (LError, [])
      | Some h =>
          match more with
          | O => (LString ((16 * v + h) :: acc), [])
          | S more' => (LUnicode acc more' (16 * v + h), [])
          end
      end
  | LLiteral rest t =>
      match rest with
      | [] => (LError, [])
      | [x] => if c =? x then (LIdle, [t]) else (LError, [])
      | x :: rest' => if c =? x then (LLiteral rest' t, []) else (LError, [])
      end
  | LMinus =>
      if c =? 48 then (LZero true, [])
      else if is_digit c then (LInt true (c - 48), [])
      else (LError, [])
  | LZero neg =>
      if c =? 46 then (LPoint neg 0, [])
      else if (c =? 101) || (c =? 69) then (LExp neg 0 0, [])
      else lex_number_end (of_decimal neg 0 0) c
  | LInt neg m =>
      if is_digit c then (LInt neg (10 * m + (c - 48)), [])
      else if c =? 46 then (LPoint neg m, [])
      else if (c =? 101) || (c =? 69) then (LExp neg m 0, [])
      else lex_number_end (of_decimal neg m 0) c
  | LPoint neg m =>
      if is_digit c then (LFraction neg (10 * m + (c - 48)) 1, [])
      else (LError, [])
  | LFraction neg m k =>
      if is_digit c then (LFraction neg (10 * m + (c - 48)) (k + 1), [])
      else if (c =? 101) || (c =? 69) then (LExp neg m k, [])
      else lex_number_end (of_decimal neg m (- k)) c
  | LExp neg m k =>
      if c =? 43 then (LExpSign neg m k false, [])
      else if c =? 45 then (LExpSign neg m k true, [])
      else if is_digit c then (LExpDigits neg m k false (c - 48), [])
      else (LError, [])
  | LExpSign neg m k eneg =>
      if is_digit c then (LExpDigits neg m k eneg (c - 48), [])
      else (LError, [])
  | LExpDigits neg m k eneg e =>
      if is_digit c then (LExpDigits neg m k eneg (10 * e + (c - 48)), [])
      else lex_number_end (of_decimal neg m (exponent_of k eneg e)) c
  | LError => (LError, [])
  end.

(** The end of the text: a number may end there, nothing else may be
    open. *)
Definition lex_end (l : lexer) : option (list token) :=
  match l with
  | LIdle => Some []
  | LZero neg => Some [TNumber (of_decimal neg 0 0)]
  | LInt neg m => Some [TNumber (of_decimal neg m 0)]
  | LFraction neg m k => Some [TNumber (of_decimal neg m (- k))]
  | LExpDigits neg m k eneg e =>
      Some [TNumber (of_decimal neg m (exponent_of k eneg e))]
  | _ => None
  end.

Fixpoint lex_run (l : lexer) (text : jsstring) : lexer * list token :=
  match text with
  | [] => (l, [])
  | c :: text' =>
      let (l1, ts) := lex_step l c in
      let (l2, ts') := lex_run l1 text' in
      (l2, ts ++ ts')
  end.

Definition lex (text : jsstring) : option (list token) :=
  let (l, ts) := lex_run LIdle text in
  match lex_end l with
  | Some ts' => Some (ts ++ ts')
  | None => None
  end.

(** An array or object that is still open: the elements read so far, in
    reverse; the properties defined so far and the key that waits for
    its value. *)
Inductive frame :=
| FArray (elements : list value)
| FObject (properties : list (jsstring * value)) (key : option jsstring).

Inductive parser :=
| PValue (stack : list frame)
| PArrayStart (stack : list frame)
| PObjectStart (stack : list frame)
| PKey (stack : list frame)
| PColon (stack : list frame)
| PAfter (stack : list frame)
| PDone (v : value)
| PError.

(** A value is complete: it is the result, the next element of the
    innermost open array, or the value of the waiting key. *)
Definition parse_value (v : value) (stack : list frame) : parser :=
  match stack with
  | [] => PDone v
  | FArray elements :: stack' => PAfter (FArray (v :: elements) :: stack')
  | FObject props (Some key) :: stack' =>
      PAfter (FObject (define key v props) None :: stack')
  | FObject _ None :: _ => PError
  end.

Definition parse_start (t : token) (stack : list frame) : parser :=
  match t with
  | TLBrace => PObjectStart (FObject [] None :: stack)
  | TLBracket => PArrayStart (FArray [] :: stack)
  | TString s => parse_value (VString s) stack
  | TNumber n => parse_value (VNumber n) stack
  | TTrue => parse_value (VBoolean true) stack
  | TFalse => parse_value (VBoolean false) stack
  | TNull => parse_value VNull stack
  | TRBrace | TRBracket | TColon | TComma => PError
  end.

Definition parse_key (t : token) (stack : list frame) : parser :=
  match t, stack with
  | TString key, FObject props None :: stack' =>
      PColon (FObject props (Some key) :: stack')
  | _, _ => PError
  end.

Definition parse_step (p : parser) (t : token) : parser :=
  match p with
  | PValue stack => parse_start t stack
  | PArrayStart stack =>
      match t, stack with
      | TRBracket, FArray _ :: stack' => parse_value (VArray []) stack'
      | _, _ => parse_start t stack
      end
  | PObjectStart stack =>
      match t, stack with
      | TRBrace, FObject _ _ :: stack' => parse_value (VObject []) stack'
      | _, _ => parse_key t stack
      end
  | PKey stack => parse_key t stack
  | PColon stack =>
      match t with TColon => PValue stack | _ => PError end
  | PAfter stack =>
      match t, stack with
      | TComma, FArray _ :: _ => PValue stack
      | TRBracket, FArray elements :: stack' =>
          parse_value (VArray (rev elements)) stack'
      | TComma, FObject _ None :: _ => PKey stack
      | TRBrace, FObject props None :: stack' =>
          parse_value (VObject props) stack'
      | _, _ => PError
      end
  | PDone _ => PError
  | PError => PError
  end.

(** [JSON.parse(text)]: the value, or the SyntaxError it throws. *)
Definition JSON_parse (text : jsstring) : exn + value :=
  match lex text with
  | None => inl (ErrorInstance SyntaxError [])
  | Some tokens =>
      match fold_left parse_step tokens (PValue []) with
      | PDone v => inr v
      | _ => inl (ErrorInstance SyntaxError [])
      end
  end.

(** ** [JSON.stringify]

    With one argument: no replacer, no indentation (ECMA-262, 25.5.2). *)
Definition hex_char (h : Z) : Z := if h <? 10 then 48 + h else 87 + h.

(** UnicodeEscape: [\uXXXX] with lowercase hexadecimal digits *)
Definition UnicodeEscape (c : Z) : jsstring :=
  [92; 117; hex_char (Z.shiftr c 12 mod 16); hex_char (Z.shiftr c 8 mod 16);
   hex_char (Z.shiftr c 4 mod 16); hex_char (c mod 16)].

Definition is_leading_surrogate (c : Z) : bool := between 0xD800 0xDBFF c.
Definition is_trailing_surrogate (c : Z) : bool := between 0xDC00 0xDFFF c.

Definition quote_unit (c : Z) : jsstring :=
  if c =? 8 then [92; 98]
  else if c =? 9 then [92; 116]
  else if c =? 10 then [92; 110]
  else if c =? 12 then [92; 102]
  else if c =? 13 then [92; 114]
  else if c =? 34 then [92; 34]
  else if c =? 92 then [92; 92]
  else if (c <? 32) || is_leading_surrogate c || is_trailing_surrogate c
  then UnicodeEscape c
  else [c].

(** The inside of QuoteJSONString: a surrogate pair is kept, a lone
    surrogate is escaped. *)
Fixpoint quote_units (s : jsstring) : jsstring :=
  match s with
  | [] => []
  | c :: s' =>
      match s' with
      | c' :: s'' =>
          if is_leading_surrogate c && is_trailing_surrogate c'
          then c :: c' :: quote_units s''
          else quote_unit c ++ quote_units s'
      | [] => quote_unit c
      end
  end.

Definition QuoteJSONString (s : jsstring) : jsstring :=
  [34] ++ quote_units s ++ [34].

Fixpoint join (sep : jsstring) (parts : list jsstring) : jsstring :=
  match parts with
  | [] => []
  | [x] => x
  | x :: parts' => x ++ sep ++ join sep parts'
  end.

(** An array index: the canonical decimal form of an integer below
    [2^32 - 1]. Such keys come first, in ascending order, when the
    properties of an object are enumerated. *)
Definition array_index (key : jsstring) : option Z :=
  match key with
  | [] => None
  | c :: rest =>
      if forallb is_digit key && (negb (c =? 48) || is_empty rest)
         && (Z.of_nat (length key) <=? 10)
      then
        let n := fold_left (fun acc d => 10 * acc + (d - 48)) key 0 in
        if n <? 2 ^ 32 - 1 then Some n else None
      else None
  end.

Fixpoint insert_index {A} (n : Z) (x : A) (l : list (Z * A)) : list (Z * A) :=
  match l with
  | [] => [(n, x)]
  | (n', y) :: l' =>
      if n <? n' then (n, x) :: l else (n', y) :: insert_index n x l'
  end.

(** OrdinaryOwnPropertyKeys on members that carry their key first *)
Definition own_property_order {A} (members : list (jsstring * A))
  : list (jsstring * A) :=
  let indexed :=
    fold_left (fun acc kv =>
                 match array_index (fst kv) with
                 | Some n => insert_index n kv acc
                 | None => acc
                 end) members [] in
  map snd indexed ++
  filter (fun kv => match array_index (fst kv) with
                    | Some _ => false | None => true end) members.

(** SerializeJSONProperty: [None] is [undefined]. A property whose value
    is [undefined] is left out of an object and is [null] in an array. *)
Fixpoint JSON_stringify (v : value) : option jsstring :=
  match v with
  | VUndefined => None
  | VNull => Some (lit "null")
  | VBoolean true => Some (lit "true")
  | VBoolean false => Some (lit "false")
  | VNumber (Finite neg m e) => Some (Number_toString (Finite neg m e))
  | VNumber (Zero neg) => Some (Number_toString (Zero neg))
  | VNumber _ => Some (lit "null")
  | VString s => Some (QuoteJSONString s)
  | VArray elements =>
      Some ([91] ++
            join [44] (map (fun x => match JSON_stringify x with
                                     | Some t => t
                                     | None => lit "null"
                                     end) elements) ++ [93])
  | VObject props =>
      let members :=
        map (fun kv => (fst kv, JSON_stringify (snd kv))) props in
      Some ([123] ++
            join [44]
              (flat_map (fun kt => match snd kt with
                                   | Some t =>
                                       [QuoteJSONString (fst kt) ++ [58] ++ t]
                                   | None => []
                                   end) (own_property_order members))
            ++ [125])
  end.

End JS.





(* ================================================================== *)
(** * ChatWindow.tsx: the stream consumer *)
(* ================================================================== *)

Module ChatWindow.
Import JS.

Inductive Method := GET | POST.

(** The arguments of a call of [fetch]. [body] is [None] when the
    value given is [undefined]. *)
Record Request := {
  url : jsstring;
  method : Method;
  headers : list (jsstring * jsstring);
  body : option jsstring
}.

(** What the code reads of a Response: [ok], [status], [statusText] and
    whether [body] is there. *)
Record Response := {
  ok : bool;
  status : Z;
  statusText : jsstring;
  has_body : bool
}.

(** The result of [reader.read()]: [{ value, done }]. *)
Inductive ReadResult :=
| chunk (value : Uint8Array)
| done.

(** The calls the stream makes on its surroundings: the callbacks held
    in [streamStartRef], [streamCompleteRef] and [streamErrorRef] (each
    called through [?.], so a callback that was not given is skipped),
    the network, the reader, the abort controller and the console. *)
Inductive call :=
| onStreamStart
| onStreamComplete (answer : jsstring)
| onStreamError (message : jsstring)
| fetch (request : Request)
| reader_read
| controller_abort
| reader_cancel
| console_error (err : exn) (line : jsstring).

(** Where [fetchStream] stands. *)
Inductive progress :=
| await_fetch
| await_read
| returned
| rejected (error : exn).

(** One run of the effect on [activeQuestion]: the variables of its
    closure, the state of the component it writes to, the calls it has
    made (oldest first), and where [fetchStream] stands. *)
Record Stream := {
  isCancelled : bool;
  decoder : TextDecoder;
  reader : bool;
  buffer : jsstring;
  latestAnswer : jsstring;
  answer : jsstring;
  statusMessages : list jsstring;
  isStreaming : bool;
  calls : list call;
  fetchStream : progress
}.

Definition with_isCancelled b (s : Stream) : Stream :=
  {| isCancelled := b; decoder := decoder s; reader := reader s;
     buffer := buffer s; latestAnswer := latestAnswer s; answer := answer s;
     statusMessages := statusMessages s; isStreaming := isStreaming s;
     calls := calls s; fetchStream := fetchStream s |}.
Definition with_decoder d (s : Stream) : Stream :=
  {| isCancelled := isCancelled s; decoder := d; reader := reader s;
     buffer := buffer s; latestAnswer := latestAnswer s; answer := answer s;
     statusMessages := statusMessages s; isStreaming := isStreaming s;
     calls := calls s; fetchStream := fetchStream s |}.
Definition with_reader r (s : Stream) : Stream :=
  {| isCancelled := isCancelled s; decoder := decoder s; reader := r;
     buffer := buffer s; latestAnswer := latestAnswer s; answer := answer s;
     statusMessages := statusMessages s; isStreaming := isStreaming s;
     calls := calls s; fetchStream := fetchStream s |}.
Definition with_buffer b (s : Stream) : Stream :=
  {| isCancelled := isCancelled s; decoder := decoder s; reader := reader s;
     buffer := b; latestAnswer := latestAnswer s; answer := answer s;
     statusMessages := statusMessages s; isStreaming := isStreaming s;
     calls := calls s; fetchStream := fetchStream s |}.
Definition with_latestAnswer a (s : Stream) : Stream :=
  {| isCancelled := isCancelled s; decoder := decoder s; reader := reader s;
     buffer := buffer s; latestAnswer := a; answer := answer s;
     statusMessages := statusMessages s; isStreaming := isStreaming s;
     calls := calls s; fetchStream := fetchStream s |}.
Definition with_answer a (s : Stream) : Stream :=
  {| isCancelled := isCancelled s; decoder := decoder s; reader := reader s;
     buffer := buffer s; latestAnswer := latestAnswer s; answer := a;
     statusMessages := statusMessages s; isStreaming := isStreaming s;
     calls := calls s; fetchStream := fetchStream s |}.
Definition with_statusMessages l (s : Stream) : Stream :=
  {| isCancelled := isCancelled s; decoder := decoder s; reader := reader s;
     buffer := buffer s; latestAnswer := latestAnswer s; answer := answer s;
     statusMessages := l; isStreaming := isStreaming s;
     calls := calls s; fetchStream := fetchStream s |}.
Definition with_isStreaming b (s : Stream) : Stream :=
  {| isCancelled := isCancelled s; decoder := decoder s; reader := reader s;
     buffer := buffer s; latestAnswer := latestAnswer s; answer := answer s;
     statusMessages := statusMessages s; isStreaming := b;
     calls := calls s; fetchStream := fetchStream s |}.
Definition with_calls l (s : Stream) : Stream :=
  {| isCancelled := isCancelled s; decoder := decoder s; reader := reader s;
     buffer := buffer s; latestAnswer := latestAnswer s; answer := answer s;
     statusMessages := statusMessages s; isStreaming := isStreaming s;
     calls := l; fetchStream := fetchStream s |}.
Definition with_fetchStream p (s : Stream) : Stream :=
  {| isCancelled := isCancelled s; decoder := decoder s; reader := reader s;
     buffer := buffer s; latestAnswer := latestAnswer s; answer := answer s;
     statusMessages := statusMessages s; isStreaming := isStreaming s;
     calls := calls s; fetchStream := p |}.

(** ** Statements

    A statement runs on the stream and completes normally with a value
    or abruptly with what it threw; what it wrote before stays. *)
Inductive completion (A : Type) :=
| Normal (a : A)
| Throw (e : exn).
Arguments Normal {A} a.
Arguments Throw {A} e.

Definition M (A : Type) := Stream -> completion A * Stream.

Definition ret {A} (a : A) : M A := fun s => (Normal a, s).
Definition throw {A} (e : exn) : M A := fun s => (Throw e, s).
Definition bind {A B} (m : M A) (k : A -> M B) : M B :=
  fun s => match m s with
           | (Normal a, s') => k a s'
           | (Throw e, s') => (Throw e, s')
           end.
Definition try_catch {A} (body : M A) (handler : exn -> M A) : M A :=
  fun s => match body s with
           | (Normal a, s') => (Normal a, s')
           | (Throw e, s') => handler e s'
           end.
Definition read {A} (field : Stream -> A) : M A := fun s => (Normal (field s), s).
Definition write (f : Stream -> Stream) : M unit := fun s => (Normal tt, f s).
Definition lift {A} (r : exn + A) : M A :=
  match r with inr a => ret a | inl e => throw e end.

Declare Scope js_scope.
Delimit Scope js_scope with js.
Notation "x <- m ;; k" := (bind m (fun x => k))
  (at level 61, m at next level, right associativity) : js_scope.
Notation "m ;; k" := (bind m (fun _ => k))
  (at level 61, right associativity) : js_scope.
Local Open Scope js_scope.

Fixpoint for_of {A} (l : list A) (body : A -> M unit) : M unit :=
  match l with
  | [] => ret tt
  | x :: l' => body x ;; for_of l' body
  end.

(** The state setters, given an updater function. *)
Definition setAnswer (f : jsstring -> jsstring) : M unit :=
  write (fun s => with_answer (f (answer s)) s).
Definition setStatusMessages (f : list jsstring -> list jsstring) : M unit :=
  write (fun s => with_statusMessages (f (statusMessages s)) s).
Definition setIsStreaming (b : bool) : M unit :=
  write (with_isStreaming b).
Definition do_call (c : call) : M unit :=
  write (fun s => with_calls (calls s ++ [c]) s).

(** The text of [`❌ `]: U+274C and a space. *)
Definition cross_mark : jsstring := [0x274C; 0x20].

(** [pushStatus(message, isError)]. The text is a string or, were
    [JSON.stringify] to give it, [undefined]; [if (!text) return] leaves
    on either [undefined] or the empty string. *)
Definition pushStatus (message : value) (isError : bool) : M unit :=
  let text :=
    match message with
    | VString s => Some s
    | VUndefined => Some []
    | _ => JSON_stringify message
    end in
  match text with
  | None => ret tt
  | Some text =>
      if is_empty text then ret tt
      else setStatusMessages
             (fun prev => prev ++ [if isError then cross_mark ++ text else text])
  end.

(** [line.replace(/^data:\s*/, EMPTY)] with the empty string for EMPTY:
    the prefix and the white space after it go, when the line starts
    with the prefix. *)
Definition replace_data_prefix (line : jsstring) : jsstring :=
  if startsWith line (lit "data:")
  then dropWhile is_whitespace (skipn 5 line)
  else line.

(** [data.event || data.type] *)
Definition eventType (data : value) : exn + value :=
  match get data (lit "event") with
  | inl e => inl e
  | inr event => if truthy event then inr event else get data (lit "type")
  end.

(** The [try] block of [handleLine]. *)
Definition handleLine_try (cleanLine : jsstring) : M unit :=
  data <- lift (JSON_parse cleanLine) ;;
  eventType <- lift (eventType data) ;;
  if is_string eventType (lit "text") then
    data_payload <- lift (get data (lit "payload")) ;;
    let payload :=
      match data_payload with VString s => s | _ => [] end in
    write (fun s => with_latestAnswer (latestAnswer s ++ payload) s) ;;
    setAnswer (fun prev => prev ++ payload)
  else if is_string eventType (lit "status") then
    data_payload <- lift (get data (lit "payload")) ;;
    pushStatus data_payload false
  else if is_string eventType (lit "error") then
    data_payload <- lift (get data (lit "payload")) ;;
    pushStatus data_payload true
  else ret tt.

(** [handleLine(rawLine)] *)
Definition handleLine (rawLine : jsstring) : M unit :=
  let line := trim rawLine in
  if is_empty line then ret tt
  else
    let cleanLine :=
      if startsWith line (lit "data:") then replace_data_prefix line
      else line in
    try_catch (handleLine_try cleanLine)
              (fun err => do_call (console_error err line)).

(** ** [fetchStream]

    The function is cut where it awaits. Each piece runs to the next
    [await] (and says which) or to the end of the [try] block. *)

(** [import.meta.env.VITE_API_URL || "http://localhost:8000"] *)
Definition API_BASE_URL (VITE_API_URL : option jsstring) : jsstring :=
  match VITE_API_URL with
  | Some u => if is_empty u then lit "http://localhost:8000" else u
  | None => lit "http://localhost:8000"
  end.

Definition ask_body (activeQuestion : jsstring) : value :=
  VObject [(lit "user_id", VString (lit "linkcampus"));
           (lit "question", VString activeQuestion)].

Definition ask_request (VITE_API_URL : option jsstring)
  (activeQuestion : jsstring) : Request :=
  {| url := API_BASE_URL VITE_API_URL ++ lit "/api/ask";
     method := POST;
     headers := [(lit "Content-Type", lit "application/json")];
     body := JSON_stringify (ask_body activeQuestion) |}.

(** From the start of the [try] block to [await fetch(...)]. *)
Definition fetchStream_begin (VITE_API_URL : option jsstring)
  (activeQuestion : jsstring) : M (option progress) :=
  setAnswer (fun _ => []) ;;
  setStatusMessages (fun _ => []) ;;
  setIsStreaming true ;;
  do_call onStreamStart ;;
  do_call (fetch (ask_request VITE_API_URL activeQuestion)) ;;
  ret (Some await_fetch).

(** [if (buffer.trim()) handleLine(buffer)], after the loop. *)
Definition after_loop : M unit :=
  b <- read buffer ;;
  if negb (is_empty (trim b)) then handleLine b else ret tt.

(** The head of [while (!isCancelled)]: the next [await reader.read()],
    or the statements after the loop. *)
Definition loop_head : M (option progress) :=
  cancelled <- read isCancelled ;;
  if cancelled then after_loop ;; ret None
  else do_call reader_read ;; ret (Some await_read).

(** The body of the loop once [reader.read()] gave [value]. *)
Definition loop_body (value : Uint8Array) : M unit :=
  d <- read decoder ;;
  let (d', text) := decode d value in
  write (with_decoder d') ;;
  write (fun s => with_buffer (buffer s ++ text) s) ;;
  b <- read buffer ;;
  let (last, lines) := pop (split 10 b) in
  write (with_buffer (match last with Some l => l | None => [] end)) ;;
  for_of lines handleLine.

Definition empty_stream_message : jsstring :=
  [0xC11C; 0xBC84; 0xC5D0; 0xC11C; 0x0020; 0xBE48; 0x0020; 0xC2A4; 0xD2B8;
   0xB9BC; 0xC774; 0x0020; 0xBC18; 0xD658; 0xB418; 0xC5C8; 0xC2B5; 0xB2C8;
   0xB2E4; 0x002E].

Definition unknown_error_message : jsstring :=
  [0xC54C; 0x0020; 0xC218; 0x0020; 0xC5C6; 0xB294; 0x0020; 0xC624; 0xB958;
   0xAC00; 0x0020; 0xBC1C; 0xC0DD; 0xD588; 0xC2B5; 0xB2C8; 0xB2E4; 0x002E].

(** From the response of [fetch] to the first [await reader.read()]. *)
Definition after_fetch (response : Response) : M (option progress) :=
  if negb (ok response) then
    pushStatus
      (VString (lit "HTTP " ++ decimal (status response) ++ lit ": "
                ++ statusText response)) true ;;
    ret None
  else if negb (has_body response) then
    pushStatus (VString empty_stream_message) true ;;
    ret None
  else
    write (with_reader true) ;;
    loop_head.

(** From the result of [reader.read()] on. *)
Definition after_read (result : ReadResult) : M (option progress) :=
  match result with
  | done => after_loop ;; ret None
  | chunk value => loop_body value ;; loop_head
  end.

(** The [catch] block. *)
Definition fetchStream_catch (error : exn) : M unit :=
  cancelled <- read isCancelled ;;
  if cancelled then ret tt
  else
    let message :=
      match error with
      | ErrorInstance _ message => message
      | Thrown _ => unknown_error_message
      end in
    pushStatus (VString message) true ;;
    do_call (onStreamError message).

(** The [finally] block. *)
Definition fetchStream_finally : M unit :=
  cancelled <- read isCancelled ;;
  if negb cancelled then
    setIsStreaming false ;;
    answer <- read latestAnswer ;;
    do_call (onStreamComplete answer)
  else ret tt.

(** The [finally] block, then the end of [fetchStream]: it returns, or
    it is rejected with what the [catch] block or the [finally] block
    threw. *)
Definition finish (thrown : option exn) (s : Stream) : Stream :=
  match fetchStream_finally s with
  | (Normal _, s') =>
      with_fetchStream
        (match thrown with None => returned | Some e => rejected e end) s'
  | (Throw e, s') => with_fetchStream (rejected e) s'
  end.

(** [try { piece } catch (error) { ... } finally { ... }], up to the
    next [await] or to the end of [fetchStream]. *)
Definition resume (piece : M (option progress)) (s : Stream) : Stream :=
  match piece s with
  | (Normal (Some p), s') => with_fetchStream p s'
  | (Normal None, s') => finish None s'
  | (Throw e, s') =>
      match fetchStream_catch e s' with
      | (Normal _, s'') => finish None s''
      | (Throw e', s'') => finish (Some e') s''
      end
  end.

(** ** The effect on [activeQuestion] *)

(** What happens to a stream: a promise it awaits settles, or React runs
    the cleanup of the effect (a new [activeQuestion], or unmounting). *)
Inductive event :=
| fetch_resolved (response : Response)
| fetch_rejected (error : exn)
| read_resolved (result : ReadResult)
| read_rejected (error : exn)
| cleanup.

(** The function the effect returns. *)
Definition effect_cleanup (s : Stream) : Stream :=
  let s := with_isCancelled true s in
  let s := with_calls (calls s ++ [controller_abort]) s in
  if reader s then with_calls (calls s ++ [reader_cancel]) s else s.

Definition step (s : Stream) (ev : event) : Stream :=
  match ev, fetchStream s with
  | cleanup, _ => effect_cleanup s
  | fetch_resolved response, await_fetch => resume (after_fetch response) s
  | fetch_rejected error, await_fetch => resume (throw error) s
  | read_resolved result, await_read => resume (after_read result) s
  | read_rejected error, await_read => resume (throw error) s
  | _, _ => s
  end.

(** The component's state before the effect runs, and its props and
    environment as far as the effect reads them. *)
Record Component := {
  VITE_API_URL : option jsstring;
  activeQuestion : option jsstring;
  prev_answer : jsstring;
  prev_statusMessages : list jsstring;
  prev_isStreaming : bool
}.

(** The body of the effect: nothing without an [activeQuestion],
    otherwise a new closure and [fetchStream()] up to its first
    [await]. *)
Definition effect (c : Component) : option Stream :=
  match activeQuestion c with
  | None => None
  | Some q =>
      if is_empty q then None
      else
        Some (resume (fetchStream_begin (VITE_API_URL c) q)
                {| isCancelled := false;
                   decoder := new_TextDecoder;
                   reader := false;
                   buffer := [];
                   latestAnswer := [];
                   answer := prev_answer c;
                   statusMessages := prev_statusMessages c;
                   isStreaming := prev_isStreaming c;
                   calls := [];
                   fetchStream := await_fetch |})
  end.

Definition run (s : Stream) (events : list event) : Stream :=
  fold_left step events s.

(** ** The vocabulary of the properties *)

(** The stream a statement leaves. *)
Definition exec {A} (m : M A) (s : Stream) : Stream := snd (m s).

(** The record a line carries: what [JSON.parse] makes of the line once
    trimmed and stripped of its prefix. A blank line carries none, nor
    does a line that is not JSON text. *)
Definition decodeLine (rawLine : jsstring) : option value :=
  let line := trim rawLine in
  if is_empty line then None
  else match JSON_parse (replace_data_prefix line) with
       | inr data => Some data
       | inl _ => None
       end.

(** The kind of a record is a given string. A record whose kind cannot
    be read ([null]) has no kind. *)
Definition kind_is (kind : jsstring) (data : value) : bool :=
  match eventType data with
  | inr t => is_string t kind
  | inl _ => false
  end.

Definition payload (data : value) : value :=
  match get data (lit "payload") with
  | inr p => p
  | inl _ => VUndefined
  end.

(** The text a [text] chunk carries. *)
Definition text_payload (data : value) : jsstring :=
  match payload data with VString s => s | _ => [] end.

(** The ordered concatenation of the payloads of the [text] chunks. *)
Definition answer_of (records : list value) : jsstring :=
  concat (map text_payload (filter (kind_is (lit "text")) records)).

(** The text of a label: the payload itself when it is a string, else
    its JSON serialization (none for [undefined]). *)
Definition label_text (p : value) : jsstring :=
  match p with
  | VString s => s
  | _ => match JSON_stringify p with Some t => t | None => [] end
  end.

(** The labels a record adds to the list. *)
Definition labels_of (data : value) : list jsstring :=
  let text := label_text (payload data) in
  if kind_is (lit "status") data then
    (if is_empty text then [] else [text])
  else if kind_is (lit "error") data then
    (if is_empty text then [] else [cross_mark ++ text])
  else [].

Definition records (lines : list jsstring) : list value :=
  flat_map (fun l => match decodeLine l with Some d => [d] | None => [] end)
           lines.

(** The lines of a whole byte stream, the last fragment included. *)
Definition stream_lines (bytes : Uint8Array) : list jsstring :=
  split 10 (snd (decode new_TextDecoder bytes)).

(** What one line adds to the answer, to the label list and to the
    console. *)
Definition line_text (l : jsstring) : jsstring :=
  match decodeLine l with
  | Some d => if kind_is (lit "text") d then text_payload d else []
  | None => []
  end.

Definition line_labels (l : jsstring) : list jsstring :=
  match decodeLine l with
  | Some d => labels_of d
  | None => []
  end.

Definition line_log (l : jsstring) : list call :=
  let line := trim l in
  if is_empty line then []
  else match JSON_parse (replace_data_prefix line) with
       | inl e => [console_error e line]
       | inr data =>
           match eventType data with
           | inl e => [console_error e line]
           | inr _ => []
           end
       end.

Definition apply_lines (lines : list jsstring) (s : Stream) : Stream :=
  {| isCancelled := isCancelled s; decoder := decoder s; reader := reader s;
     buffer := buffer s;
     latestAnswer := latestAnswer s ++ concat (map line_text lines);
     answer := answer s ++ concat (map line_text lines);
     statusMessages := statusMessages s ++ concat (map line_labels lines);
     isStreaming := isStreaming s;
     calls := calls s ++ concat (map line_log lines);
     fetchStream := fetchStream s |}.

(** The stream after the bytes [value] have come in, however they were
    cut into ranges, the calls of [reader.read()] apart. *)
Definition feed (value : Uint8Array) (s : Stream) : Stream :=
  let (d, text) := decode (decoder s) value in
  let pieces := split 10 (buffer s ++ text) in
  with_buffer (last pieces [])
    (with_decoder d (apply_lines (removelast pieces) s)).

Definition is_read (c : call) : bool :=
  match c with reader_read => true | _ => false end.

Definition is_complete (c : call) : bool :=
  match c with onStreamComplete _ => true | _ => false end.

(** A stream with the calls of [reader.read()] left out of its trace. *)
Definition unread (s : Stream) : Stream :=
  with_calls (filter (fun c => negb (is_read c)) (calls s)) s.

(** The answers given to [onStreamComplete], oldest first. *)
Definition completions (cs : list call) : list jsstring :=
  flat_map (fun c => match c with onStreamComplete a => [a] | _ => [] end) cs.

(** The events of a stream that runs to its end: the response, the
    byte ranges, the end of the stream. *)
Definition delivery (response : Response) (ranges : list Uint8Array)
  : list event :=
  fetch_resolved response
  :: map (fun v => read_resolved (chunk v)) ranges ++ [read_resolved done].

(** A call that neither asks for bytes nor reports completion. *)
Definition quiet (c : call) : bool := negb (is_read c) && negb (is_complete c).

(** [fetchStream] is suspended at an [await]. *)
Definition awaiting (s : Stream) : bool :=
  match fetchStream s with
  | await_fetch | await_read => true
  | returned | rejected _ => false
  end.

(** What the pieces of the [try] block leave: calls that are added at
    the end, none of them a completion, none of them a read once the
    stream is cancelled. *)
Definition piece_ok (piece : M (option progress)) (s : Stream) : Prop :=
  exists outcome s' extra,
    piece s = (outcome, s') /\
    calls s' = calls s ++ extra /\
    isCancelled s' = isCancelled s /\
    completions extra = [] /\
    (isCancelled s = true -> Forall (fun c => quiet c = true) extra) /\
    (forall p, outcome = Normal (Some p) -> p = await_fetch \/ p = await_read).

(** ** A stream to run the model on

    The bytes of six lines: a [status] record with a Korean label, a
    [text] record behind the [data:] prefix, a line that is not JSON, a
    [source] record, a second [text] record, and an [error] record that
    no newline ends. *)
Definition example_head : Uint8Array :=
  json_text "{'event':'status','payload':'"
  ++ [0xEA; 0xB2; 0x80; 0xEC; 0x83; 0x89; 0x20; 0xEC; 0xA4; 0x91]
  ++ json_text "'}" ++ [10]
  ++ json_text "data: {'event':'text','payload':'"
  ++ [0xEB; 0xB2; 0x95] ++ json_text "'}" ++ [10].

Definition example_tail : Uint8Array :=
  json_text "{'event':'source','payload':{'title':'t','relevance':0.5}}"
  ++ [10]
  ++ json_text "{'event':'text','payload':'"
  ++ [0xEB; 0xA0; 0xB9] ++ json_text "'}" ++ [10]
  ++ json_text "{'event':'error','payload':{'code':500}}".

Definition example_bytes : Uint8Array :=
  example_head ++ json_text "{bad" ++ [10] ++ example_tail.

(** The bytes cut into ranges of the given sizes, and what is left. *)
Fixpoint ranges_of (sizes : list nat) (bytes : Uint8Array)
  : list Uint8Array :=
  match sizes with
  | [] => [bytes]
  | n :: sizes' => firstn n bytes :: ranges_of sizes' (skipn n bytes)
  end.

Definition example_component : Component :=
  {| VITE_API_URL := None;
     activeQuestion := Some (lit "q");
     prev_answer := lit "old";
     prev_statusMessages := [lit "old"];
     prev_isStreaming := false |}.

Definition example_response : Response :=
  {| ok := true; status := 200; statusText := lit "OK"; has_body := true |}.

(** A stream that awaits its next range, with an answer and a label. *)
Definition example_stream : Stream :=
  {| isCancelled := false; decoder := new_TextDecoder; reader := true;
     buffer := []; latestAnswer := lit "a"; answer := lit "a";
     statusMessages := [lit "s"]; isStreaming := true;
     calls := [reader_read]; fetchStream := await_read |}.

End ChatWindow.


(* ================================================================== *)
(** * App.tsx: the chat history *)
(* ================================================================== *)

Module App.
Import JS.

Record Message := { role : jsstring; content : jsstring }.

(** The state of [App]: [messages] and [activeQuestion] ([None] is
    [null]), and what [handleSearch] wrote to the console. *)
Record State := {
  messages : list Message;
  activeQuestion : option jsstring;
  console_log : list jsstring
}.

Definition greeting : jsstring :=
  [0xC548; 0xB155; 0xD558; 0xC138; 0xC694; 0x0020; 0xD83D; 0xDC4B; 0x0020;
   0x004C; 0x004C; 0x0065; 0x0058; 0x002E; 0x0041; 0x0069; 0x0020; 0xC785;
   0xB2C8; 0xB2E4; 0x002E; 0x0020; 0xBB34; 0xC5C7; 0xC744; 0x0020; 0xB3C4;
   0xC640; 0xB4DC; 0xB9B4; 0xAE4C; 0xC694; 0x003F].

Definition initial : State :=
  {| messages := [{| role := lit "assistant"; content := greeting |}];
     activeQuestion := None;
     console_log := [] |}.

(** [handleSearch(query)] *)
Definition handleSearch (query : jsstring) (st : State) : State :=
  if is_empty (trim query) then st
  else
    {| messages := messages st ++ [{| role := lit "user"; content := query |}];
       activeQuestion := Some query;
       console_log := console_log st ++ [query] |}.

(** [handleStreamComplete(answer)] *)
Definition handleStreamComplete (answer : jsstring) (st : State) : State :=
  {| messages :=
       if negb (is_empty (trim answer))
       then messages st ++ [{| role := lit "assistant"; content := answer |}]
       else messages st;
     activeQuestion := None;
     console_log := console_log st |}.

Definition apology : jsstring :=
  [0xC8C4; 0xC1A1; 0xD569; 0xB2C8; 0xB2E4; 0x002E; 0x0020; 0xC624; 0xB958;
   0xAC00; 0x0020; 0xBC1C; 0xC0DD; 0xD588; 0xC2B5; 0xB2C8; 0xB2E4; 0x003A;
   0x0020].

(** [handleStreamError(message)] *)
Definition handleStreamError (message : jsstring) (st : State) : State :=
  {| messages :=
       messages st ++
       [{| role := lit "assistant"; content := apology ++ message |}];
     activeQuestion := None;
     console_log := console_log st |}.

End App.

(* ================================================================== *)
(** * The request of [ApiService.askQuestion] *)
(* ================================================================== *)

Module ApiService.
Import JS.

(** [search_mode: "general" | "law"] *)
Inductive SearchMode := general | law.

(** [interface QueryRequest] of [types/index.ts] *)
Record QueryRequest := {
  question : jsstring;
  search_mode : SearchMode
}.

Definition SearchMode_string (m : SearchMode) : jsstring :=
  match m with general => lit "general" | law => lit "law" end.

(** A [QueryRequest] as the object it is at run time. *)
Definition QueryRequest_value (request : QueryRequest) : value :=
  VObject [(lit "question", VString (question request));
           (lit "search_mode",
            VString (SearchMode_string (search_mode request)))].

(** The call of [fetch] in [askQuestion(request)]. *)
Definition askQuestion_fetch (VITE_API_URL : option jsstring)
  (request : QueryRequest) : ChatWindow.Request :=
  {| ChatWindow.url := ChatWindow.API_BASE_URL VITE_API_URL ++ lit "/api/ask";
     ChatWindow.method := ChatWindow.POST;
     ChatWindow.headers := [(lit "Content-Type", lit "application/json")];
     ChatWindow.body := JSON_stringify (QueryRequest_value request) |}.

(** ** The shape of a request to the Ask endpoint *)

(** The code units of a string are 16-bit. *)
Definition code_units (s : jsstring) : Prop :=
  Forall (fun c => 0 <= c < 65536) s.

(** A field that a body may have: a string [question], a [user_id], a
    [search_mode] that is ["general"] or ["law"]. *)
Definition ask_field (kv : jsstring * value) : bool :=
  (str_eqb (fst kv) (lit "question")
   && match snd kv with VString _ => true | _ => false end)
  || str_eqb (fst kv) (lit "user_id")
  || (str_eqb (fst kv) (lit "search_mode")
      && (is_string (snd kv) (lit "general")
          || is_string (snd kv) (lit "law"))).

Definition ask_body_shape (v : value) : bool :=
  match v with
  | VObject props =>
      match lookup (lit "question") props with
      | Some (VString _) => forallb ask_field props
      | _ => false
      end
  | _ => false
  end.

(** A POST whose body is JSON text for an object of that shape. *)
Definition ask_request_shape (r : ChatWindow.Request) : bool :=
  match ChatWindow.method r, ChatWindow.body r with
  | ChatWindow.POST, Some text =>
      match JSON_parse text with
      | inr v => ask_body_shape v
      | inl _ => false
      end
  | _, _ => false
  end.

End ApiService.

(* ================================================================== *)
(** * More of the platform: [replaceAll], UTF-8, [encodeURIComponent] *)
(* ================================================================== *)

Module Text.
Import JS.

(** [s.replaceAll(pattern, replacement)] for a pattern that is a string
    and a replacement that holds no [$]: the matches are taken from the
    left and do not overlap. [skip] counts the code units of a match
    that are still to be passed over. *)
Fixpoint replace_from (pattern replacement : jsstring) (skip : nat)
  (s : jsstring) : jsstring :=
  match s with
  | [] => []
  | c :: s' =>
      match skip with
      | S skip' => replace_from pattern replacement skip' s'
      | O =>
          if startsWith s pattern
          then replacement
               ++ replace_from pattern replacement (length pattern - 1)%nat s'
          else c :: replace_from pattern replacement 0%nat s'
      end
  end.

(** The empty pattern matches before every code unit and at the end. *)
Definition replaceAll (s pattern replacement : jsstring) : jsstring :=
  if is_empty pattern
  then replacement ++ flat_map (fun c => c :: replacement) s
  else replace_from pattern replacement 0%nat s.

(** UTF16SurrogatePairToCodePoint *)
Definition UTF16SurrogatePairToCodePoint (lead trail : Z) : Z :=
  (lead - 0xD800) * 0x400 + (trail - 0xDC00) + 0x10000.

(** The code points of a string, or nothing when a surrogate stands
    alone ([String.prototype.isWellFormed] is then false). *)
Fixpoint code_points (s : jsstring) : option (list Z) :=
  match s with
  | [] => Some []
  | c :: s' =>
      if is_leading_surrogate c then
        match s' with
        | c' :: s'' =>
            if is_trailing_surrogate c'
            then option_map (cons (UTF16SurrogatePairToCodePoint c c'))
                            (code_points s'')
            else None
        | [] => None
        end
      else if is_trailing_surrogate c then None
      else option_map (cons c) (code_points s')
  end.

(** The UTF-8 encoder of the Encoding Standard (section 8.1.2) on one
    code point. *)
Definition utf8_octets (cp : Z) : Uint8Array :=
  let continuation k := Z.lor 0x80 (Z.land (Z.shiftr cp (6 * k)) 0x3F) in
  if cp <? 0x80 then [cp]
  else if cp <? 0x800 then [Z.shiftr cp 6 + 0xC0; continuation 0]
  else if cp <? 0x10000 then
    [Z.shiftr cp 12 + 0xE0; continuation 1; continuation 0]
  else [Z.shiftr cp 18 + 0xF0; continuation 2; continuation 1;
        continuation 0].

(** The UTF-8 encoding of a well-formed string. *)
Definition utf8_encode (s : jsstring) : option Uint8Array :=
  option_map (flat_map utf8_octets) (code_points s).

(** ** [encodeURIComponent] (ECMA-262, 19.2.6.5 with Encode) *)

(** uriUnreserved: letters, digits and the marks [-_.!~*'()] *)
Definition uriUnreserved (c : Z) : bool :=
  between 65 90 c || between 97 122 c || is_digit c
  || (c =? 45) || (c =? 95) || (c =? 46) || (c =? 33) || (c =? 126)
  || (c =? 42) || (c =? 39) || (c =? 40) || (c =? 41).

Definition upper_hex (h : Z) : Z := if h <? 10 then 48 + h else 55 + h.

(** An octet as [%XX], in uppercase hexadecimal *)
Definition percent (octet : Z) : jsstring :=
  [37; upper_hex (octet / 16); upper_hex (octet mod 16)].

(** [None] when the function throws a URIError, on a surrogate that
    stands alone. *)
Fixpoint encodeURIComponent (s : jsstring) : option jsstring :=
  match s with
  | [] => Some []
  | c :: s' =>
      if uriUnreserved c then option_map (cons c) (encodeURIComponent s')
      else if is_leading_surrogate c then
        match s' with
        | c' :: s'' =>
            if is_trailing_surrogate c'
            then option_map
                   (app (flat_map percent
                           (utf8_octets (UTF16SurrogatePairToCodePoint c c'))))
                   (encodeURIComponent s'')
            else None
        | [] => None
        end
      else if is_trailing_surrogate c then None
      else option_map (app (flat_map percent (utf8_octets c)))
                      (encodeURIComponent s')
  end.

(** A code unit that has no meaning of its own in a URL: an unreserved
    character, or the [%] of an escape. *)
Definition url_safe (c : Z) : bool := uriUnreserved c || (c =? 37).

(** ** The vocabulary of the properties *)

(** A decoder with no sequence in progress. *)
Definition ground (BOM_seen : bool) : TextDecoder :=
  {| code_point := 0; bytes_seen := 0; bytes_needed := 0;
     lower_boundary := 0x80; upper_boundary := 0xBF; BOM_seen := BOM_seen |}.

(** A Unicode scalar value. *)
Definition scalar (cp : Z) : Prop :=
  0 <= cp < 0x110000 /\ ~ (0xD800 <= cp <= 0xDFFF).

(** No surrogate stands alone. *)
Definition well_formed (s : jsstring) : Prop := code_points s <> None.

End Text.

(* ================================================================== *)
(** * SearchBar.tsx: the question box *)
(* ================================================================== *)

Module SearchBar.
Import JS.

(** The state of the component. *)
Record State := { query : jsstring; isComposing : bool }.

(** What [handleKeyDown] reads of the keyboard event. *)
Record KeyboardEvent := { key : jsstring; shiftKey : bool }.

(** The calls the handlers make on their surroundings. *)
Inductive call :=
| preventDefault
| console_log (arguments : list jsstring)
| onSearch (trimmedQuery : jsstring).

Definition search_log : jsstring :=
  [0xD83D; 0xDD0D; 0x0020; 0x005B; 0x0053; 0x0065; 0x0061; 0x0072; 0x0063;
   0x0068; 0x0042; 0x0061; 0x0072; 0x005D; 0x0020; 0xAC80; 0xC0C9; 0x0020;
   0xC694; 0xCCAD; 0x003A].

Definition ignored_log : jsstring :=
  [0x26A0; 0xFE0F; 0x0020; 0x005B; 0x0053; 0x0065; 0x0061; 0x0072; 0x0063;
   0x0068; 0x0042; 0x0061; 0x0072; 0x005D; 0x0020; 0xBE48; 0x0020; 0xAC80;
   0xC0C9; 0xC5B4; 0x0020; 0xBB34; 0xC2DC].

(** [handleSubmit(e)] *)
Definition handleSubmit (st : State) : State * list call :=
  let trimmedQuery := trim (query st) in
  if negb (is_empty trimmedQuery) then
    ({| query := []; isComposing := isComposing st |},
     [preventDefault; console_log [search_log; trimmedQuery];
      onSearch trimmedQuery])
  else (st, [preventDefault; console_log [ignored_log]]).

(** [handleKeyDown(e)] *)
Definition handleKeyDown (e : KeyboardEvent) (st : State)
  : State * list call :=
  if str_eqb (key e) (lit "Enter") && negb (shiftKey e)
     && negb (isComposing st)
  then let (st', calls) := handleSubmit st in (st', preventDefault :: calls)
  else (st, []).

(** [disabled={!query.trim() || isComposing}] on the submit button *)
Definition disabled (st : State) : bool :=
  is_empty (trim (query st)) || isComposing st.

(** The events the form listens to. *)
Inductive event :=
| onChange (value : jsstring)
| onKeyDown (e : KeyboardEvent)
| onCompositionStart
| onCompositionEnd
| onSubmit.


(** The queries given to [onSearch], oldest first. *)
Definition searches (calls : list call) : list jsstring :=
  flat_map (fun c => match c with onSearch q => [q] | _ => [] end) calls.

End SearchBar.

(* ================================================================== *)
(** * ChatMessage.tsx and AnswerTab.tsx: what is given to the renderer *)
(* ================================================================== *)

Module ChatMessage.
Import JS.

(** [String(content || EMPTY).replaceAll("\\n", "\n")]: the two code
    units of a backslash and an [n] become a line feed. *)
Definition markdown_source (content : jsstring) : jsstring :=
  Text.replaceAll (if is_empty content then [] else content) [92; 110] [10].

(** The inside of the bubble: the text as it is, or Markdown. *)
Inductive Body :=
| text_node (content : jsstring)
| ReactMarkdown (children : jsstring).

Record Bubble := { isUser : bool; body : Body }.

Definition render (role content : jsstring) : Bubble :=
  let isUser := str_eqb role (lit "user") in
  {| isUser := isUser;
     body := if isUser then text_node content
             else ReactMarkdown (markdown_source content) |}.

(** A backslash followed by an [n] somewhere in the text. *)
Fixpoint has_escape (s : jsstring) : bool :=
  match s with
  | [] => false
  | c :: s' => startsWith s [92; 110] || has_escape s'
  end.

(** The replacement that [markdown_source] makes. *)
Definition unescape : jsstring -> jsstring :=
  Text.replace_from [92; 110] [10] 0%nat.

End ChatMessage.

Module AnswerTab.
Import JS.

(** The Markdown source and whether the cursor is shown. *)
Definition render (answer : jsstring) (isStreaming : bool)
  : jsstring * bool :=
  (Text.replaceAll (if is_empty answer then [] else answer) [92; 110] [10],
   isStreaming).

End AnswerTab.

(* ================================================================== *)
(** * ChatWindow.tsx: the live answer *)
(* ================================================================== *)

Module LiveAnswer.
Import JS.

(** The state of the component that the render reads. *)
Record View := {
  answer : jsstring;
  statusMessages : list jsstring;
  isStreaming : bool
}.

Definition view (s : ChatWindow.Stream) : View :=
  {| answer := ChatWindow.answer s;
     statusMessages := ChatWindow.statusMessages s;
     isStreaming := ChatWindow.isStreaming s |}.

(** ToBoolean of [activeQuestion], a string or [null] *)
Definition asked (activeQuestion : option jsstring) : bool :=
  match activeQuestion with
  | Some q => negb (is_empty q)
  | None => false
  end.

(** The effect on [isStreaming, activeQuestion]. *)
Definition reset_effect (activeQuestion : option jsstring) (v : View) : View :=
  if negb (isStreaming v) && negb (asked activeQuestion)
  then {| answer := []; statusMessages := []; isStreaming := isStreaming v |}
  else v.

(** [isStreaming || (!!answer && activeQuestion)], as a condition *)
Definition shouldShowLiveAnswer (activeQuestion : option jsstring)
  (v : View) : bool :=
  isStreaming v || (negb (is_empty (answer v)) && asked activeQuestion).

Definition generating : jsstring :=
  [0xB2F5; 0xBCC0; 0xC744; 0x0020; 0xC0DD; 0xC131; 0x0020; 0xC911; 0xC785;
   0xB2C8; 0xB2E4; 0x002E; 0x002E; 0x002E].

Inductive className := text_red_500 | text_gray_400.

(** [msg.startsWith(CROSS)] with U+274C for CROSS *)
Definition label_class (msg : jsstring) : className :=
  if startsWith msg [0x274C] then text_red_500 else text_gray_400.

Record Panel := {
  animate_pulse : bool;
  text : jsstring;
  labels : list (jsstring * className)
}.

(** The live panel of the render, when it is there. *)
Definition render (activeQuestion : option jsstring) (v : View)
  : option Panel :=
  if shouldShowLiveAnswer activeQuestion v then
    Some {| animate_pulse := isStreaming v;
            text := if is_empty (answer v) then generating else answer v;
            labels := map (fun msg => (msg, label_class msg))
                          (statusMessages v) |}
  else None.

End LiveAnswer.

(* ================================================================== *)
(** * [ApiService.getSources] *)
(* ================================================================== *)

Module Sources.
Import JS.

(** The call of [fetch] in [getSources(query)], with the defaults of
    [fetch] for the method, the headers and the body; [None] when
    [encodeURIComponent] throws and no call is made. *)
Definition getSources_fetch (VITE_API_URL : option jsstring)
  (query : jsstring) : option ChatWindow.Request :=
  match Text.encodeURIComponent query with
  | Some encoded =>
      Some {| ChatWindow.url :=
                ChatWindow.API_BASE_URL VITE_API_URL
                ++ lit "/api/sources?query=" ++ encoded;
              ChatWindow.method := ChatWindow.GET;
              ChatWindow.headers := [];
              ChatWindow.body := None |}
  | None => None
  end.

End Sources.

(* ================================================================== *)
(** * App.tsx: how the components are put together *)
(* ================================================================== *)

Module Page.
Import JS.


(** [<ChatWindow onStreamComplete={handleStreamComplete}
    onStreamError={handleStreamError} />]; [onStreamStart] is not given. *)
Definition onChatWindow (c : ChatWindow.call) (st : App.State) : App.State :=
  match c with
  | ChatWindow.onStreamComplete answer => App.handleStreamComplete answer st
  | ChatWindow.onStreamError message => App.handleStreamError message st
  | _ => st
  end.

Definition after_calls (calls : list ChatWindow.call) (st : App.State)
  : App.State :=
  fold_left (fun st c => onChatWindow c st) calls st.


(** What is done to the state of [App]: a search, the completion of a
    stream, the failure of a stream. *)
Inductive action :=
| search (query : jsstring)
| complete (answer : jsstring)
| fail (message : jsstring).

Definition reduce (st : App.State) (a : action) : App.State :=
  match a with
  | search query => App.handleSearch query st
  | complete answer => App.handleStreamComplete answer st
  | fail message => App.handleStreamError message st
  end.

(** What the calls of a stream do to the state of [App]. *)
Definition reports (calls : list ChatWindow.call) : list action :=
  flat_map (fun c => match c with
                     | ChatWindow.onStreamComplete answer => [complete answer]
                     | ChatWindow.onStreamError message => [fail message]
                     | _ => []
                     end) calls.


End Page.

(* ================================================================== *)
(** * More of the platform: the product of Numbers and [Math.round] *)
(* ================================================================== *)

Module Numbers.
Import JS.

(** [x * y] (Number::multiply): the product, rounded. *)
Definition Number_multiply (x y : Number) : Number :=
  match x with
  | NaN => NaN
  | Infinity a =>
      match y with
      | NaN | Zero _ => NaN
      | Infinity b | Finite b _ _ => Infinity (xorb a b)
      end
  | Zero a =>
      match y with
      | NaN | Infinity _ => NaN
      | Zero b | Finite b _ _ => Zero (xorb a b)
      end
  | Finite a m e =>
      match y with
      | NaN => NaN
      | Infinity b => Infinity (xorb a b)
      | Zero b => Zero (xorb a b)
      | Finite b m' e' =>
          if 0 <=? e + e'
          then round_binary64 (xorb a b) (m * m' * 2 ^ (e + e')) 1
          else round_binary64 (xorb a b) (m * m') (2 ^ (- (e + e')))
      end
  end.

(** The Number of an integer of magnitude [n], [0 <= n]. *)
Definition integer (neg : bool) (n : Z) : Number :=
  if n =? 0 then Zero neg else round_binary64 neg n 1.

(** [Math.round(x)]: the integer nearest to [x], the greater one of two
    that are as near. *)
Definition Math_round (x : Number) : Number :=
  match x with
  | Finite neg m e =>
      if 0 <=? e then x
      else if neg
      then integer true (- ((2 ^ (- e) - 2 * m) / 2 ^ (1 - e)))
      else integer false ((2 * m + 2 ^ (- e)) / 2 ^ (1 - e))
  | _ => x
  end.

End Numbers.

(* ================================================================== *)
(** * SourcesTab.tsx: the cards of the sources *)
(* ================================================================== *)

Module SourcesTab.
Import JS Numbers.

(** The literal [100] *)
Definition hundred : Number := of_decimal false 100 0.

(** [interface Source] of [types/index.ts]; an optional field that is
    absent is [None]. *)
Record Source := {
  law_name : jsstring;
  article_number : jsstring;
  title : jsstring;
  text : jsstring;
  similarity : Number;
  relevance : option Number;
  summary : option jsstring;
  domain : option jsstring;
  link : option jsstring
}.

(** [a || b] for an optional string [a] *)
Definition or_else (a : option jsstring) (b : jsstring) : jsstring :=
  match a with
  | Some s => if is_empty s then b else s
  | None => b
  end.

(** [source.relevance || source.similarity] *)
Definition score (source : Source) : Number :=
  match relevance source with
  | Some r => if truthy (VNumber r) then r else similarity source
  | None => similarity source
  end.

(** [{Math.round((source.relevance || source.similarity) * 100)}%] *)
Definition badge (source : Source) : jsstring :=
  Number_toString (Math_round (Number_multiply (score source) hundred))
  ++ lit "%".

(** What is shown of a source; [href] is there when [source.link] is
    truthy. *)
Record Card := {
  heading : jsstring;
  percentage : jsstring;
  excerpt : jsstring;
  origin : jsstring;
  href : option jsstring
}.

Definition card (source : Source) : Card :=
  {| heading := title source;
     percentage := badge source;
     excerpt := or_else (summary source) (text source);
     origin := or_else (domain source) (law_name source);
     href := match link source with
             | Some l => if is_empty l then None else Some l
             | None => None
             end |}.

(** The cards, or nothing when the message that there are no sources is
    shown instead. *)
Definition render (sources : list Source) : option (list Card) :=
  if (length sources =? 0)%nat then None else Some (map card sources).

(** A Number from zero to one. *)
Definition fraction (x : Number) : Prop :=
  match x with
  | Zero _ => True
  | Finite false m e => 0 < m /\ e < 0 /\ m <= 2 ^ (- e)
  | _ => False
  end.

End SourcesTab.

(* ================================================================== *)
(** * TypingEffect.tsx: text shown one code unit at a time *)
(* ================================================================== *)

Module TypingEffect.
Import JS.

(** The state of the component. [currentIndex] starts at zero and is
    only ever incremented, reset to zero or set to a length. *)
Record State := { displayedText : jsstring; currentIndex : nat }.

Definition initial : State := {| displayedText := []; currentIndex := 0 |}.

(** [text[currentIndex]] as it is appended to a string: past the end it
    is [undefined]. *)
Definition at_index (text : jsstring) (i : nat) : jsstring :=
  match nth_error text i with
  | Some c => [c]
  | None => lit "undefined"
  end.

(** The condition of the first effect, on [currentIndex, text, speed]:
    a timeout is pending while it holds. It is also the condition of
    the cursor. *)
Definition typing (text : jsstring) (st : State) : bool :=
  (currentIndex st <? length text)%nat.

(** The callback of [setTimeout]: its two updates. *)
Definition timeout (text : jsstring) (st : State) : State :=
  {| displayedText := displayedText st ++ at_index text (currentIndex st);
     currentIndex := S (currentIndex st) |}.

(** The second effect, on [text, displayedText, currentIndex]. *)
Definition resync (text : jsstring) (st : State) : State :=
  if (length text =? 0)%nat then initial
  else if negb (startsWith text (displayedText st)) then initial
  else if (length text <? currentIndex st)%nat
  then {| displayedText := text; currentIndex := length text |}
  else st.

(** What happens to the component: the pending timeout fires, or it is
    rendered with a new [text]. The effects that follow are part of the
    step; the timeout that is pending afterwards is the one of the last
    render. *)
Inductive event :=
| timer
| props (text : jsstring).

Record Component := { text : jsstring; state : State }.

Definition mount (text : jsstring) : Component :=
  {| text := text; state := resync text initial |}.

Definition step (c : Component) (ev : event) : Component :=
  match ev with
  | timer =>
      if typing (text c) (state c)
      then {| text := text c;
              state := resync (text c) (timeout (text c) (state c)) |}
      else c
  | props text' => {| text := text'; state := resync text' (state c) |}
  end.

Definition run (c : Component) (events : list event) : Component :=
  fold_left step events c.

(** What is displayed is the text up to [currentIndex]. *)
Definition typed (c : Component) : Prop :=
  displayedText (state c) = firstn (currentIndex (state c)) (text c) /\
  (currentIndex (state c) <= length (text c))%nat.

End TypingEffect.

(* ================================================================== *)
(** * The vocabulary of the properties of a stream *)
(* ================================================================== *)

Module Wire.
Import JS.

(** A record of the stream: its kind and its payload. *)
Definition record (kind : jsstring) (p : value) : value :=
  VObject [(lit "event", VString kind); (lit "payload", p)].

(** The line of a record whose payload is a string. *)
Definition record_line (kind text : jsstring) : jsstring :=
  json_text "{'event':'" ++ quote_units kind ++ json_text "','payload':'"
  ++ quote_units text ++ json_text "'}".

(** Records with string payloads as the text of a stream: the JSON text
    of each, then a line feed. *)
Definition wire (chunks : list (jsstring * jsstring)) : jsstring :=
  concat (map (fun kp =>
                 match JSON_stringify (record (fst kp) (VString (snd kp))) with
                 | Some line => line ++ [10]
                 | None => []
                 end) chunks).

Definition sent (kp : jsstring * jsstring) : Prop :=
  ApiService.code_units (fst kp) /\ ApiService.code_units (snd kp).

End Wire.

Module Trace.
Import JS ChatWindow.

(** The end of [fetchStream] on a stream that is not cancelled. *)
Definition ended (s : Stream) : Stream :=
  with_fetchStream returned
    (with_calls (calls s ++ [onStreamComplete (latestAnswer s)])
       (with_isStreaming false s)).

(** The label of an error message, if it is not empty. *)
Definition error_label (message : jsstring) : list jsstring :=
  if is_empty message then [] else [cross_mark ++ message].

(** The answer and the labels of [s'] are those of [s] and more. *)
Definition extends (s s' : Stream) : Prop :=
  exists text labels,
    latestAnswer s' = latestAnswer s ++ text /\
    answer s' = answer s ++ text /\
    statusMessages s' = statusMessages s ++ labels.

(** The number of calls of [reader.read()]. *)
Definition reads (cs : list call) : nat := length (filter is_read cs).

(** The events after which [fetchStream] may ask for a range: the
    response and a range. *)
Definition asks (ev : event) : nat :=
  match ev with
  | fetch_resolved _ | read_resolved (chunk _) => 1%nat
  | _ => 0%nat
  end.

End Trace.

Unset Implicit Arguments.

(* ================================================================== *)
(** * Facts about the platform *)
(* ================================================================== *)

Module JSFacts.
Import JS.

Lemma str_eqb_eq a b : str_eqb a b = true <-> a = b.
Proof.
  revert b; induction a as [|x a IH]; intros [|y b]; simpl; split;
    try congruence; try discriminate.
  - rewrite andb_true_iff, Z.eqb_eq, IH. intros [-> ->]; reflexivity.
  - intros H; injection H as -> ->. rewrite Z.eqb_refl.
    apply IH; reflexivity.
Qed.

Lemma str_eqb_refl a : str_eqb a a = true.
Proof. apply str_eqb_eq; reflexivity. Qed.

Lemma is_empty_nil (s : jsstring) : is_empty s = true <-> s = [].
Proof. destruct s; simpl; split; congruence. Qed.

(** *** [trim] *)

Lemma dropWhile_nil {A} (p : A -> bool) l :
  dropWhile p l = [] <-> forallb p l = true.
Proof.
  induction l as [|x l IH]; simpl; [tauto|].
  destruct (p x); simpl; [exact IH|]. split; discriminate.
Qed.

Lemma dropWhile_head {A} (p : A -> bool) l x l' :
  dropWhile p l = x :: l' -> p x = false.
Proof.
  induction l as [|y l IH]; simpl; [discriminate|].
  destruct (p y) eqn:E; [exact IH|]. intros H; injection H as -> _; exact E.
Qed.

Lemma dropWhile_forallb {A} (p : A -> bool) l :
  forallb p l = true -> forallb p (dropWhile p l) = true.
Proof. intros H. apply dropWhile_nil in H. rewrite H. reflexivity. Qed.

Lemma forallb_rev {A} (p : A -> bool) l :
  forallb p (rev l) = forallb p l.
Proof.
  induction l as [|x l IH]; simpl; [reflexivity|].
  rewrite forallb_app, IH. simpl. rewrite andb_true_r. apply andb_comm.
Qed.

(** A string trims to nothing exactly when it is all white space. *)
Lemma trim_blank s : is_empty (trim s) = forallb is_whitespace s.
Proof.
  unfold trim, trimEnd, trimStart.
  destruct (forallb is_whitespace s) eqn:E.
  - apply dropWhile_nil in E. rewrite E. reflexivity.
  - destruct (dropWhile is_whitespace s) as [|x t] eqn:D.
    + apply dropWhile_nil in D. congruence.
    + pose proof (dropWhile_head _ _ _ _ D) as Hx.
      destruct (rev (dropWhile is_whitespace (rev (x :: t)))) eqn:R;
        [|reflexivity].
      apply (f_equal (@rev Z)) in R. rewrite rev_involutive in R.
      simpl in R. apply dropWhile_nil in R.
      rewrite forallb_app in R. simpl in R. rewrite Hx in R.
      rewrite andb_false_r in R. discriminate.
Qed.

Lemma trim_nil : trim [] = [].
Proof. reflexivity. Qed.

(** *** [split] and [pop] *)

Lemma pop_last {A} (l : list A) d :
  l <> [] -> pop l = (Some (last l d), removelast l).
Proof.
  induction l as [|x l IH]; [congruence|]. intros _.
  destruct l as [|y l]; [reflexivity|].
  change (pop (x :: y :: l))
    with (let (la, rest) := pop (y :: l) in (la, x :: rest)).
  rewrite IH by discriminate. reflexivity.
Qed.

Lemma last_app_r {A} (l l' : list A) d :
  l' <> [] -> last (l ++ l') d = last l' d.
Proof.
  intros H. induction l as [|x l IH]; [reflexivity|].
  cbn [app]. destruct (l ++ l') eqn:E; [|exact IH].
  apply app_eq_nil in E. tauto.
Qed.

Section Split.

Variable sep : Z.

Lemma split_not_nil s : split sep s <> [].
Proof.
  destruct s as [|c s]; simpl; [discriminate|].
  destruct (c =? sep); [discriminate|].
  destruct (split sep s); discriminate.
Qed.

Lemma split_cons_sep s : split sep (sep :: s) = [] :: split sep s.
Proof. simpl. rewrite Z.eqb_refl. reflexivity. Qed.

Lemma split_cons_other c s :
  c <> sep ->
  split sep (c :: s) =
  (c :: hd [] (split sep s)) :: tl (split sep s).
Proof.
  intros H. simpl. apply Z.eqb_neq in H. rewrite H.
  pose proof (split_not_nil s). destruct (split sep s); [congruence|].
  reflexivity.
Qed.

(** Splitting a text in two parts: the last piece of the first part is
    what the second part continues. *)
Lemma split_app a b :
  split sep (a ++ b) =
  removelast (split sep a) ++ split sep (last (split sep a) [] ++ b).
Proof.
  induction a as [|c a IH]; [reflexivity|].
  destruct (Z.eq_dec c sep) as [->|Hc].
  - rewrite <- app_comm_cons, !split_cons_sep, IH.
    pose proof (split_not_nil a).
    destruct (split sep a) as [|p ps] eqn:E; [congruence|].
    reflexivity.
  - rewrite <- app_comm_cons, !split_cons_other, IH by assumption.
    pose proof (split_not_nil a).
    destruct (split sep a) as [|p ps] eqn:E; [congruence|].
    destruct ps as [|p' ps].
    + cbn [removelast last app hd tl].
      change ((c :: p) ++ b) with (c :: (p ++ b)).
      rewrite split_cons_other by assumption. reflexivity.
    + reflexivity.
Qed.

Lemma split_no_sep s : ~ In sep s -> split sep s = [s].
Proof.
  induction s as [|c s IH]; [reflexivity|]. intros H.
  rewrite split_cons_other by (intros ->; apply H; left; reflexivity).
  rewrite IH by (intros HI; apply H; right; exact HI). reflexivity.
Qed.

Lemma last_split_no_sep s : ~ In sep (last (split sep s) []).
Proof.
  induction s as [|c s IH]; [simpl; tauto|].
  pose proof (split_not_nil s).
  destruct (Z.eq_dec c sep) as [->|Hc].
  - rewrite split_cons_sep.
    destruct (split sep s) as [|p ps] eqn:E; [congruence|]. exact IH.
  - rewrite split_cons_other by assumption.
    destruct (split sep s) as [|p ps] eqn:E; [congruence|].
    destruct ps as [|p' ps]; [|exact IH].
    simpl in *. intros [Hx|Hx]; [congruence|tauto].
Qed.

End Split.

(** *** [TextDecoder] *)

Lemma serialize_all_app d a b :
  serialize_all d (a ++ b) =
  let (d1, s1) := serialize_all d a in
  let (d2, s2) := serialize_all d1 b in
  (d2, s1 ++ s2).
Proof.
  revert d; induction a as [|cp a IH]; intros d; simpl.
  - destruct (serialize_all d b); reflexivity.
  - destruct (serialize d cp) as [d1 s1]. rewrite IH.
    destruct (serialize_all d1 a) as [d2 s2].
    destruct (serialize_all d2 b) as [d3 s3].
    rewrite app_assoc. reflexivity.
Qed.

(** Decoding is compositional: the decoder carries what is pending
    from one range to the next. *)
Lemma decode_app d a b :
  decode d (a ++ b) =
  let (d1, s1) := decode d a in
  let (d2, s2) := decode d1 b in
  (d2, s1 ++ s2).
Proof.
  revert d; induction a as [|x a IH]; intros d; simpl.
  - destruct (decode d b); reflexivity.
  - destruct (utf8_byte d x) as [d1 cps].
    destruct (serialize_all d1 cps) as [d2 s1]. rewrite IH.
    destruct (decode d2 a) as [d3 s2].
    destruct (decode d3 b) as [d4 s3].
    rewrite app_assoc. reflexivity.
Qed.

End JSFacts.

(* ================================================================== *)
(** * Facts about the stream consumer *)
(* ================================================================== *)

Module ChatWindowFacts.
Import JS JSFacts ChatWindow.
Local Open Scope js_scope.

Ltac fields s :=
  destruct s; unfold apply_lines, with_statusMessages, with_answer,
    with_latestAnswer, with_calls, with_buffer, with_decoder,
    with_isStreaming, with_fetchStream, with_reader, with_isCancelled;
  cbn [isCancelled decoder reader buffer latestAnswer answer statusMessages
       isStreaming calls fetchStream map concat];
  rewrite ?app_nil_r; try reflexivity.

(** *** [pushStatus] *)

Lemma pushStatus_run p isError s :
  pushStatus p isError s =
  (Normal tt,
   with_statusMessages
     (statusMessages s ++
      if is_empty (label_text p) then []
      else [if isError then cross_mark ++ label_text p else label_text p])
     s).
Proof.
  unfold pushStatus, label_text.
  assert (Hid : forall u : Stream,
             (Normal tt, u)
             = (Normal tt, with_statusMessages (statusMessages u ++ []) u)).
  { intros u. fields u. }
  destruct p; try (cbn [is_empty]; unfold ret; apply Hid);
    try (destruct (JSON_stringify _) as [t|];
         [destruct (is_empty t); [apply Hid|reflexivity] | apply Hid]).
  destruct (is_empty s0); [apply Hid|reflexivity].
Qed.

(** *** The kind of a record *)

Lemma is_string_eq v s : is_string v s = true <-> v = VString s.
Proof.
  destruct v; simpl; split; try discriminate.
  - intros H; apply str_eqb_eq in H; congruence.
  - intros H; injection H as ->. apply str_eqb_refl.
Qed.

Lemma eventType_payload data t :
  eventType data = inr t -> get data (lit "payload") = inr (payload data).
Proof.
  unfold eventType, payload.
  destruct data; cbn [get]; try discriminate; reflexivity.
Qed.

Lemma kind_is_eq kind data :
  kind_is kind data = true <-> eventType data = inr (VString kind).
Proof.
  unfold kind_is. destruct (eventType data) as [e|t]; [split; discriminate|].
  rewrite is_string_eq. split; congruence.
Qed.

(** A record of the shape [{ event: kind, ... }], the kind a string that
    is not empty, has that kind, whatever its [type]. *)
Lemma eventType_event props kind :
  lookup (lit "event") props = Some (VString kind) ->
  is_empty kind = false ->
  eventType (VObject props) = inr (VString kind).
Proof.
  intros H E. unfold eventType. cbn [get]. rewrite H.
  cbn [truthy]. rewrite E. reflexivity.
Qed.

(** *** [handleLine] *)

Lemma clean_line line :
  (if startsWith line (lit "data:") then replace_data_prefix line else line)
  = replace_data_prefix line.
Proof.
  unfold replace_data_prefix. destruct (startsWith line (lit "data:"));
    reflexivity.
Qed.

(** What the [try] block does with a record. *)
Lemma handleLine_try_run clean data t s :
  JSON_parse clean = inr data ->
  eventType data = inr t ->
  handleLine_try clean s =
  (Normal tt,
   {| isCancelled := isCancelled s; decoder := decoder s; reader := reader s;
      buffer := buffer s;
      latestAnswer :=
        latestAnswer s ++
        (if kind_is (lit "text") data then text_payload data else []);
      answer :=
        answer s ++
        (if kind_is (lit "text") data then text_payload data else []);
      statusMessages := statusMessages s ++ labels_of data;
      isStreaming := isStreaming s;
      calls := calls s;
      fetchStream := fetchStream s |}).
Proof.
  intros HP HE. pose proof (eventType_payload _ _ HE) as HG.
  unfold handleLine_try, bind, lift, labels_of, kind_is, text_payload.
  rewrite HP. cbn [ret]. rewrite HE. cbn [ret].
  destruct (is_string t (lit "text")) eqn:Etext.
  - apply is_string_eq in Etext; subst t.
    rewrite HG. cbn [ret is_string str_eqb].
    unfold write, setAnswer, write. cbn -[lit].
    replace (is_string (VString (lit "text")) (lit "status")) with false
      by reflexivity.
    replace (is_string (VString (lit "text")) (lit "error")) with false
      by reflexivity.
    fields s.
  - destruct (is_string t (lit "status")) eqn:Estatus.
    + rewrite HG. cbn [ret]. rewrite pushStatus_run. fields s.
    + destruct (is_string t (lit "error")) eqn:Eerror.
      * rewrite HG. cbn [ret]. rewrite pushStatus_run. fields s.
      * unfold ret. fields s.
Qed.

(** [handleLine] never throws, and what it does to the stream is fixed
    by the line alone. *)
Lemma handleLine_run l s :
  handleLine l s = (Normal tt, apply_lines [l] s).
Proof.
  unfold handleLine, apply_lines. cbn [map concat].
  unfold line_text, line_labels, line_log, decodeLine. cbv zeta.
  destruct (is_empty (trim l)) eqn:Eblank.
  - unfold ret. fields s.
  - rewrite clean_line. unfold try_catch.
    destruct (JSON_parse (replace_data_prefix (trim l))) as [e|data] eqn:HP.
    + unfold handleLine_try, bind, lift. rewrite HP.
      unfold throw, do_call, write. fields s.
    + destruct (eventType data) as [e|t] eqn:HE.
      * unfold handleLine_try, bind, lift. rewrite HP. cbn [ret].
        rewrite HE. unfold throw, do_call, write.
        unfold kind_is, labels_of, kind_is. rewrite HE. fields s.
      * rewrite (handleLine_try_run _ _ _ s HP HE). fields s.
Qed.

Lemma apply_lines_nil s : apply_lines [] s = s.
Proof. fields s. Qed.

Lemma apply_lines_app a b s :
  apply_lines (a ++ b) s = apply_lines b (apply_lines a s).
Proof.
  unfold apply_lines. cbn [isCancelled decoder reader buffer latestAnswer
    answer statusMessages isStreaming calls fetchStream].
  rewrite !map_app, !concat_app, !app_assoc. reflexivity.
Qed.

Lemma apply_lines_cons l ls s :
  apply_lines (l :: ls) s = apply_lines ls (apply_lines [l] s).
Proof. apply (apply_lines_app [l] ls). Qed.

Lemma for_of_handleLine lines s :
  for_of lines handleLine s = (Normal tt, apply_lines lines s).
Proof.
  revert s; induction lines as [|l lines IH]; intros s.
  - rewrite apply_lines_nil. reflexivity.
  - cbn [for_of]. unfold bind. rewrite handleLine_run, IH.
    rewrite <- apply_lines_cons. reflexivity.
Qed.

(** A blank line changes nothing. *)
Lemma apply_blank l s :
  is_empty (trim l) = true -> apply_lines [l] s = s.
Proof.
  intros H. unfold apply_lines. cbn [map concat].
  unfold line_text, line_labels, line_log, decodeLine. cbv zeta.
  rewrite H. fields s.
Qed.

Lemma after_loop_run s :
  after_loop s = (Normal tt, apply_lines [buffer s] s).
Proof.
  unfold after_loop, bind, read.
  destruct (is_empty (trim (buffer s))) eqn:E; cbn [negb].
  - rewrite apply_blank by exact E. reflexivity.
  - apply handleLine_run.
Qed.

Lemma loop_body_run v s : loop_body v s = (Normal tt, feed v s).
Proof.
  unfold loop_body, feed, bind, read.
  destruct (decode (decoder s) v) as [d text].
  unfold write. cbn [buffer with_buffer with_decoder].
  rewrite (pop_last (split 10 (buffer s ++ text)) [])
    by apply split_not_nil.
  rewrite for_of_handleLine. fields s.
Qed.

(** *** Feeding bytes *)

Lemma feed_app a b s : feed (a ++ b) s = feed b (feed a s).
Proof.
  unfold feed. rewrite decode_app.
  destruct (decode (decoder s) a) as [d1 t1].
  cbn [decoder with_buffer with_decoder apply_lines buffer].
  destruct (decode d1 b) as [d2 t2].
  rewrite app_assoc, split_app.
  set (p1 := split 10 (buffer s ++ t1)).
  set (p2 := split 10 (last p1 [] ++ t2)).
  assert (H2 : p2 <> []) by apply split_not_nil.
  rewrite last_app_r by exact H2.
  rewrite removelast_app by exact H2.
  unfold apply_lines, with_buffer, with_decoder.
  cbn [isCancelled decoder reader buffer latestAnswer answer statusMessages
       isStreaming calls fetchStream].
  rewrite !map_app, !concat_app, !app_assoc. reflexivity.
Qed.

Lemma feed_nil s : ~ In 10 (buffer s) -> feed [] s = s.
Proof.
  intros H. unfold feed. cbn [decode]. rewrite app_nil_r.
  rewrite split_no_sep by exact H. cbn [last removelast]. fields s.
Qed.

Lemma feed_buffer v s : ~ In 10 (buffer (feed v s)).
Proof.
  unfold feed. destruct (decode (decoder s) v) as [d t].
  cbn [buffer with_buffer]. apply last_split_no_sep.
Qed.

Lemma feed_progress v s :
  fetchStream (feed v s) = fetchStream s /\
  isCancelled (feed v s) = isCancelled s.
Proof.
  unfold feed. destruct (decode (decoder s) v) as [d t].
  split; reflexivity.
Qed.

(** *** The steps of a stream that is not cancelled *)

Lemma step_fetch_ok s r :
  fetchStream s = await_fetch -> isCancelled s = false ->
  ok r = true -> has_body r = true ->
  step s (fetch_resolved r) =
  with_fetchStream await_read
    (with_calls (calls s ++ [reader_read]) (with_reader true s)).
Proof.
  intros HF HC Hok Hbody. unfold step. rewrite HF.
  unfold resume, after_fetch. rewrite Hok, Hbody. cbn [negb].
  unfold bind, write, loop_head, bind, read.
  cbn [isCancelled with_reader]. rewrite HC.
  unfold do_call, write, ret. fields s.
Qed.

Lemma step_chunk s v :
  fetchStream s = await_read -> isCancelled s = false ->
  step s (read_resolved (chunk v)) =
  with_calls (calls (feed v s) ++ [reader_read]) (feed v s).
Proof.
  intros HF HC. unfold step. rewrite HF.
  unfold resume, after_read, bind. rewrite loop_body_run.
  destruct (feed_progress v s) as [HF' HC']. rewrite HF in HF'.
  rewrite HC in HC'.
  unfold loop_head, bind, read. rewrite HC'.
  unfold do_call, write, ret.
  destruct (feed v s). cbn in HF'. subst. reflexivity.
Qed.

Lemma step_done s :
  fetchStream s = await_read -> isCancelled s = false ->
  step s (read_resolved done) =
  let s1 := apply_lines [buffer s] s in
  with_fetchStream returned
    (with_calls (calls s1 ++ [onStreamComplete (latestAnswer s1)])
       (with_isStreaming false s1)).
Proof.
  intros HF HC. unfold step. rewrite HF.
  unfold resume, after_read, bind. rewrite after_loop_run.
  unfold ret, finish, fetchStream_finally, bind, read.
  cbn [isCancelled apply_lines]. rewrite HC. cbn [negb].
  unfold setIsStreaming, write, do_call, write. reflexivity.
Qed.

Lemma effect_start c s0 :
  effect c = Some s0 ->
  exists q,
    activeQuestion c = Some q /\ is_empty q = false /\
    s0 = {| isCancelled := false; decoder := new_TextDecoder;
            reader := false; buffer := []; latestAnswer := [];
            answer := []; statusMessages := []; isStreaming := true;
            calls := [onStreamStart;
                      fetch (ask_request (VITE_API_URL c) q)];
            fetchStream := await_fetch |}.
Proof.
  unfold effect. destruct (activeQuestion c) as [q|]; [|discriminate].
  destruct (is_empty q) eqn:E; [discriminate|].
  intros H; injection H as <-. exists q.
  split; [reflexivity|]. split; [exact E|reflexivity].
Qed.

(** *** Leaving out the calls of [reader.read()] *)

Lemma unread_read s :
  unread (with_calls (calls s ++ [reader_read]) s) = unread s.
Proof.
  unfold unread. cbn [calls with_calls]. rewrite filter_app.
  cbn [filter is_read negb]. fields s.
Qed.

Lemma unread_feed v s s' :
  unread s = unread s' -> unread (feed v s) = unread (feed v s').
Proof.
  intros H. destruct s, s'. unfold unread, with_calls in H.
  cbn [isCancelled decoder reader buffer latestAnswer answer statusMessages
       isStreaming calls fetchStream] in H.
  injection H as -> -> -> -> -> -> -> -> Hcalls ->.
  unfold feed.
  cbn [isCancelled decoder reader buffer latestAnswer answer statusMessages
       isStreaming calls fetchStream].
  destruct (decode _ v) as [d t].
  unfold unread, with_buffer, with_decoder, apply_lines, with_calls.
  cbn [isCancelled decoder reader buffer latestAnswer answer statusMessages
       isStreaming calls fetchStream].
  rewrite !filter_app, Hcalls. reflexivity.
Qed.

Lemma unread_fields s s' :
  unread s = unread s' ->
  isCancelled s = isCancelled s' /\ buffer s = buffer s' /\
  latestAnswer s = latestAnswer s' /\ answer s = answer s' /\
  statusMessages s = statusMessages s' /\ fetchStream s = fetchStream s'.
Proof.
  intros H. destruct s, s'. unfold unread, with_calls in H.
  cbn [isCancelled decoder reader buffer latestAnswer answer statusMessages
       isStreaming calls fetchStream] in H.
  injection H as -> -> -> -> -> -> -> -> Hcalls ->.
  repeat split.
Qed.

(** The byte ranges read so far act as their concatenation. *)
Lemma run_chunks ranges : forall s,
  fetchStream s = await_read -> isCancelled s = false ->
  ~ In 10 (buffer s) ->
  unread (run s (map (fun v => read_resolved (chunk v)) ranges))
  = unread (feed (concat ranges) s).
Proof.
  induction ranges as [|v ranges IH]; intros s HF HC HB.
  - cbn [map run fold_left concat]. rewrite feed_nil by exact HB.
    reflexivity.
  - cbn [map run fold_left concat]. fold (run (step s (read_resolved (chunk v)))
      (map (fun v => read_resolved (chunk v)) ranges)).
    rewrite step_chunk by assumption.
    destruct (feed_progress v s) as [HF' HC'].
    rewrite IH.
    + rewrite feed_app. apply unread_feed, unread_read.
    + cbn [fetchStream with_calls]. congruence.
    + cbn [isCancelled with_calls]. congruence.
    + cbn [buffer with_calls]. apply feed_buffer.
Qed.

Lemma unread_step_done s s' :
  unread s = unread s' ->
  fetchStream s = await_read -> isCancelled s = false ->
  unread (step s (read_resolved done))
  = unread (step s' (read_resolved done)).
Proof.
  intros H HF HC.
  destruct (unread_fields _ _ H) as (HC' & _ & _ & _ & _ & HF').
  rewrite !step_done by congruence.
  destruct s, s'. unfold unread, with_calls in H.
  cbn [isCancelled decoder reader buffer latestAnswer answer statusMessages
       isStreaming calls fetchStream] in H.
  injection H as -> -> -> -> -> -> -> -> Hcalls ->.
  unfold unread, apply_lines, with_fetchStream, with_calls, with_isStreaming.
  cbn [isCancelled decoder reader buffer latestAnswer answer statusMessages
       isStreaming calls fetchStream].
  rewrite !filter_app, Hcalls. reflexivity.
Qed.

Lemma run_app s es es' : run s (es ++ es') = run (run s es) es'.
Proof. apply fold_left_app. Qed.

(** A stream that runs to its end, however its bytes were cut: the
    bytes fed at once, then the end of the stream. *)
Lemma run_delivery c s0 r ranges :
  effect c = Some s0 -> ok r = true -> has_body r = true ->
  unread (run s0 (delivery r ranges))
  = unread (step (feed (concat ranges) (step s0 (fetch_resolved r)))
              (read_resolved done)).
Proof.
  intros HE Hok Hbody.
  destruct (effect_start _ _ HE) as (q & _ & _ & ->).
  unfold delivery. cbn [run fold_left].
  fold (run (step
    {| isCancelled := false; decoder := new_TextDecoder; reader := false;
       buffer := []; latestAnswer := []; answer := []; statusMessages := [];
       isStreaming := true;
       calls := [onStreamStart; fetch (ask_request (VITE_API_URL c) q)];
       fetchStream := await_fetch |} (fetch_resolved r))
    (map (fun v => read_resolved (chunk v)) ranges ++ [read_resolved done])).
  rewrite step_fetch_ok by (assumption || reflexivity).
  rewrite run_app. cbn [run fold_left].
  set (s1 := with_fetchStream await_read _).
  assert (H1 : unread (run s1 (map (fun v => read_resolved (chunk v)) ranges))
               = unread (feed (concat ranges) s1)).
  { apply run_chunks; cbn; tauto. }
  fold (run s1 (map (fun v => read_resolved (chunk v)) ranges)).
  destruct (unread_fields _ _ H1) as (HC & _ & _ & _ & _ & HF).
  destruct (feed_progress (concat ranges) s1) as [HF' HC'].
  assert (HF1 : fetchStream s1 = await_read) by reflexivity.
  assert (HC1 : isCancelled s1 = false) by reflexivity.
  apply unread_step_done; [exact H1| |]; congruence.
Qed.

Lemma concat_line_text lines :
  concat (map line_text lines) = answer_of (records lines).
Proof.
  unfold answer_of, records.
  induction lines as [|l lines IH]; [reflexivity|].
  cbn [map concat flat_map]. rewrite IH. unfold line_text.
  destruct (decodeLine l) as [d|]; [|reflexivity].
  cbn [app filter]. destruct (kind_is (lit "text") d); reflexivity.
Qed.

Lemma concat_line_labels lines :
  concat (map line_labels lines) = concat (map labels_of (records lines)).
Proof.
  unfold records.
  induction lines as [|l lines IH]; [reflexivity|].
  cbn [map concat flat_map]. rewrite IH. unfold line_labels.
  destruct (decodeLine l) as [d|]; [|reflexivity].
  cbn [app map concat]. reflexivity.
Qed.

(** *** What a stream that ran to its end leaves *)

Lemma completions_app a b :
  completions (a ++ b) = completions a ++ completions b.
Proof. apply flat_map_app. Qed.

Lemma completions_unread l :
  completions (filter (fun c => negb (is_read c)) l) = completions l.
Proof.
  induction l as [|x l IH]; [reflexivity|].
  destruct x; cbn [filter is_read negb]; try exact IH;
    change (completions (?c :: ?k)) with (completions [c] ++ completions k);
    rewrite IH; reflexivity.
Qed.

Lemma completions_log l : completions (line_log l) = [].
Proof.
  unfold line_log. cbv zeta.
  destruct (is_empty (trim l)); [reflexivity|].
  destruct (JSON_parse _) as [e|data]; [reflexivity|].
  destruct (eventType data); reflexivity.
Qed.

Lemma completions_logs lines :
  completions (concat (map line_log lines)) = [].
Proof.
  induction lines as [|l lines IH]; [reflexivity|].
  cbn [map concat]. rewrite completions_app, IH, app_nil_r.
  apply completions_log.
Qed.

Lemma feed_fields v s :
  let pieces := split 10 (buffer s ++ snd (decode (decoder s) v)) in
  latestAnswer (feed v s)
  = latestAnswer s ++ concat (map line_text (removelast pieces)) /\
  answer (feed v s)
  = answer s ++ concat (map line_text (removelast pieces)) /\
  statusMessages (feed v s)
  = statusMessages s ++ concat (map line_labels (removelast pieces)) /\
  buffer (feed v s) = last pieces [] /\
  completions (calls (feed v s)) = completions (calls s).
Proof.
  unfold feed. destruct (decode (decoder s) v) as [d t]. cbn [snd].
  repeat split.
  cbn [calls with_buffer with_decoder apply_lines].
  rewrite completions_app, completions_logs, app_nil_r. reflexivity.
Qed.

Lemma done_fields s :
  fetchStream s = await_read -> isCancelled s = false ->
  let s' := step s (read_resolved done) in
  latestAnswer s' = latestAnswer s ++ line_text (buffer s) /\
  answer s' = answer s ++ line_text (buffer s) /\
  statusMessages s' = statusMessages s ++ line_labels (buffer s) /\
  completions (calls s')
  = completions (calls s) ++ [latestAnswer s ++ line_text (buffer s)] /\
  fetchStream s' = returned.
Proof.
  intros HF HC s'. unfold s'. rewrite step_done by assumption.
  cbn [latestAnswer answer statusMessages calls fetchStream with_fetchStream
       with_calls with_isStreaming apply_lines map concat].
  rewrite !app_nil_r. repeat split.
  rewrite !completions_app.
  rewrite completions_log, app_nil_r. reflexivity.
Qed.

Lemma concat_pieces {A} (f : jsstring -> list A) pieces :
  pieces <> [] ->
  concat (map f (removelast pieces)) ++ f (last pieces [])
  = concat (map f pieces).
Proof.
  intros H. rewrite (app_removelast_last [] H) at 3.
  rewrite map_app, concat_app. cbn [map concat]. rewrite app_nil_r.
  reflexivity.
Qed.

Lemma delivery_result c s0 r ranges :
  effect c = Some s0 -> ok r = true -> has_body r = true ->
  let s := run s0 (delivery r ranges) in
  let lines := stream_lines (concat ranges) in
  latestAnswer s = concat (map line_text lines) /\
  answer s = concat (map line_text lines) /\
  statusMessages s = concat (map line_labels lines) /\
  completions (calls s) = [concat (map line_text lines)] /\
  fetchStream s = returned.
Proof.
  intros HE Hok Hbody s lines.
  pose proof (run_delivery c s0 r ranges HE Hok Hbody) as H.
  fold s in H. clearbody s.
  destruct (effect_start _ _ HE) as (q & _ & _ & ->).
  rewrite step_fetch_ok in H by (assumption || reflexivity).
  set (s1 := with_fetchStream await_read _) in H.
  assert (F1 : fetchStream s1 = await_read) by reflexivity.
  assert (C1 : isCancelled s1 = false) by reflexivity.
  assert (D1 : decoder s1 = new_TextDecoder) by reflexivity.
  assert (B1 : buffer s1 = []) by reflexivity.
  assert (L1 : latestAnswer s1 = []) by reflexivity.
  assert (A1 : answer s1 = []) by reflexivity.
  assert (S1 : statusMessages s1 = []) by reflexivity.
  assert (K1 : completions (calls s1) = []) by reflexivity.
  clearbody s1.
  destruct (feed_progress (concat ranges) s1) as [HF HC].
  rewrite F1 in HF. rewrite C1 in HC.
  destruct (done_fields _ HF HC) as (dL & dA & dS & dK & dF).
  destruct (feed_fields (concat ranges) s1) as (fL & fA & fS & fB & fK).
  rewrite D1, B1 in fL, fA, fS, fB. cbn [app] in fL, fA, fS, fB.
  assert (HN : lines <> []) by apply split_not_nil.
  fold (stream_lines (concat ranges)) in fL, fA, fS, fB.
  fold lines in fL, fA, fS, fB. clearbody lines.
  rewrite L1 in fL. rewrite A1 in fA. rewrite S1 in fS. rewrite K1 in fK.
  cbn [app] in *.
  rewrite fL, fA, fS, fB, fK in *. cbn [app] in dK.
  assert (ET : concat (map line_text (removelast lines))
               ++ line_text (last lines [])
               = concat (map line_text lines))
    by exact (concat_pieces line_text lines HN).
  assert (ES : concat (map line_labels (removelast lines))
               ++ line_labels (last lines [])
               = concat (map line_labels lines))
    by exact (concat_pieces line_labels lines HN).
  rewrite ET in dL, dA, dK. rewrite ?ES in dS.
  destruct (unread_fields _ _ H) as (_ & _ & uL & uA & uS & uF).
  rewrite uL, uA, uS, uF.
  assert (uK : completions (calls s)
               = completions (calls (step (feed (concat ranges) s1)
                                           (read_resolved done)))).
  { rewrite <- (completions_unread (calls s)).
    rewrite <- (completions_unread (calls (step _ _))).
    apply (f_equal (fun x => completions (calls x))) in H. exact H. }
  rewrite uK. repeat split; assumption.
Qed.

(** *** Cancellation and completion *)

Lemma fetchStream_finally_run s :
  fetchStream_finally s =
  (Normal tt,
   if isCancelled s then s
   else with_calls (calls s ++ [onStreamComplete (latestAnswer s)])
          (with_isStreaming false s)).
Proof.
  unfold fetchStream_finally, bind, read.
  destruct (isCancelled s); reflexivity.
Qed.

Lemma fetchStream_catch_run e s :
  exists labels message,
    fetchStream_catch e s =
    (Normal tt,
     if isCancelled s then s
     else with_calls (calls s ++ [onStreamError message])
            (with_statusMessages (statusMessages s ++ labels) s)).
Proof.
  unfold fetchStream_catch, bind, read.
  destruct (isCancelled s); [exists [], []; reflexivity|].
  eexists _, _. rewrite pushStatus_run. reflexivity.
Qed.

Lemma quiet_logs lines :
  Forall (fun c => quiet c = true) (concat (map line_log lines)).
Proof.
  induction lines as [|l lines IH]; [constructor|].
  cbn [map concat]. apply Forall_app. split; [|exact IH].
  unfold line_log. cbv zeta.
  destruct (is_empty (trim l)); [constructor|].
  destruct (JSON_parse _) as [e|data]; [repeat constructor|].
  destruct (eventType data); repeat constructor.
Qed.

Lemma feed_calls v s :
  exists lines,
    calls (feed v s) = calls s ++ concat (map line_log lines).
Proof.
  unfold feed. destruct (decode (decoder s) v) as [d t].
  eexists. reflexivity.
Qed.

Lemma loop_head_ok s extra0 s0 :
  calls s = calls s0 ++ extra0 -> isCancelled s = isCancelled s0 ->
  completions extra0 = [] ->
  (isCancelled s0 = true -> Forall (fun c => quiet c = true) extra0) ->
  exists outcome s' extra,
    loop_head s = (outcome, s') /\
    calls s' = calls s0 ++ extra /\
    isCancelled s' = isCancelled s0 /\
    completions extra = [] /\
    (isCancelled s0 = true -> Forall (fun c => quiet c = true) extra) /\
    (forall p, outcome = Normal (Some p) -> p = await_fetch \/ p = await_read).
Proof.
  intros HK HC HN HQ. unfold loop_head, bind, read.
  destruct (isCancelled s) eqn:E.
  - rewrite after_loop_run. unfold ret.
    eexists _, _, (extra0 ++ concat (map line_log [buffer s])).
    split; [reflexivity|]. cbn [calls apply_lines isCancelled].
    rewrite HK, app_assoc. split; [reflexivity|]. split; [congruence|].
    rewrite completions_app, HN, completions_logs.
    split; [reflexivity|]. split.
    + intros H. apply Forall_app. split; [auto|apply quiet_logs].
    + intros ? ?; discriminate.
  - unfold do_call, write, ret.
    eexists _, _, (extra0 ++ [reader_read]).
    split; [reflexivity|]. cbn [calls with_calls isCancelled].
    rewrite HK, app_assoc. split; [reflexivity|]. split; [congruence|].
    rewrite completions_app, HN. split; [reflexivity|]. split.
    + intros H. congruence.
    + intros p' Hp. injection Hp as <-. right. reflexivity.
Qed.

Lemma after_fetch_ok r s : piece_ok (after_fetch r) s.
Proof.
  unfold piece_ok, after_fetch.
  destruct (ok r); cbn [negb].
  - destruct (has_body r); cbn [negb].
    + unfold bind at 1. unfold write.
      destruct (loop_head_ok (with_reader true s) [] s)
        as (o & s' & extra & H); try reflexivity.
      * cbn [calls with_reader]. rewrite app_nil_r. reflexivity.
      * intros _. constructor.
      * exists o, s', extra. exact H.
    + unfold bind. rewrite pushStatus_run. unfold ret.
      eexists _, _, []. split; [reflexivity|].
      cbn [calls isCancelled with_statusMessages]. rewrite app_nil_r.
      split; [reflexivity|]. split; [reflexivity|]. split; [reflexivity|].
      split; [intros _; constructor|]. intros ? ?; discriminate.
  - unfold bind. rewrite pushStatus_run. unfold ret.
    eexists _, _, []. split; [reflexivity|].
    cbn [calls isCancelled with_statusMessages]. rewrite app_nil_r.
    split; [reflexivity|]. split; [reflexivity|]. split; [reflexivity|].
    split; [intros _; constructor|]. intros ? ?; discriminate.
Qed.

Lemma after_read_ok result s : piece_ok (after_read result) s.
Proof.
  unfold piece_ok, after_read. destruct result as [v|].
  - unfold bind at 1. rewrite loop_body_run.
    destruct (feed_calls v s) as [lines HL].
    destruct (feed_progress v s) as [_ HC].
    destruct (loop_head_ok (feed v s) (concat (map line_log lines)) s)
      as (o & s' & extra & H); try assumption.
    + apply completions_logs.
    + intros _. apply quiet_logs.
    + exists o, s', extra. exact H.
  - unfold bind. rewrite after_loop_run. unfold ret.
    eexists _, _, (concat (map line_log [buffer s])).
    split; [reflexivity|]. cbn [calls apply_lines isCancelled].
    split; [reflexivity|]. split; [reflexivity|].
    split; [apply completions_logs|].
    split; [intros _; apply quiet_logs|]. intros ? ?; discriminate.
Qed.

Lemma throw_ok e s : piece_ok (throw e) s.
Proof.
  unfold piece_ok, throw. eexists _, _, []. split; [reflexivity|].
  rewrite app_nil_r.
  split; [reflexivity|]. split; [reflexivity|]. split; [reflexivity|].
  split; [intros _; constructor|]. intros ? ?; discriminate.
Qed.

(** What resuming [fetchStream] leaves: the calls so far and more; once
    cancelled, no read and no completion among them; otherwise either
    the function awaits again and has not reported completion, or it has
    returned and reported it at most once. *)
Lemma resume_outcome piece s :
  piece_ok piece s ->
  exists extra,
    calls (resume piece s) = calls s ++ extra /\
    isCancelled (resume piece s) = isCancelled s /\
    (isCancelled s = true -> Forall (fun c => quiet c = true) extra) /\
    ((awaiting (resume piece s) = true /\ completions extra = []) \/
     (awaiting (resume piece s) = false /\
      (length (completions extra) <= 1)%nat)).
Proof.
  intros (o & s' & extra & HP & HK & HC & HN & HQ & HA).
  unfold resume. rewrite HP.
  destruct o as [[p|]|e].
  - exists extra. cbn [calls isCancelled with_fetchStream].
    split; [exact HK|]. split; [exact HC|]. split; [exact HQ|].
    left. split; [|exact HN].
    unfold awaiting. cbn [fetchStream with_fetchStream].
    destruct (HA p eq_refl) as [-> | ->]; reflexivity.
  - unfold finish. rewrite fetchStream_finally_run.
    destruct (isCancelled s') eqn:E.
    + exists extra. cbn [calls isCancelled with_fetchStream].
      split; [exact HK|]. split; [congruence|]. split; [exact HQ|].
      right. split; [reflexivity|]. rewrite HN. cbn. lia.
    + exists (extra ++ [onStreamComplete (latestAnswer s')]).
      cbn [calls isCancelled with_fetchStream with_calls with_isStreaming].
      rewrite HK, app_assoc. split; [reflexivity|].
      split; [congruence|]. split; [intros H; congruence|].
      right. split; [reflexivity|].
      rewrite completions_app, HN. cbn. lia.
  - destruct (fetchStream_catch_run e s') as (labels & message & HX).
    rewrite HX. unfold finish. rewrite fetchStream_finally_run.
    destruct (isCancelled s') eqn:E.
    + rewrite E. exists extra. cbn [calls isCancelled with_fetchStream].
      split; [exact HK|]. split; [congruence|]. split; [exact HQ|].
      right. split; [reflexivity|]. rewrite HN. cbn. lia.
    + cbn [isCancelled with_calls with_statusMessages]. rewrite E.
      exists (extra ++ [onStreamError message]
                ++ [onStreamComplete (latestAnswer s')]).
      cbn [calls isCancelled with_fetchStream with_calls with_isStreaming
           with_statusMessages latestAnswer].
      rewrite HK, <- !app_assoc. split; [reflexivity|].
      split; [congruence|]. split; [intros H; congruence|].
      right. split; [reflexivity|].
      rewrite !completions_app, HN. cbn. lia.
Qed.

Lemma step_outcome s ev :
  exists extra,
    calls (step s ev) = calls s ++ extra /\
    (isCancelled s = true ->
     isCancelled (step s ev) = true /\
     Forall (fun c => quiet c = true) extra) /\
    (awaiting s = false ->
     awaiting (step s ev) = false /\ completions extra = []) /\
    ((awaiting (step s ev) = true /\ completions extra = []) \/
     (awaiting (step s ev) = false /\
      (length (completions extra) <= 1)%nat)).
Proof.
  assert (Hid : exists extra,
    calls s = calls s ++ extra /\
    (isCancelled s = true ->
     isCancelled s = true /\ Forall (fun c => quiet c = true) extra) /\
    (awaiting s = false -> awaiting s = false /\ completions extra = []) /\
    ((awaiting s = true /\ completions extra = []) \/
     (awaiting s = false /\ (length (completions extra) <= 1)%nat))).
  { exists []. rewrite app_nil_r. split; [reflexivity|].
    split; [intros H; split; [exact H|constructor]|].
    split; [intros H; split; [exact H|reflexivity]|].
    destruct (awaiting s); [left|right]; split; try reflexivity. cbn. lia. }
  assert (Hres : forall piece, piece_ok piece s -> awaiting s = true ->
    exists extra,
    calls (resume piece s) = calls s ++ extra /\
    (isCancelled s = true ->
     isCancelled (resume piece s) = true /\
     Forall (fun c => quiet c = true) extra) /\
    (awaiting s = false ->
     awaiting (resume piece s) = false /\ completions extra = []) /\
    ((awaiting (resume piece s) = true /\ completions extra = []) \/
     (awaiting (resume piece s) = false /\
      (length (completions extra) <= 1)%nat))).
  { intros piece HP HA.
    destruct (resume_outcome piece s HP) as (extra & HK & HC & HQ & HD).
    exists extra. split; [exact HK|].
    split; [intros H; split; [congruence|auto]|].
    split; [intros H; congruence|exact HD]. }
  destruct ev as [r|e|result|e|]; unfold step;
    try (destruct (fetchStream s) eqn:F; try exact Hid;
         apply Hres;
         [ first [apply after_fetch_ok | apply after_read_ok | apply throw_ok]
         | unfold awaiting; rewrite F; reflexivity ]).
  unfold effect_cleanup.
  cbn [reader with_calls with_isCancelled calls].
  destruct (reader s).
  - exists [controller_abort; reader_cancel].
    cbn [calls with_calls with_isCancelled isCancelled].
    rewrite <- app_assoc. split; [reflexivity|].
    split; [intros _; split; [reflexivity|repeat constructor]|].
    unfold awaiting. cbn [fetchStream with_calls with_isCancelled].
    split; [intros H; split; [exact H|reflexivity]|].
    destruct (fetchStream s); [left|left|right|right]; split;
      try reflexivity; cbn; lia.
  - exists [controller_abort].
    cbn [calls with_calls with_isCancelled isCancelled].
    split; [reflexivity|].
    split; [intros _; split; [reflexivity|repeat constructor]|].
    unfold awaiting. cbn [fetchStream with_calls with_isCancelled].
    split; [intros H; split; [exact H|reflexivity]|].
    destruct (fetchStream s); [left|left|right|right]; split;
      try reflexivity; cbn; lia.
Qed.

(** After the cleanup, whatever happens, the stream asks for no more
    bytes and does not report completion. *)
Lemma run_cancelled events : forall s,
  isCancelled s = true ->
  exists extra,
    calls (run s events) = calls s ++ extra /\
    Forall (fun c => quiet c = true) extra.
Proof.
  induction events as [|ev events IH]; intros s HC.
  - exists []. rewrite app_nil_r. split; [reflexivity|constructor].
  - cbn [run fold_left]. fold (run (step s ev) events).
    destruct (step_outcome s ev) as (e1 & HK & HQ & _).
    destruct (HQ HC) as [HC' HQ1].
    destruct (IH (step s ev) HC') as (e2 & HK2 & HQ2).
    exists (e1 ++ e2). rewrite HK2, HK, app_assoc.
    split; [reflexivity|]. apply Forall_app. split; assumption.
Qed.

(** A stream reports completion at most once. *)
Lemma run_completions events : forall s,
  (awaiting s = true /\ completions (calls s) = []) \/
  (awaiting s = false /\ (length (completions (calls s)) <= 1)%nat) ->
  (length (completions (calls (run s events))) <= 1)%nat.
Proof.
  induction events as [|ev events IH]; intros s H.
  - cbn [run fold_left]. destruct H as [[_ H]|[_ H]]; [rewrite H; cbn; lia|exact H].
  - cbn [run fold_left]. fold (run (step s ev) events).
    apply IH.
    destruct (step_outcome s ev) as (e1 & HK & _ & HS & HD).
    rewrite HK, completions_app.
    destruct H as [[HA HN]|[HA HN]].
    + rewrite HN. cbn [app]. exact HD.
    + destruct (HS HA) as [HA' HN']. right. split; [exact HA'|].
      rewrite HN', app_nil_r. exact HN.
Qed.

(** *** Cutting a byte stream *)

Lemma concat_ranges_of sizes : forall bytes,
  concat (ranges_of sizes bytes) = bytes.
Proof.
  induction sizes as [|n sizes IH]; intros bytes; cbn [ranges_of concat].
  - apply app_nil_r.
  - rewrite IH. apply firstn_skipn.
Qed.

(** *** Two records that are not of the shape [{ event, payload }] *)

(** A record that has no [event] takes its kind from [type]. *)
Example kind_from_type :
  let line := json_text "{'type':'text','payload':'x'}" in
  latestAnswer (exec (handleLine line) example_stream) = lit "ax" /\
  calls (exec (handleLine line) example_stream) = [reader_read].
Proof. vm_compute. split; reflexivity. Qed.

(** [null] is JSON text, but [data.event] throws on it: the line is
    logged like one that does not parse. *)
Example null_record :
  exec (handleLine (lit "null")) example_stream =
  with_calls [reader_read;
              console_error (ErrorInstance TypeError []) (lit "null")]
    example_stream.
Proof. vm_compute. reflexivity. Qed.

End ChatWindowFacts.

(* ================================================================== *)
(** * Properties of the stream consumer *)
(* ================================================================== *)

Module Consumer.
Import JS JSFacts ChatWindow ChatWindowFacts.

(** What a line that carries a record of another kind than [text]
    leaves of the answer. *)
Lemma other_kinds_keep_answer line data s :
  decodeLine line = Some data ->
  kind_is (lit "text") data = false ->
  latestAnswer (exec (handleLine line) s) = latestAnswer s /\
  answer (exec (handleLine line) s) = answer s.
Proof.
  intros HD HK. unfold exec. rewrite handleLine_run. cbn [snd].
  unfold apply_lines. cbn [latestAnswer answer map concat].
  unfold line_text. rewrite HD, HK, !app_nil_r. split; reflexivity.
Qed.

(** C1. For every sequence of byte ranges of a stream that runs to its
    end, the answer given to [onStreamComplete] (and the answer shown)
    is the concatenation, in arrival order, of the payloads of the [text]
    records that the lines of the stream decode to, and nothing else.
    From any state, a sequence of lines adds to the running answer the
    payloads of its [text] records, and a line whose record is of another
    kind ([status], [source], [error], anything) leaves the answer as it
    was. *)
Theorem answer_is_concatenation_of_text_payloads c s0 r ranges :
  effect c = Some s0 -> ok r = true -> has_body r = true ->
  let s := run s0 (delivery r ranges) in
  let chunks := records (stream_lines (concat ranges)) in
  completions (calls s) = [answer_of chunks] /\
  latestAnswer s = answer_of chunks /\
  answer s = answer_of chunks /\
  (forall lines u,
     latestAnswer (exec (for_of lines handleLine) u)
     = latestAnswer u ++ answer_of (records lines)) /\
  (forall line data u,
     decodeLine line = Some data ->
     kind_is (lit "status") data = true \/
     kind_is (lit "source") data = true \/
     kind_is (lit "error") data = true \/
     kind_is (lit "text") data = false ->
     latestAnswer (exec (handleLine line) u) = latestAnswer u /\
     answer (exec (handleLine line) u) = answer u).
Proof.
  intros HE Hok Hbody s chunks.
  destruct (delivery_result c s0 r ranges HE Hok Hbody)
    as (HL & HA & _ & HK & _).
  fold s in HL, HA, HK. unfold chunks.
  rewrite <- concat_line_text.
  split; [exact HK|]. split; [exact HL|]. split; [exact HA|].
  split.
  { intros lines u. unfold exec. rewrite for_of_handleLine. cbn [snd].
    rewrite <- concat_line_text. reflexivity. }
  intros line data u HD K.
  apply (other_kinds_keep_answer line data u); [exact HD|].
  destruct K as [K|[K|[K|K]]]; try exact K;
    apply kind_is_eq in K;
    destruct (kind_is (lit "text") data) eqn:T; try reflexivity;
    apply kind_is_eq in T; rewrite T in K; discriminate.
Qed.

Lemma answer_is_concatenation_witness :
  exists s0,
    effect example_component = Some s0 /\
    let s := run s0 (delivery example_response
                       (ranges_of [30; 46; 7; 90]%nat example_bytes)) in
    completions (calls s) = [[0xBC95; 0xB839]] /\
    latestAnswer s = [0xBC95; 0xB839] /\
    answer s = [0xBC95; 0xB839].
Proof.
  eexists. split; [reflexivity|].
  destruct (answer_is_concatenation_of_text_payloads
              example_component _ example_response
              (ranges_of [30; 46; 7; 90]%nat example_bytes)
              eq_refl eq_refl eq_refl) as (H1 & H2 & H3 & _ & _).
  cbv zeta. rewrite H1, H2, H3.
  repeat split; vm_compute; reflexivity.
Defined.

(** C2. For every byte stream and every two ways of cutting it into
    byte ranges (inside a multi-byte character, inside a line, empty
    ranges), a stream that runs to its end leaves the same answer, gives
    the same answer to [onStreamComplete] and leaves the same ordered
    list of status and error labels; the two runs differ only in their
    calls of [reader.read()]. *)
Theorem fragmentation_invariance c s0 r ranges1 ranges2 :
  effect c = Some s0 -> ok r = true -> has_body r = true ->
  concat ranges1 = concat ranges2 ->
  let s1 := run s0 (delivery r ranges1) in
  let s2 := run s0 (delivery r ranges2) in
  latestAnswer s1 = latestAnswer s2 /\
  answer s1 = answer s2 /\
  statusMessages s1 = statusMessages s2 /\
  completions (calls s1) = completions (calls s2) /\
  unread s1 = unread s2.
Proof.
  intros HE Hok Hbody HB s1 s2.
  assert (H : unread s1 = unread s2).
  { unfold s1, s2.
    rewrite (run_delivery c s0 r ranges1 HE Hok Hbody).
    rewrite (run_delivery c s0 r ranges2 HE Hok Hbody).
    rewrite HB. reflexivity. }
  destruct (unread_fields _ _ H) as (_ & _ & HL & HA & HS & _).
  repeat split; try assumption.
  rewrite <- (completions_unread (calls s1)).
  rewrite <- (completions_unread (calls s2)).
  apply (f_equal (fun x => completions (calls x))) in H. exact H.
Qed.

Lemma fragmentation_invariance_witness :
  exists s0,
    effect example_component = Some s0 /\
    concat (ranges_of [30; 46; 7; 90]%nat example_bytes)
    = concat (ranges_of [0; 76; 100; 0; 41]%nat example_bytes) /\
    let s1 := run s0 (delivery example_response
                        (ranges_of [30; 46; 7; 90]%nat example_bytes)) in
    let s2 := run s0 (delivery example_response
                        (ranges_of [0; 76; 100; 0; 41]%nat example_bytes)) in
    latestAnswer s1 = latestAnswer s2 /\
    statusMessages s1 = statusMessages s2 /\
    statusMessages s1
    = [[0xAC80; 0xC0C9; 0x20; 0xC911];
       cross_mark ++ json_text "{'code':500}"].
Proof.
  eexists. split; [reflexivity|].
  split; [vm_compute; reflexivity|].
  destruct (fragmentation_invariance
              example_component _ example_response
              (ranges_of [30; 46; 7; 90]%nat example_bytes)
              (ranges_of [0; 76; 100; 0; 41]%nat example_bytes)
              eq_refl eq_refl eq_refl)
    as (H1 & _ & H3 & _).
  - vm_compute; reflexivity.
  - cbv zeta. split; [exact H1|]. split; [exact H3|].
    vm_compute; reflexivity.
Defined.

(** C5. When [reader.read()] reports the end of a stream that is not
    cancelled, a fragment left in [buffer] that is not blank goes through
    [handleLine] once, streaming is switched off, and [onStreamComplete]
    is called, last, with the answer as it then stands; [fetchStream]
    returns. *)
Theorem end_of_stream_flushes_and_completes s :
  fetchStream s = await_read -> isCancelled s = false ->
  let flushed :=
    if is_empty (trim (buffer s)) then s
    else exec (handleLine (buffer s)) s in
  step s (read_resolved done) =
  with_fetchStream returned
    (with_calls (calls flushed ++ [onStreamComplete (latestAnswer flushed)])
       (with_isStreaming false flushed)).
Proof.
  intros HF HC flushed. rewrite step_done by assumption. cbv zeta.
  assert (E : apply_lines [buffer s] s = flushed).
  { unfold flushed, exec. rewrite handleLine_run. cbn [snd].
    destruct (is_empty (trim (buffer s))) eqn:B; [|reflexivity].
    apply apply_blank. exact B. }
  rewrite E. reflexivity.
Qed.

Lemma end_of_stream_witness :
  let s := with_buffer (json_text "{'event':'text','payload':'b'}")
             example_stream in
  let s' := step s (read_resolved done) in
  latestAnswer s' = lit "ab" /\
  calls s' = [reader_read; onStreamComplete (lit "ab")] /\
  isStreaming s' = false /\ fetchStream s' = returned.
Proof.
  cbv zeta.
  rewrite (end_of_stream_flushes_and_completes
             (with_buffer (json_text "{'event':'text','payload':'b'}")
                example_stream) eq_refl eq_refl).
  vm_compute. repeat split.
Defined.

(** C3. A line that does not decode (it is blank, or [JSON.parse]
    rejects it) is discarded: [handleLine] returns normally, the answer
    and the label list are as before, and the error and the line are
    logged to the console (a blank line is dropped before the [try]
    block and leaves the stream as it is). A sequence of lines
    with such a line in it leaves the same answer and labels as the
    sequence without it, and so does a stream that runs to its end: with
    the line among its lines it reports the same answer as without it.
    No line makes [handleLine] throw. *)
Theorem malformed_line_is_discarded bad :
  decodeLine bad = None ->
  (forall s,
     exists s',
       handleLine bad s = (Normal tt, s') /\
       latestAnswer s' = latestAnswer s /\ answer s' = answer s /\
       statusMessages s' = statusMessages s /\
       buffer s' = buffer s /\ fetchStream s' = fetchStream s /\
       (is_empty (trim bad) = false ->
        exists e, calls s' = calls s ++ [console_error e (trim bad)]) /\
       (is_empty (trim bad) = true -> s' = s)) /\
  (forall before after s,
     let s1 := exec (for_of (before ++ bad :: after) handleLine) s in
     let s2 := exec (for_of (before ++ after) handleLine) s in
     latestAnswer s1 = latestAnswer s2 /\ answer s1 = answer s2 /\
     statusMessages s1 = statusMessages s2) /\
  (forall c s0 r ranges1 ranges2 before after,
     effect c = Some s0 -> ok r = true -> has_body r = true ->
     stream_lines (concat ranges1) = before ++ bad :: after ->
     stream_lines (concat ranges2) = before ++ after ->
     let s1 := run s0 (delivery r ranges1) in
     let s2 := run s0 (delivery r ranges2) in
     latestAnswer s1 = latestAnswer s2 /\ answer s1 = answer s2 /\
     statusMessages s1 = statusMessages s2 /\
     completions (calls s1) = completions (calls s2)) /\
  (forall line s, exists s', handleLine line s = (Normal tt, s')).
Proof.
  intros HD.
  assert (HT : line_text bad = []) by (unfold line_text; rewrite HD; reflexivity).
  assert (HS : line_labels bad = [])
    by (unfold line_labels; rewrite HD; reflexivity).
  assert (HR : forall before after,
            concat (map line_text (before ++ bad :: after))
            = concat (map line_text (before ++ after)) /\
            concat (map line_labels (before ++ bad :: after))
            = concat (map line_labels (before ++ after))).
  { intros before after. rewrite !map_app, !concat_app. cbn [map concat].
    rewrite HT, HS. split; reflexivity. }
  split; [|split; [|split]].
  - intros s. exists (apply_lines [bad] s).
    split; [apply handleLine_run|].
    unfold apply_lines.
    cbn [latestAnswer answer statusMessages buffer fetchStream calls
         map concat].
    rewrite HT, HS, !app_nil_r.
    split; [reflexivity|]. split; [reflexivity|]. split; [reflexivity|].
    split; [reflexivity|]. split; [reflexivity|]. split.
    + intros HB. unfold line_log. cbv zeta. rewrite HB.
      unfold decodeLine in HD. cbv zeta in HD. rewrite HB in HD.
      destruct (JSON_parse (replace_data_prefix (trim bad))) as [e|d];
        [|discriminate].
      exists e. reflexivity.
    + intros HB. unfold line_log. cbv zeta. rewrite HB. fields s.
  - intros before after s s1 s2. unfold s1, s2, exec.
    rewrite !for_of_handleLine. cbn [snd].
    unfold apply_lines. cbn [latestAnswer answer statusMessages].
    destruct (HR before after) as [-> ->]. repeat split.
  - intros c s0 r ranges1 ranges2 before after HE Hok Hbody H1 H2 s1 s2.
    destruct (delivery_result c s0 r ranges1 HE Hok Hbody)
      as (L1 & A1 & S1 & K1 & _).
    destruct (delivery_result c s0 r ranges2 HE Hok Hbody)
      as (L2 & A2 & S2 & K2 & _).
    fold s1 in L1, A1, S1, K1. fold s2 in L2, A2, S2, K2.
    rewrite H1 in L1, A1, S1, K1. rewrite H2 in L2, A2, S2, K2.
    destruct (HR before after) as [ET ES].
    rewrite ET in L1, A1, K1. rewrite ES in S1.
    rewrite L1, A1, S1, K1, L2, A2, S2, K2. repeat split.
  - intros line s. exists (apply_lines [line] s). apply handleLine_run.
Qed.

Lemma malformed_line_witness :
  decodeLine (json_text "{bad") = None /\
  (let valid1 := json_text "{'event':'text','payload':'x'}" in
   let valid2 := json_text "{'event':'text','payload':'y'}" in
   let s1 := exec (for_of [valid1; json_text "{bad"; valid2] handleLine)
               example_stream in
   let s2 := exec (for_of [valid1; valid2] handleLine) example_stream in
   latestAnswer s1 = latestAnswer s2 /\ latestAnswer s1 = lit "axy" /\
   statusMessages s1 = statusMessages s2) /\
  exists s0,
    effect example_component = Some s0 /\
    let s1 := run s0 (delivery example_response [example_bytes]) in
    let s2 := run s0 (delivery example_response
                        [example_head; example_tail]) in
    completions (calls s1) = completions (calls s2) /\
    completions (calls s1) = [[0xBC95; 0xB839]].
Proof.
  split; [vm_compute; reflexivity|].
  destruct (malformed_line_is_discarded (json_text "{bad"))
    as (_ & H & G & _); [vm_compute; reflexivity|].
  split.
  - destruct (H [json_text "{'event':'text','payload':'x'}"]
                [json_text "{'event':'text','payload':'y'}"]
                example_stream) as (H1 & _ & H3).
    cbv zeta. split; [exact H1|].
    split; [vm_compute; reflexivity|exact H3].
  - eexists. split; [reflexivity|]. cbv zeta.
    destruct (G example_component _ example_response
                [example_bytes] [example_head; example_tail]
                (firstn 2 (stream_lines example_bytes))
                (skipn 3 (stream_lines example_bytes))
                eq_refl eq_refl eq_refl) as (_ & _ & _ & K);
      try (vm_compute; reflexivity).
    split; [exact K|]. vm_compute. reflexivity.
Defined.

(** C7. A record whose kind is none of [text], [status] and [error]
    ([source], any other string, a kind that is not a string or that is
    missing) leaves the answer and the label list as they are, and
    [handleLine] returns normally. *)
Theorem unknown_kind_is_ignored line data s :
  decodeLine line = Some data ->
  kind_is (lit "text") data = false ->
  kind_is (lit "status") data = false ->
  kind_is (lit "error") data = false ->
  exists s',
    handleLine line s = (Normal tt, s') /\
    latestAnswer s' = latestAnswer s /\ answer s' = answer s /\
    statusMessages s' = statusMessages s /\
    (forall t, eventType data = inr t -> s' = s).
Proof.
  intros HD HT HS HE. exists (apply_lines [line] s).
  split; [apply handleLine_run|].
  unfold apply_lines.
  cbn [latestAnswer answer statusMessages map concat].
  unfold line_text, line_labels, labels_of. rewrite HD, HT, HS, HE.
  rewrite !app_nil_r. repeat split.
  intros t Ht. unfold line_log. cbv zeta.
  unfold decodeLine in HD. cbv zeta in HD.
  destruct (is_empty (trim line)); [discriminate|].
  destruct (JSON_parse (replace_data_prefix (trim line))) as [e|d];
    [discriminate|].
  injection HD as ->. rewrite Ht. fields s.
Qed.

Lemma unknown_kind_witness :
  let line := json_text "{'event':'source','payload':{'title':'t'}}" in
  exists s',
    handleLine line example_stream = (Normal tt, s') /\
    latestAnswer s' = lit "a" /\ statusMessages s' = [lit "s"].
Proof.
  cbv zeta.
  destruct (unknown_kind_is_ignored
              (json_text "{'event':'source','payload':{'title':'t'}}")
              (VObject [(lit "event", VString (lit "source"));
                        (lit "payload",
                         VObject [(lit "title", VString (lit "t"))])])
              example_stream)
    as (s' & H & HL & _ & HS & _); try (vm_compute; reflexivity).
  exists s'. split; [exact H|]. split; [exact HL|exact HS].
Defined.

(** What a sequence of lines adds to the label list: the labels of the
    records they decode to, in the order of the lines. *)
Lemma labels_in_arrival_order lines s :
  statusMessages (exec (for_of lines handleLine) s)
  = statusMessages s ++ concat (map labels_of (records lines)).
Proof.
  unfold exec. rewrite for_of_handleLine. cbn [snd].
  rewrite <- concat_line_labels. reflexivity.
Qed.

(** C10. A record whose payload is not a string does not make
    [handleLine] throw. If its kind is [text] it adds nothing to the
    answer. If its kind is [status] or [error] the label is the JSON
    serialization of the payload (behind the cross mark for [error]);
    nothing is added when there is no such text, as for a payload that
    is missing. *)
Theorem unexpected_payload_is_tolerated line data s :
  decodeLine line = Some data ->
  (forall str, payload data <> VString str) ->
  let serialized :=
    match JSON_stringify (payload data) with Some t => t | None => [] end in
  exists s',
    handleLine line s = (Normal tt, s') /\
    (kind_is (lit "text") data = true ->
     latestAnswer s' = latestAnswer s /\ answer s' = answer s /\
     statusMessages s' = statusMessages s) /\
    (kind_is (lit "status") data = true ->
     latestAnswer s' = latestAnswer s /\
     statusMessages s'
     = statusMessages s ++
       (if is_empty serialized then [] else [serialized])) /\
    (kind_is (lit "error") data = true ->
     latestAnswer s' = latestAnswer s /\
     statusMessages s'
     = statusMessages s ++
       (if is_empty serialized then [] else [cross_mark ++ serialized])).
Proof.
  intros HD HP serialized. exists (apply_lines [line] s).
  split; [apply handleLine_run|].
  assert (HL : label_text (payload data) = serialized).
  { unfold label_text, serialized. destruct (payload data); try reflexivity.
    exfalso. apply (HP s0). reflexivity. }
  assert (HX : text_payload data = []).
  { unfold text_payload. destruct (payload data); try reflexivity.
    exfalso. apply (HP s0). reflexivity. }
  unfold apply_lines. cbn [latestAnswer answer statusMessages map concat].
  unfold line_text, line_labels, labels_of. rewrite HD, HL, HX.
  rewrite !app_nil_r.
  split; [|split]; intros K.
  - rewrite K.
    assert (K1 : kind_is (lit "status") data = false).
    { apply kind_is_eq in K. unfold kind_is. rewrite K. reflexivity. }
    assert (K2 : kind_is (lit "error") data = false).
    { apply kind_is_eq in K. unfold kind_is. rewrite K. reflexivity. }
    rewrite K1, K2, !app_nil_r. repeat split.
  - rewrite K.
    assert (K1 : kind_is (lit "text") data = false).
    { apply kind_is_eq in K. unfold kind_is. rewrite K. reflexivity. }
    rewrite K1, !app_nil_r. repeat split.
  - rewrite K.
    assert (K1 : kind_is (lit "text") data = false).
    { apply kind_is_eq in K. unfold kind_is. rewrite K. reflexivity. }
    assert (K2 : kind_is (lit "status") data = false).
    { apply kind_is_eq in K. unfold kind_is. rewrite K. reflexivity. }
    rewrite K1, K2, !app_nil_r. repeat split.
Qed.

Lemma unexpected_payload_witness :
  let line := json_text "{'event':'error','payload':{'code':500,'ok':false}}" in
  exists s',
    handleLine line example_stream = (Normal tt, s') /\
    latestAnswer s' = lit "a" /\
    statusMessages s'
    = [lit "s"; cross_mark ++ json_text "{'code':500,'ok':false}"].
Proof.
  cbv zeta.
  destruct (unexpected_payload_is_tolerated
              (json_text "{'event':'error','payload':{'code':500,'ok':false}}")
              (VObject [(lit "event", VString (lit "error"));
                        (lit "payload",
                         VObject [(lit "code",
                                   VNumber (Finite false 8796093022208000 (-44)));
                                  (lit "ok", VBoolean false)])])
              example_stream)
    as (s' & H & _ & _ & HE).
  - vm_compute; reflexivity.
  - intros str. vm_compute. discriminate.
  - exists s'. split; [exact H|].
    destruct (HE eq_refl) as [HL HS]. split; [exact HL|].
    rewrite HS. vm_compute. reflexivity.
Defined.

(** C6, as it is claimed: every [status] or [error] record adds one
    entry to the label list. A [status] record with the empty string as
    its payload adds none. *)
Lemma empty_label_is_not_appended :
  ~ (forall line data s,
       decodeLine line = Some data ->
       kind_is (lit "status") data = true \/
       kind_is (lit "error") data = true ->
       exists entry,
         statusMessages (exec (handleLine line) s)
         = statusMessages s ++ [entry]).
Proof.
  intros H.
  destruct (H (json_text "{'event':'status','payload':''}")
              (VObject [(lit "event", VString (lit "status"));
                        (lit "payload", VString [])])
              example_stream) as [entry HE].
  - vm_compute; reflexivity.
  - left. vm_compute; reflexivity.
  - vm_compute in HE. discriminate.
Qed.

(** C6, amended. A [status] or [error] record adds one entry to the end
    of the label list when its label text (the payload if it is a string,
    else its JSON serialization) is not empty: that text for [status],
    the cross mark and that text for [error]. It adds nothing when the
    text is empty (the payload is the empty string or is missing). The
    entries that were there stay, in their order, and the entries of a
    sequence of lines come in the order of the lines. *)
Theorem labels_are_appended line data s :
  decodeLine line = Some data ->
  kind_is (lit "status") data = true \/ kind_is (lit "error") data = true ->
  let text := label_text (payload data) in
  let s' := exec (handleLine line) s in
  (is_empty text = false ->
   statusMessages s'
   = statusMessages s ++
     [if kind_is (lit "status") data then text else cross_mark ++ text]) /\
  (is_empty text = true -> statusMessages s' = statusMessages s) /\
  firstn (length (statusMessages s)) (statusMessages s') = statusMessages s /\
  (forall lines u,
     statusMessages (exec (for_of lines handleLine) u)
     = statusMessages u ++ concat (map labels_of (records lines))).
Proof.
  intros HD HK text s'.
  assert (HS : statusMessages s' = statusMessages s ++ labels_of data).
  { unfold s', exec. rewrite handleLine_run. cbn [snd].
    unfold apply_lines. cbn [statusMessages map concat].
    unfold line_labels. rewrite HD, app_nil_r. reflexivity. }
  assert (HL : labels_of data =
               if is_empty text then []
               else [if kind_is (lit "status") data then text
                     else cross_mark ++ text]).
  { unfold labels_of. fold text.
    destruct (kind_is (lit "status") data) eqn:K1; [reflexivity|].
    destruct HK as [HK|HK]; [discriminate|]. rewrite HK. reflexivity. }
  rewrite HS, HL.
  split; [|split; [|split]].
  - intros E. rewrite E. reflexivity.
  - intros E. rewrite E. apply app_nil_r.
  - rewrite firstn_app, Nat.sub_diag, firstn_all. cbn [firstn].
    apply app_nil_r.
  - apply labels_in_arrival_order.
Qed.

Lemma labels_are_appended_witness :
  let line := json_text "{'event':'error','payload':'boom'}" in
  statusMessages (exec (handleLine line) example_stream)
  = [lit "s"; cross_mark ++ lit "boom"].
Proof.
  cbv zeta.
  destruct (labels_are_appended
              (json_text "{'event':'error','payload':'boom'}")
              (VObject [(lit "event", VString (lit "error"));
                        (lit "payload", VString (lit "boom"))])
              example_stream) as (H & _).
  - vm_compute; reflexivity.
  - right. vm_compute; reflexivity.
  - cbv zeta in H. rewrite H; vm_compute; reflexivity.
Defined.

(** C4. Once the cleanup of the effect has run (a new active question,
    or unmounting), whatever the pending promises then settle to, the
    stream makes no further call of [reader.read()] and never calls
    [onStreamComplete]; and a stream, cancelled or not, calls
    [onStreamComplete] at most once. The effect starts one stream for an
    active question, so at most one completion is reported for it. *)
Theorem cancelled_stream_is_silent c s0 before after :
  effect c = Some s0 ->
  let cancelled := step (run s0 before) cleanup in
  isCancelled cancelled = true /\
  (exists extra,
     calls (run cancelled after) = calls cancelled ++ extra /\
     Forall (fun call => is_read call = false /\ is_complete call = false)
            extra) /\
  (forall events,
     (length (completions (calls (run s0 events))) <= 1)%nat).
Proof.
  intros HE cancelled.
  assert (HC : isCancelled cancelled = true).
  { unfold cancelled, step, effect_cleanup.
    destruct (reader _); reflexivity. }
  split; [exact HC|]. split.
  - destruct (run_cancelled after cancelled HC) as (extra & HK & HQ).
    exists extra. split; [exact HK|].
    eapply Forall_impl; [|exact HQ].
    intros call Hq. unfold quiet in Hq.
    apply andb_true_iff in Hq. destruct Hq as [H1 H2].
    apply negb_true_iff in H1, H2. split; assumption.
  - intros events. apply run_completions.
    destruct (effect_start _ _ HE) as (q & _ & _ & ->).
    left. split; reflexivity.
Qed.

Lemma cancelled_stream_witness :
  exists s0,
    effect example_component = Some s0 /\
    let before :=
      [fetch_resolved example_response;
       read_resolved (chunk (firstn 100 example_bytes))] in
    let after :=
      [read_resolved (chunk (skipn 100 example_bytes));
       read_resolved done] in
    let cancelled := step (run s0 before) cleanup in
    Forall (fun call => is_read call = false /\ is_complete call = false)
           (skipn (length (calls cancelled)) (calls (run cancelled after))) /\
    completions (calls (run s0 (before ++ cleanup :: after))) = [].
Proof.
  eexists. split; [reflexivity|]. cbv zeta.
  destruct (cancelled_stream_is_silent
              example_component _
              [fetch_resolved example_response;
               read_resolved (chunk (firstn 100 example_bytes))]
              [read_resolved (chunk (skipn 100 example_bytes));
               read_resolved done] eq_refl)
    as (_ & (extra & HK & HQ) & _).
  split.
  - rewrite HK, skipn_app, skipn_all, Nat.sub_diag. exact HQ.
  - vm_compute. reflexivity.
Defined.

End Consumer.

(* ================================================================== *)
(** * Properties of the chat history *)
(* ================================================================== *)

Module History.
Import JS JSFacts App.

(** C9. [handleStreamComplete] adds one assistant message that holds the
    answer, at the end of the history, exactly when the answer has a
    code unit that is not white space; otherwise the messages are as
    before. In both cases the active question is cleared. *)
Theorem completion_appends_nonblank_answer answer st :
  let st' := handleStreamComplete answer st in
  let nonblank := existsb (fun c => negb (is_whitespace c)) answer in
  activeQuestion st' = None /\
  (nonblank = true <->
   messages st'
   = messages st ++ [{| role := lit "assistant"; content := answer |}]) /\
  (nonblank = false <-> messages st' = messages st).
Proof.
  cbv zeta. unfold handleStreamComplete. cbn [activeQuestion messages].
  rewrite trim_blank.
  assert (E : existsb (fun c => negb (is_whitespace c)) answer
              = negb (forallb is_whitespace answer)).
  { induction answer as [|c a IH]; [reflexivity|].
    cbn [existsb forallb]. rewrite IH, negb_andb. reflexivity. }
  rewrite E. split; [reflexivity|].
  destruct (forallb is_whitespace answer); cbn [negb]; split; split;
    try reflexivity; try discriminate; intros H; exfalso.
  - apply (f_equal (@length _)) in H. rewrite length_app in H.
    cbn [length] in H. lia.
  - apply (f_equal (@length _)) in H. rewrite length_app in H.
    cbn [length] in H. lia.
Qed.

End History.

(* ================================================================== *)
(** * Properties of the requests *)
(* ================================================================== *)

Module Requests.
Import JS JSFacts ChatWindow ApiService.

Lemma lex_run_app l a b :
  lex_run l (a ++ b) =
  let (l1, ts1) := lex_run l a in
  let (l2, ts2) := lex_run l1 b in
  (l2, ts1 ++ ts2).
Proof.
  revert l; induction a as [|c a IH]; intros l; cbn [app lex_run].
  - destruct (lex_run l b); reflexivity.
  - destruct (lex_step l c) as [l1 ts]. rewrite IH.
    destruct (lex_run l1 a) as [l2 ts2].
    destruct (lex_run l2 b) as [l3 ts3].
    rewrite app_assoc. reflexivity.
Qed.

Lemma hex_digit_char h :
  0 <= h < 16 -> hex_digit (hex_char h) = Some h.
Proof.
  intros H. unfold hex_digit, hex_char, between.
  destruct (h <? 10) eqn:E.
  - apply Z.ltb_lt in E.
    replace (48 <=? 48 + h) with true by (symmetry; apply Z.leb_le; lia).
    replace (48 + h <=? 57) with true by (symmetry; apply Z.leb_le; lia).
    cbn [andb]. f_equal. lia.
  - apply Z.ltb_ge in E.
    replace (87 + h <=? 57) with false by (symmetry; apply Z.leb_gt; lia).
    rewrite andb_false_r.
    replace (97 <=? 87 + h) with true by (symmetry; apply Z.leb_le; lia).
    replace (87 + h <=? 102) with true by (symmetry; apply Z.leb_le; lia).
    cbn [andb]. f_equal. lia.
Qed.

Lemma hex_value c :
  0 <= c < 65536 ->
  16 * (16 * (16 * (16 * 0 + Z.shiftr c 12 mod 16) + Z.shiftr c 8 mod 16)
        + Z.shiftr c 4 mod 16) + c mod 16 = c.
Proof.
  intros H. rewrite !Z.shiftr_div_pow2 by lia.
  change (2 ^ 12) with 4096. change (2 ^ 8) with 256. change (2 ^ 4) with 16.
  pose proof (Z.div_mod c 16 ltac:(lia)).
  pose proof (Z.div_mod (c / 16) 16 ltac:(lia)).
  pose proof (Z.div_mod (c / 256) 16 ltac:(lia)).
  assert (c / 16 / 16 = c / 256) by (rewrite Z.div_div by lia; reflexivity).
  assert (c / 256 / 16 = c / 4096) by (rewrite Z.div_div by lia; reflexivity).
  assert (0 <= c / 4096 < 16)
    by (split; [apply Z.div_pos; lia | apply Z.div_lt_upper_bound; lia]).
  rewrite (Z.mod_small (c / 4096) 16) by assumption.
  lia.
Qed.

Lemma lex_run_quiet l c t l1 :
  lex_step l c = (l1, []) -> lex_run l (c :: t) = lex_run l1 t.
Proof.
  intros H. cbn [lex_run]. rewrite H.
  destruct (lex_run l1 t). reflexivity.
Qed.

Lemma lex_step_hex acc n v h :
  0 <= h < 16 ->
  lex_step (LUnicode acc n v) (hex_char h) =
  (match n with
   | O => LString ((16 * v + h) :: acc)
   | S n' => LUnicode acc n' (16 * v + h)
   end, []).
Proof.
  intros H. cbn [lex_step]. rewrite hex_digit_char by exact H.
  destruct n; reflexivity.
Qed.

(** An escape [\uXXXX] is read back as the code unit it stands for. *)
Lemma lex_UnicodeEscape c acc :
  0 <= c < 65536 ->
  lex_run (LString acc) (UnicodeEscape c) = (LString (c :: acc), []).
Proof.
  intros H. unfold UnicodeEscape.
  rewrite (lex_run_quiet (LString acc) 92 _ (LEscape acc)) by reflexivity.
  rewrite (lex_run_quiet (LEscape acc) 117 _ (LUnicode acc 3 0))
    by reflexivity.
  repeat (erewrite lex_run_quiet;
          [|apply lex_step_hex; apply Z.mod_pos_bound; lia]).
  cbn [lex_run]. rewrite (hex_value c H). reflexivity.
Qed.

Lemma lex_quote_unit c acc :
  0 <= c < 65536 ->
  lex_run (LString acc) (quote_unit c) = (LString (c :: acc), []).
Proof.
  intros H. unfold quote_unit.
  destruct (c =? 8) eqn:E8; [apply Z.eqb_eq in E8; subst; reflexivity|].
  destruct (c =? 9) eqn:E9; [apply Z.eqb_eq in E9; subst; reflexivity|].
  destruct (c =? 10) eqn:E10; [apply Z.eqb_eq in E10; subst; reflexivity|].
  destruct (c =? 12) eqn:E12; [apply Z.eqb_eq in E12; subst; reflexivity|].
  destruct (c =? 13) eqn:E13; [apply Z.eqb_eq in E13; subst; reflexivity|].
  destruct (c =? 34) eqn:E34; [apply Z.eqb_eq in E34; subst; reflexivity|].
  destruct (c =? 92) eqn:E92; [apply Z.eqb_eq in E92; subst; reflexivity|].
  destruct (c <? 32) eqn:E32; cbn [orb].
  - apply lex_UnicodeEscape. exact H.
  - destruct (is_leading_surrogate c || is_trailing_surrogate c);
      [apply lex_UnicodeEscape; exact H|].
    rewrite (lex_run_quiet _ c [] (LString (c :: acc))); [reflexivity|].
    cbn [lex_step]. rewrite E34, E92, E32. reflexivity.
Qed.

Lemma lex_literal_unit c acc :
  0xD800 <= c ->
  lex_step (LString acc) c = (LString (c :: acc), []).
Proof.
  intros H. cbn [lex_step].
  replace (c =? 34) with false by (symmetry; apply Z.eqb_neq; lia).
  replace (c =? 92) with false by (symmetry; apply Z.eqb_neq; lia).
  replace (c <? 32) with false by (symmetry; apply Z.ltb_ge; lia).
  reflexivity.
Qed.

(** What [QuoteJSONString] writes between the quotes, the lexer reads
    back as the string. *)
Lemma lex_quote_units s :
  code_units s ->
  forall acc,
    lex_run (LString acc) (quote_units s) = (LString (rev s ++ acc), []).
Proof.
  intros H.
  assert (G : (forall acc,
                 lex_run (LString acc) (quote_units s)
                 = (LString (rev s ++ acc), [])) /\
              (forall c acc, 0 <= c < 65536 ->
                 lex_run (LString acc) (quote_units (c :: s))
                 = (LString (rev (c :: s) ++ acc), []))).
  { induction H as [|x s Hx Hs IH].
    - split; [reflexivity|]. intros c acc Hc.
      cbn [quote_units rev app]. apply lex_quote_unit. exact Hc.
    - destruct IH as [IH1 IH2]. split; [intros acc; apply IH2; exact Hx|].
      intros c acc Hc.
      change (quote_units (c :: x :: s))
        with (if is_leading_surrogate c && is_trailing_surrogate x
              then c :: x :: quote_units s
              else quote_unit c ++ quote_units (x :: s)).
      destruct (is_leading_surrogate c && is_trailing_surrogate x) eqn:E.
      + apply andb_true_iff in E. destruct E as [E1 E2].
        unfold is_leading_surrogate, is_trailing_surrogate, between in E1, E2.
        apply andb_true_iff in E1, E2.
        destruct E1 as [E1 _], E2 as [E2 _].
        apply Z.leb_le in E1, E2.
        rewrite (lex_run_quiet _ c _ _ (lex_literal_unit c acc E1)).
        rewrite (lex_run_quiet _ x _ _ (lex_literal_unit x (c :: acc) ltac:(lia))).
        rewrite IH1. cbn [rev app]. rewrite <- !app_assoc. reflexivity.
      + rewrite lex_run_app, lex_quote_unit by exact Hc.
        rewrite IH2 by exact Hx. cbn [rev app].
        rewrite <- !app_assoc. reflexivity. }
  apply G.
Qed.

(** The tokens of a text that holds one quoted string [q] between a
    prefix that ends with the opening quote and a suffix. *)
Lemma lex_around P q S ts1 ts2 :
  code_units q ->
  lex_run LIdle P = (LString [], ts1) ->
  lex_run LIdle S = (LIdle, ts2) ->
  lex (P ++ (quote_units q ++ [34]) ++ S) = Some (ts1 ++ TString q :: ts2).
Proof.
  intros Hq HP HS. unfold lex.
  rewrite lex_run_app, HP, lex_run_app, lex_run_app.
  rewrite (lex_quote_units q Hq []).
  replace (lex_run (LString (rev q ++ [])) [34])
    with (LIdle, [TString q]).
  - rewrite HS. cbn [lex_end app]. rewrite app_nil_r. reflexivity.
  - cbn [lex_run lex_step]. change (34 =? 34) with true. cbn iota.
    rewrite !app_nil_r, rev_involutive. reflexivity.
Qed.

Lemma stringify_ask_body q :
  JSON_stringify (ask_body q)
  = Some (json_text "{'user_id':'linkcampus','question':'"
          ++ (quote_units q ++ [34]) ++ [125]).
Proof. reflexivity. Qed.

Lemma stringify_QueryRequest request :
  JSON_stringify (QueryRequest_value request)
  = Some (json_text "{'question':'"
          ++ (quote_units (question request) ++ [34])
          ++ json_text ",'search_mode':'"
          ++ SearchMode_string (search_mode request) ++ json_text "'}").
Proof.
  destruct request as [q []]; cbn [question search_mode].
  - change (JSON_stringify
              (QueryRequest_value {| question := q; search_mode := general |}))
      with (Some (json_text "{'question':'"
                  ++ ((quote_units q ++ [34])
                      ++ json_text ",'search_mode':'general'") ++ [125])).
    rewrite <- app_assoc. reflexivity.
  - change (JSON_stringify
              (QueryRequest_value {| question := q; search_mode := law |}))
      with (Some (json_text "{'question':'"
                  ++ ((quote_units q ++ [34])
                      ++ json_text ",'search_mode':'law'") ++ [125])).
    rewrite <- app_assoc. reflexivity.
Qed.

(** C8. The request of [fetchStream] and the request of
    [ApiService.askQuestion] are POST requests whose body is JSON text
    for an object with a string [question]; its other fields are the
    [user_id] of the first and the [search_mode], ["general"] or
    ["law"], of the second. The effect issues the first, for its
    [activeQuestion], and nothing else before the response. *)
Theorem ask_requests_are_well_formed :
  (forall env q,
     code_units q -> ask_request_shape (ask_request env q) = true) /\
  (forall env request,
     code_units (question request) ->
     ask_request_shape (askQuestion_fetch env request) = true) /\
  (forall c s0,
     effect c = Some s0 ->
     exists q,
       ChatWindow.activeQuestion c = Some q /\
       calls s0 = [onStreamStart; fetch (ask_request (VITE_API_URL c) q)]).
Proof.
  split; [|split].
  - intros env q Hq. unfold ask_request_shape, ask_request.
    cbn [method body]. rewrite stringify_ask_body.
    unfold JSON_parse.
    rewrite (lex_around _ q [125]
               [TLBrace; TString (lit "user_id"); TColon;
                TString (lit "linkcampus"); TComma;
                TString (lit "question"); TColon] [TRBrace] Hq)
      by reflexivity.
    reflexivity.
  - intros env [q mode] Hq. unfold ask_request_shape, askQuestion_fetch.
    cbn [method body question] in *. rewrite stringify_QueryRequest.
    cbn [question search_mode]. unfold JSON_parse.
    destruct mode.
    + rewrite (lex_around _ q _
                 [TLBrace; TString (lit "question"); TColon]
                 [TComma; TString (lit "search_mode"); TColon;
                  TString (lit "general"); TRBrace] Hq)
        by reflexivity.
      reflexivity.
    + rewrite (lex_around _ q _
                 [TLBrace; TString (lit "question"); TColon]
                 [TComma; TString (lit "search_mode"); TColon;
                  TString (lit "law"); TRBrace] Hq)
        by reflexivity.
      reflexivity.
  - intros c s0 HE.
    destruct (ChatWindowFacts.effect_start _ _ HE) as (q & Hq & _ & ->).
    exists q. split; [exact Hq|reflexivity].
Qed.

Lemma ask_requests_witness :
  code_units (json_text "What does 'article 1' say?\n") /\
  ask_request_shape
    (ask_request None (json_text "What does 'article 1' say?\n")) = true /\
  ask_request_shape
    (askQuestion_fetch None
       {| question := [0xBC95; 0xD83D; 0xDC4B; 0xD800; 34];
          search_mode := law |}) = true.
Proof.
  destruct ask_requests_are_well_formed as (H1 & H2 & _).
  assert (W : code_units (json_text "What does 'article 1' say?\n")).
  { unfold code_units. repeat constructor; cbn; discriminate. }
  split; [exact W|]. split.
  - apply H1. exact W.
  - apply H2. cbn [question]. unfold code_units.
    repeat constructor; cbn; discriminate.
Defined.

End Requests.

(* ================================================================== *)
(** * More facts about the platform *)
(* ================================================================== *)

Module TextFacts.
Import JS JSFacts Text ApiService.

(** ** Trimming *)

Lemma dropWhile_app {A} (p : A -> bool) l m :
  dropWhile p (l ++ m) =
  if forallb p l then dropWhile p m else dropWhile p l ++ m.
Proof.
  induction l as [|x l IH]; cbn; [reflexivity|].
  destruct (p x); cbn; [exact IH | reflexivity].
Qed.


Lemma trimEnd_app a b :
  trimEnd (a ++ b) =
  if forallb is_whitespace b then trimEnd a else a ++ trimEnd b.
Proof.
  unfold trimEnd. rewrite rev_app_distr, dropWhile_app, forallb_rev.
  destruct (forallb is_whitespace b); [reflexivity|].
  rewrite rev_app_distr, rev_involutive. reflexivity.
Qed.

Lemma trimEnd_blank s :
  forallb is_whitespace s = true -> trimEnd s = [].
Proof.
  intros H. unfold trimEnd.
  assert (E : dropWhile is_whitespace (rev s) = []).
  { apply dropWhile_nil. rewrite forallb_rev. exact H. }
  rewrite E. reflexivity.
Qed.

Lemma trimEnd_cons c s :
  trimEnd (c :: s) =
  if forallb is_whitespace s
  then (if is_whitespace c then [] else [c])
  else c :: trimEnd s.
Proof.
  change (c :: s) with ([c] ++ s). rewrite trimEnd_app.
  destruct (forallb is_whitespace s); [|reflexivity].
  unfold trimEnd. cbn. destruct (is_whitespace c); reflexivity.
Qed.


(** White space may be stripped from either end first. *)
Lemma trim_comm s : trimEnd (trimStart s) = trimStart (trimEnd s).
Proof.
  induction s as [|c s IH]; [reflexivity|].
  rewrite trimEnd_cons. unfold trimStart at 1. cbn [dropWhile].
  destruct (is_whitespace c) eqn:W.
  - fold (trimStart s). rewrite IH.
    destruct (forallb is_whitespace s) eqn:B.
    + rewrite (trimEnd_blank s B). reflexivity.
    + unfold trimStart. cbn [dropWhile]. rewrite W. reflexivity.
  - rewrite trimEnd_cons.
    destruct (forallb is_whitespace s); unfold trimStart; cbn [dropWhile];
      rewrite W; reflexivity.
Qed.


(** White space around a string does not show in what [trim] gives. *)
Lemma trim_app_ws pre s post :
  forallb is_whitespace pre = true -> forallb is_whitespace post = true ->
  trim (pre ++ s ++ post) = trim s.
Proof.
  intros Hpre Hpost. unfold trim, trimStart.
  rewrite dropWhile_app, Hpre.
  fold (trimStart (s ++ post)). fold (trimStart s).
  rewrite !trim_comm. rewrite trimEnd_app, Hpost. reflexivity.
Qed.

Lemma trim_cons_ws c l : is_whitespace c = true -> trim (c :: l) = trim l.
Proof.
  intros H. unfold trim, trimStart. cbn [dropWhile]. rewrite H. reflexivity.
Qed.

(** A string that neither starts nor ends with white space is left as
    it is. *)
Lemma trim_solid c m d :
  is_whitespace c = false -> is_whitespace d = false ->
  trim (c :: m ++ [d]) = c :: m ++ [d].
Proof.
  intros Hc Hd. unfold trim, trimStart. cbn [dropWhile]. rewrite Hc.
  change (c :: m ++ [d]) with ((c :: m) ++ [d]).
  rewrite trimEnd_app. cbn [forallb]. rewrite Hd. cbn [andb].
  unfold trimEnd. cbn. rewrite Hd. reflexivity.
Qed.

Lemma startsWith_app p s : startsWith (p ++ s) p = true.
Proof.
  induction p as [|c p IH]; [destruct s; reflexivity|].
  cbn. rewrite Z.eqb_refl. exact IH.
Qed.

Lemma startsWith_nil s : startsWith s [] = true.
Proof. destruct s; reflexivity. Qed.

Lemma startsWith_firstn n text : startsWith text (firstn n text) = true.
Proof.
  rewrite <- (firstn_skipn n text) at 1. apply startsWith_app.
Qed.

Lemma startsWith_prefix t : forall p,
  startsWith t p = true -> firstn (length p) t = p.
Proof.
  induction t as [|c t IH]; intros [|x p] H; try reflexivity;
    [discriminate|].
  cbn [startsWith] in H. apply andb_true_iff in H. destruct H as [E H].
  apply Z.eqb_eq in E. subst x. cbn [length firstn]. f_equal.
  apply IH. exact H.
Qed.

(** ** Strings read two code units at a time *)

(** Induction for the functions that look at a surrogate and the code
    unit after it. *)
Lemma pair_ind {A} (P : list A -> Prop) :
  P [] -> (forall c, P [c]) ->
  (forall c c' s, P s -> P (c' :: s) -> P (c :: c' :: s)) ->
  forall s, P s.
Proof.
  intros H0 H1 H2 s.
  assert (G : P s /\ forall c, P (c :: s)).
  { induction s as [|x s [IH1 IH2]]; [split; [exact H0 | exact H1]|].
    split; [apply IH2|]. intros c. apply H2; [exact IH1 | apply IH2]. }
  apply G.
Qed.

Lemma between_true lo hi x : lo <= x <= hi -> between lo hi x = true.
Proof.
  intros H. unfold between. apply andb_true_iff. split; apply Z.leb_le; lia.
Qed.

Lemma between_false lo hi x : x < lo \/ hi < x -> between lo hi x = false.
Proof.
  intros H. unfold between. apply andb_false_iff.
  destruct H; [left|right]; apply Z.leb_gt; lia.
Qed.

Lemma surrogate_range c :
  (is_leading_surrogate c = true <-> 0xD800 <= c <= 0xDBFF) /\
  (is_trailing_surrogate c = true <-> 0xDC00 <= c <= 0xDFFF).
Proof.
  unfold is_leading_surrogate, is_trailing_surrogate, between.
  rewrite !andb_true_iff, !Z.leb_le. tauto.
Qed.

Lemma not_surrogate c :
  is_leading_surrogate c = false -> is_trailing_surrogate c = false ->
  ~ (0xD800 <= c <= 0xDFFF).
Proof.
  intros H1 H2 H.
  destruct (surrogate_range c) as [L T].
  destruct (Z.le_gt_cases c 0xDBFF).
  - rewrite (proj2 L) in H1 by lia. discriminate.
  - rewrite (proj2 T) in H2 by lia. discriminate.
Qed.

Lemma code_points_cons c s :
  is_leading_surrogate c = false -> is_trailing_surrogate c = false ->
  code_points (c :: s) = option_map (cons c) (code_points s).
Proof. intros L T. cbn [code_points]. rewrite L, T. reflexivity. Qed.

Lemma code_points_cons2 c c' s :
  code_points (c :: c' :: s) =
  if is_leading_surrogate c then
    if is_trailing_surrogate c'
    then option_map (cons (UTF16SurrogatePairToCodePoint c c'))
                    (code_points s)
    else None
  else if is_trailing_surrogate c then None
  else option_map (cons c) (code_points (c' :: s)).
Proof. reflexivity. Qed.

Lemma option_map_none {A B} (f : A -> B) o :
  option_map f o = None <-> o = None.
Proof. destruct o; cbn; split; intros H; try discriminate; reflexivity. Qed.

(** ** What QuoteJSONString writes *)

Lemma hex_char_low h : 0 <= h -> 48 <= hex_char h.
Proof. intros H. unfold hex_char. destruct (h <? 10); lia. Qed.

Lemma hex_char_unit h : 0 <= h < 16 -> 0 <= hex_char h < 65536.
Proof. intros H. unfold hex_char. destruct (h <? 10); lia. Qed.

Lemma hex_char_plain h : 0 <= h < 16 -> hex_char h < 0xD800.
Proof. intros H. unfold hex_char. destruct (h <? 10); lia. Qed.

Lemma quote_unit_no_newline c : ~ In 10 (quote_unit c).
Proof.
  unfold quote_unit.
  assert (U : ~ In 10 (UnicodeEscape c)).
  { unfold UnicodeEscape. cbn [In].
    pose proof (hex_char_low (Z.shiftr c 12 mod 16)
                  (proj1 (Z.mod_pos_bound _ 16 eq_refl))).
    pose proof (hex_char_low (Z.shiftr c 8 mod 16)
                  (proj1 (Z.mod_pos_bound _ 16 eq_refl))).
    pose proof (hex_char_low (Z.shiftr c 4 mod 16)
                  (proj1 (Z.mod_pos_bound _ 16 eq_refl))).
    pose proof (hex_char_low (c mod 16)
                  (proj1 (Z.mod_pos_bound _ 16 eq_refl))).
    intros [|[|[|[|[|[|[]]]]]]]; lia. }
  repeat match goal with
         | |- ~ In _ (if ?b then _ else _) => destruct b eqn:?
         end; try exact U; cbn [In]; try (intros [|[|[]]]; lia).
  intros [E|[]]. subst c. discriminate.
Qed.

(** No line feed is written as it is. *)
Lemma quote_units_no_newline s : ~ In 10 (quote_units s).
Proof.
  induction s as [| c | c c' s IH1 IH2] using pair_ind.
  - intros [].
  - apply quote_unit_no_newline.
  - change (quote_units (c :: c' :: s))
      with (if is_leading_surrogate c && is_trailing_surrogate c'
            then c :: c' :: quote_units s
            else quote_unit c ++ quote_units (c' :: s)).
    destruct (is_leading_surrogate c && is_trailing_surrogate c') eqn:E.
    + apply andb_true_iff in E. destruct E as [E1 E2].
      unfold is_leading_surrogate, is_trailing_surrogate, between in E1, E2.
      apply andb_true_iff in E1, E2.
      destruct E1 as [E1 _], E2 as [E2 _]. apply Z.leb_le in E1, E2.
      intros [H|[H|H]]; [lia | lia | exact (IH1 H)].
    + intros H. apply in_app_or in H. destruct H as [H|H].
      * exact (quote_unit_no_newline c H).
      * exact (IH2 H).
Qed.

Lemma code_units_app a b : code_units a -> code_units b -> code_units (a ++ b).
Proof. intros Ha Hb. apply Forall_app. split; assumption. Qed.

Lemma code_units_quote_unit c : 0 <= c < 65536 -> code_units (quote_unit c).
Proof.
  intros H. unfold quote_unit.
  assert (U : code_units (UnicodeEscape c)).
  { unfold UnicodeEscape, code_units.
    repeat (apply Forall_cons; [try lia; apply hex_char_unit;
                                apply Z.mod_pos_bound; reflexivity|]).
    constructor. }
  repeat match goal with
         | |- code_units (if ?b then _ else _) => destruct b
         end; try exact U; unfold code_units;
    repeat (apply Forall_cons; [lia|]); constructor.
Qed.

Lemma code_units_quote_units s : code_units s -> code_units (quote_units s).
Proof.
  induction s as [| c | c c' s IH1 IH2] using pair_ind; intros H.
  - constructor.
  - inversion H; subst. apply code_units_quote_unit. assumption.
  - inversion H as [|? ? Hc H1]; subst. inversion H1 as [|? ? Hc' H2]; subst.
    change (quote_units (c :: c' :: s))
      with (if is_leading_surrogate c && is_trailing_surrogate c'
            then c :: c' :: quote_units s
            else quote_unit c ++ quote_units (c' :: s)).
    destruct (is_leading_surrogate c && is_trailing_surrogate c').
    + apply Forall_cons; [exact Hc|]. apply Forall_cons; [exact Hc'|].
      exact (IH1 H2).
    + apply code_units_app; [apply code_units_quote_unit; exact Hc|].
      exact (IH2 H1).
Qed.

Lemma well_formed_app a b :
  well_formed a -> well_formed b -> well_formed (a ++ b).
Proof.
  unfold well_formed. intros Ha Hb. revert Ha.
  induction a as [| c | c c' a IH1 IH2] using pair_ind; intros Ha.
  - exact Hb.
  - cbn [code_points] in Ha.
    destruct (is_leading_surrogate c) eqn:L; [contradiction|].
    destruct (is_trailing_surrogate c) eqn:T; [contradiction|].
    cbn [app]. rewrite (code_points_cons c b L T).
    destruct (code_points b); [discriminate | contradiction].
  - change (code_points (c :: c' :: a))
      with (if is_leading_surrogate c then
              if is_trailing_surrogate c'
              then option_map (cons (UTF16SurrogatePairToCodePoint c c'))
                              (code_points a)
              else None
            else if is_trailing_surrogate c then None
            else option_map (cons c) (code_points (c' :: a))) in Ha.
    change (code_points ((c :: c' :: a) ++ b))
      with (if is_leading_surrogate c then
              if is_trailing_surrogate c'
              then option_map (cons (UTF16SurrogatePairToCodePoint c c'))
                              (code_points (a ++ b))
              else None
            else if is_trailing_surrogate c then None
            else option_map (cons c) (code_points ((c' :: a) ++ b))).
    destruct (is_leading_surrogate c).
    + destruct (is_trailing_surrogate c'); [|contradiction].
      destruct (code_points a) eqn:E; [|contradiction].
      assert (G := IH1 ltac:(discriminate)).
      destruct (code_points (a ++ b)); [discriminate | contradiction].
    + destruct (is_trailing_surrogate c); [contradiction|].
      destruct (code_points (c' :: a)) eqn:E; [|contradiction].
      assert (G := IH2 ltac:(discriminate)).
      destruct (code_points ((c' :: a) ++ b)); [discriminate | contradiction].
Qed.

Lemma well_formed_plain s :
  Forall (fun c => c < 0xD800) s -> well_formed s.
Proof.
  unfold well_formed. induction 1 as [|c s Hc _ IH]; [discriminate|].
  rewrite code_points_cons.
  - destruct (code_points s); [discriminate | contradiction].
  - apply between_false. lia.
  - apply between_false. lia.
Qed.

Lemma well_formed_quote_unit c : well_formed (quote_unit c).
Proof.
  unfold quote_unit.
  assert (U : well_formed (UnicodeEscape c)).
  { apply well_formed_plain. unfold UnicodeEscape.
    repeat (apply Forall_cons; [try lia; apply hex_char_plain;
                                apply Z.mod_pos_bound; reflexivity|]).
    constructor. }
  repeat match goal with
         | |- well_formed (if ?x =? ?y then _ else _) => destruct (x =? y)
         end;
    try (apply well_formed_plain; repeat (apply Forall_cons; [lia|]);
         constructor).
  destruct ((c <? 32) || is_leading_surrogate c || is_trailing_surrogate c)
    eqn:E; [exact U|].
  apply orb_false_iff in E. destruct E as [E T].
  apply orb_false_iff in E. destruct E as [_ L].
  unfold well_formed. rewrite (code_points_cons c [] L T). discriminate.
Qed.

(** A surrogate that stands alone is escaped, so none is left alone. *)
Lemma well_formed_quote_units s : well_formed (quote_units s).
Proof.
  induction s as [| c | c c' s IH1 IH2] using pair_ind.
  - discriminate.
  - apply well_formed_quote_unit.
  - change (quote_units (c :: c' :: s))
      with (if is_leading_surrogate c && is_trailing_surrogate c'
            then c :: c' :: quote_units s
            else quote_unit c ++ quote_units (c' :: s)).
    destruct (is_leading_surrogate c && is_trailing_surrogate c') eqn:E.
    + apply andb_true_iff in E. destruct E as [L T].
      unfold well_formed in *.
      change (code_points (c :: c' :: quote_units s))
        with (if is_leading_surrogate c then
                if is_trailing_surrogate c'
                then option_map (cons (UTF16SurrogatePairToCodePoint c c'))
                                (code_points (quote_units s))
                else None
              else if is_trailing_surrogate c then None
              else option_map (cons c) (code_points (c' :: quote_units s))).
      rewrite L, T.
      destruct (code_points (quote_units s)); [discriminate | contradiction].
    + apply well_formed_app; [apply well_formed_quote_unit | exact IH2].
Qed.

End TextFacts.

(* ================================================================== *)
(** * UTF-8: what the decoder makes of encoded text *)
(* ================================================================== *)

Module Utf8Facts.
Import JS JSFacts Text ApiService TextFacts.

(** ** Bits as arithmetic *)

Lemma land_shifted a r n :
  0 <= n -> 0 <= r < 2 ^ n -> Z.land (a * 2 ^ n) r = 0.
Proof.
  intros Hn Hr. apply Z.bits_inj'. intros i Hi.
  rewrite Z.land_spec, Z.bits_0.
  destruct (Z.lt_ge_cases i n) as [L|G].
  - rewrite Z.mul_pow2_bits_low by lia. reflexivity.
  - destruct (Z.eq_dec r 0) as [->|Hz].
    + rewrite Z.bits_0. apply andb_false_r.
    + rewrite (Z.bits_above_log2 r i); [apply andb_false_r | lia|].
      apply Z.lt_le_trans with n; [|exact G].
      apply Z.log2_lt_pow2; lia.
Qed.

Lemma lor_shifted a r n :
  0 <= n -> 0 <= r < 2 ^ n -> Z.lor (a * 2 ^ n) r = a * 2 ^ n + r.
Proof.
  intros Hn Hr. pose proof (Z.add_lor_land (a * 2 ^ n) r) as H.
  rewrite (land_shifted a r n Hn Hr) in H. lia.
Qed.

Lemma continuation_eq x :
  Z.lor 0x80 (Z.land x 0x3F) = 128 + x mod 64.
Proof.
  change 0x3F with (Z.ones 6). rewrite Z.land_ones by lia.
  change (2 ^ 6) with 64.
  pose proof (Z.mod_pos_bound x 64 eq_refl).
  exact (lor_shifted 2 (x mod 64) 6 ltac:(lia) ltac:(change (2 ^ 6) with 64; lia)).
Qed.

Lemma land_low b n k q :
  0 <= n -> b = q + k * 2 ^ n -> 0 <= q < 2 ^ n ->
  Z.land b (Z.ones n) = q.
Proof.
  intros Hn -> Hq. rewrite Z.land_ones by exact Hn.
  rewrite Z.mod_add by lia. apply Z.mod_small. exact Hq.
Qed.

Lemma push_bits acc b r :
  b = 128 + r -> 0 <= r < 64 ->
  Z.lor (Z.shiftl acc 6) (Z.land b 0x3F) = acc * 64 + r.
Proof.
  intros -> Hr. change 0x3F with (Z.ones 6).
  rewrite (land_low (128 + r) 6 2 r) by (change (2 ^ 6) with 64; lia).
  rewrite Z.shiftl_mul_pow2 by lia.
  apply lor_shifted; [lia | change (2 ^ 6) with 64; lia].
Qed.

(** ** The decoder, byte by byte *)

Lemma decode_quiet d b d1 rest :
  utf8_byte d b = (d1, []) -> decode d (b :: rest) = decode d1 rest.
Proof.
  intros H. cbn [decode]. rewrite H. cbn [serialize_all].
  destruct (decode d1 rest). reflexivity.
Qed.

Lemma decode_last d b d1 cp :
  utf8_byte d b = (d1, [cp]) -> decode d [b] = serialize d1 cp.
Proof.
  intros H. cbn [decode]. rewrite H. cbn [serialize_all].
  destruct (serialize d1 cp) as [d2 s]. rewrite !app_nil_r. reflexivity.
Qed.

Lemma utf8_byte_continue d b r :
  bytes_needed d <> 0 -> b = 128 + r -> 0 <= r < 64 ->
  lower_boundary d <= b <= upper_boundary d ->
  utf8_byte d b =
  if bytes_seen d + 1 =? bytes_needed d
  then (utf8_reset d, [code_point d * 64 + r])
  else ({| code_point := code_point d * 64 + r;
           bytes_seen := bytes_seen d + 1;
           bytes_needed := bytes_needed d;
           lower_boundary := 0x80; upper_boundary := 0xBF;
           BOM_seen := BOM_seen d |}, []).
Proof.
  intros Hn Hb Hr Hbound. unfold utf8_byte.
  replace (bytes_needed d =? 0) with false
    by (symmetry; apply Z.eqb_neq; exact Hn).
  rewrite (between_true _ _ _ Hbound). cbn [negb].
  rewrite (push_bits (code_point d) b r Hb Hr).
  destruct (bytes_seen d + 1 =? bytes_needed d); reflexivity.
Qed.

Lemma serialize_ground b cp :
  serialize (ground b) cp
  = (ground true, if negb b && (cp =? 0xFEFF) then [] else utf16 cp).
Proof.
  unfold serialize, ground. cbn [BOM_seen code_point bytes_seen bytes_needed
                                 lower_boundary upper_boundary].
  destruct b; [reflexivity|]. cbn [negb andb].
  destruct (cp =? 0xFEFF); reflexivity.
Qed.

Ltac arith := Z.div_mod_to_equations; lia.

(** The octets of a scalar value give it back, as UTF-16, and leave no
    sequence in progress; a byte order mark that comes first is
    dropped. *)
Lemma decode_one b cp :
  scalar cp ->
  decode (ground b) (utf8_octets cp)
  = (ground true, if negb b && (cp =? 0xFEFF) then [] else utf16 cp).
Proof.
  intros [Hr Hs]. unfold utf8_octets.
  rewrite !continuation_eq.
  change (6 * 0) with 0. change (6 * 1) with 6. change (6 * 2) with 12.
  rewrite Z.shiftr_0_r.
  rewrite !Z.shiftr_div_pow2 by lia.
  change (2 ^ 6) with 64. change (2 ^ 12) with 4096.
  change (2 ^ 18) with 262144.
  destruct (cp <? 0x80) eqn:E1; [apply Z.ltb_lt in E1 | apply Z.ltb_ge in E1].
  { rewrite (decode_last (ground b) cp (ground b) cp).
    - apply serialize_ground.
    - unfold utf8_byte, utf8_lead. cbn [bytes_needed ground].
      change (0 =? 0) with true. cbv iota.
      rewrite (between_true 0 127 cp) by lia. reflexivity. }
  destruct (cp <? 0x800) eqn:E2; [apply Z.ltb_lt in E2 | apply Z.ltb_ge in E2].
  { set (b1 := cp / 64 + 192).
    assert (L : utf8_byte (ground b) b1 =
                ({| code_point := cp / 64; bytes_seen := 0; bytes_needed := 1;
                    lower_boundary := 0x80; upper_boundary := 0xBF;
                    BOM_seen := b |}, [])).
    { unfold utf8_byte, utf8_lead. cbn [bytes_needed ground BOM_seen].
      change (0 =? 0) with true. cbv iota.
      rewrite (between_false 0 127 b1) by (subst b1; arith).
      rewrite (between_true 194 223 b1) by (subst b1; arith).
      change 0x1F with (Z.ones 5).
      rewrite (land_low b1 5 6 (cp / 64)); [reflexivity | lia | subst b1; lia|].
      change (2 ^ 5) with 32. arith. }
    rewrite (decode_quiet _ _ _ _ L).
    rewrite (decode_last _ (128 + cp mod 64) (ground b) cp).
    - apply serialize_ground.
    - rewrite (utf8_byte_continue _ _ (cp mod 64));
        cbn [bytes_needed bytes_seen code_point lower_boundary upper_boundary];
        try arith; try reflexivity.
      cbn [Z.add Z.eqb Pos.eqb Pos.add Pos.succ]. unfold utf8_reset. cbn [BOM_seen].
      f_equal. f_equal. arith. }
  destruct (cp <? 0x10000) eqn:E3;
    [apply Z.ltb_lt in E3 | apply Z.ltb_ge in E3].
  { set (b1 := cp / 4096 + 224).
    assert (L : utf8_byte (ground b) b1 =
                ({| code_point := cp / 4096; bytes_seen := 0;
                    bytes_needed := 2;
                    lower_boundary := if b1 =? 0xE0 then 0xA0 else 0x80;
                    upper_boundary := if b1 =? 0xED then 0x9F else 0xBF;
                    BOM_seen := b |}, [])).
    { unfold utf8_byte, utf8_lead. cbn [bytes_needed ground BOM_seen].
      change (0 =? 0) with true. cbv iota.
      rewrite (between_false 0 127 b1) by (subst b1; arith).
      rewrite (between_false 194 223 b1) by (subst b1; arith).
      rewrite (between_true 224 239 b1) by (subst b1; arith).
      change 0xF with (Z.ones 4).
      rewrite (land_low b1 4 14 (cp / 4096));
        [reflexivity | lia | subst b1; lia|].
      change (2 ^ 4) with 16. arith. }
    rewrite (decode_quiet _ _ _ _ L).
    assert (M : utf8_byte
                  {| code_point := cp / 4096; bytes_seen := 0;
                     bytes_needed := 2;
                     lower_boundary := if b1 =? 0xE0 then 0xA0 else 0x80;
                     upper_boundary := if b1 =? 0xED then 0x9F else 0xBF;
                     BOM_seen := b |} (128 + (cp / 64) mod 64) =
                ({| code_point := cp / 64; bytes_seen := 1;
                    bytes_needed := 2;
                    lower_boundary := 0x80; upper_boundary := 0xBF;
                    BOM_seen := b |}, [])).
    { rewrite (utf8_byte_continue _ _ ((cp / 64) mod 64));
        cbn [bytes_needed bytes_seen code_point lower_boundary upper_boundary
             BOM_seen];
        try arith; try reflexivity.
      - cbn [Z.add Z.eqb Pos.eqb Pos.add Pos.succ]. f_equal. f_equal. arith.
      - destruct (b1 =? 224) eqn:A; [apply Z.eqb_eq in A|];
          destruct (b1 =? 237) eqn:B; try apply Z.eqb_eq in B;
          subst b1; arith. }
    rewrite (decode_quiet _ _ _ _ M).
    rewrite (decode_last _ (128 + cp mod 64) (ground b) cp).
    - apply serialize_ground.
    - rewrite (utf8_byte_continue _ _ (cp mod 64));
        cbn [bytes_needed bytes_seen code_point lower_boundary upper_boundary];
        try arith; try reflexivity.
      cbn [Z.add Z.eqb Pos.eqb Pos.add Pos.succ]. unfold utf8_reset. cbn [BOM_seen].
      f_equal. f_equal. arith. }
  set (b1 := cp / 262144 + 240).
  assert (L : utf8_byte (ground b) b1 =
              ({| code_point := cp / 262144; bytes_seen := 0;
                  bytes_needed := 3;
                  lower_boundary := if b1 =? 0xF0 then 0x90 else 0x80;
                  upper_boundary := if b1 =? 0xF4 then 0x8F else 0xBF;
                  BOM_seen := b |}, [])).
  { unfold utf8_byte, utf8_lead. cbn [bytes_needed ground BOM_seen].
    change (0 =? 0) with true. cbv iota.
    rewrite (between_false 0 127 b1) by (subst b1; arith).
    rewrite (between_false 194 223 b1) by (subst b1; arith).
    rewrite (between_false 224 239 b1) by (subst b1; arith).
    rewrite (between_true 240 244 b1) by (subst b1; arith).
    change 0x7 with (Z.ones 3).
    rewrite (land_low b1 3 30 (cp / 262144));
      [reflexivity | lia | subst b1; lia|].
    change (2 ^ 3) with 8. arith. }
  rewrite (decode_quiet _ _ _ _ L).
  assert (M : utf8_byte
                {| code_point := cp / 262144; bytes_seen := 0;
                   bytes_needed := 3;
                   lower_boundary := if b1 =? 0xF0 then 0x90 else 0x80;
                   upper_boundary := if b1 =? 0xF4 then 0x8F else 0xBF;
                   BOM_seen := b |} (128 + (cp / 4096) mod 64) =
              ({| code_point := cp / 4096; bytes_seen := 1;
                  bytes_needed := 3;
                  lower_boundary := 0x80; upper_boundary := 0xBF;
                  BOM_seen := b |}, [])).
  { rewrite (utf8_byte_continue _ _ ((cp / 4096) mod 64));
      cbn [bytes_needed bytes_seen code_point lower_boundary upper_boundary
           BOM_seen];
      try arith; try reflexivity.
    - cbn [Z.add Z.eqb Pos.eqb Pos.add Pos.succ]. f_equal. f_equal. arith.
    - destruct (b1 =? 240) eqn:A; [apply Z.eqb_eq in A|];
        destruct (b1 =? 244) eqn:B; try apply Z.eqb_eq in B;
        subst b1; arith. }
  rewrite (decode_quiet _ _ _ _ M).
  assert (N : utf8_byte
                {| code_point := cp / 4096; bytes_seen := 1;
                   bytes_needed := 3;
                   lower_boundary := 0x80; upper_boundary := 0xBF;
                   BOM_seen := b |} (128 + (cp / 64) mod 64) =
              ({| code_point := cp / 64; bytes_seen := 2;
                  bytes_needed := 3;
                  lower_boundary := 0x80; upper_boundary := 0xBF;
                  BOM_seen := b |}, [])).
  { rewrite (utf8_byte_continue _ _ ((cp / 64) mod 64));
      cbn [bytes_needed bytes_seen code_point lower_boundary upper_boundary
           BOM_seen];
      try arith; try reflexivity.
    cbn [Z.add Z.eqb Pos.eqb Pos.add Pos.succ]. f_equal. f_equal. arith. }
  rewrite (decode_quiet _ _ _ _ N).
  rewrite (decode_last _ (128 + cp mod 64) (ground b) cp).
  - apply serialize_ground.
  - rewrite (utf8_byte_continue _ _ (cp mod 64));
      cbn [bytes_needed bytes_seen code_point lower_boundary upper_boundary];
      try arith; try reflexivity.
    cbn [Z.add Z.eqb Pos.eqb Pos.add Pos.succ]. unfold utf8_reset.
    cbn [BOM_seen]. f_equal. f_equal. arith.
Qed.

Lemma utf16_pair c c' :
  is_leading_surrogate c = true -> is_trailing_surrogate c' = true ->
  scalar (UTF16SurrogatePairToCodePoint c c') /\
  utf16 (UTF16SurrogatePairToCodePoint c c') = [c; c'].
Proof.
  intros H1 H2. apply surrogate_range in H1, H2.
  unfold UTF16SurrogatePairToCodePoint, scalar. split; [lia|].
  unfold utf16.
  replace (_ <? 0x10000) with false by (symmetry; apply Z.ltb_ge; lia).
  rewrite Z.shiftr_div_pow2 by lia. change 0x3FF with (Z.ones 10).
  rewrite Z.land_ones by lia. change (2 ^ 10) with 1024.
  f_equal; [|f_equal]; Z.div_mod_to_equations; lia.
Qed.

Lemma code_points_spec s :
  code_units s ->
  forall cps, code_points s = Some cps ->
  Forall scalar cps /\ concat (map utf16 cps) = s.
Proof.
  induction s as [| c | c c' s IH1 IH2] using pair_ind; intros Hs cps.
  - intros H. injection H as <-. split; [constructor | reflexivity].
  - cbn [code_points]. inversion Hs as [|? ? Hc _]; subst.
    destruct (is_leading_surrogate c) eqn:L; [discriminate|].
    destruct (is_trailing_surrogate c) eqn:T; [discriminate|].
    cbn [option_map]. intros H. injection H as <-.
    split; [repeat constructor; [lia | lia | exact (not_surrogate c L T)]|].
    cbn [map concat]. unfold utf16.
    replace (c <? 0x10000) with true by (symmetry; apply Z.ltb_lt; lia).
    reflexivity.
  - inversion Hs as [|? ? Hc Hs1]; subst.
    inversion Hs1 as [|? ? Hc' Hs2]; subst.
    change (code_points (c :: c' :: s))
      with (if is_leading_surrogate c then
              if is_trailing_surrogate c'
              then option_map (cons (UTF16SurrogatePairToCodePoint c c'))
                              (code_points s)
              else None
            else if is_trailing_surrogate c then None
            else option_map (cons c) (code_points (c' :: s))).
    destruct (is_leading_surrogate c) eqn:L.
    + destruct (is_trailing_surrogate c') eqn:T; [|discriminate].
      destruct (code_points s) as [cps'|] eqn:E; [|discriminate].
      cbn [option_map]. intros H. injection H as <-.
      destruct (IH1 Hs2 cps' eq_refl) as [F C].
      destruct (utf16_pair c c' L T) as [S U].
      split; [constructor; assumption|].
      cbn [map concat]. rewrite U, C. reflexivity.
    + destruct (is_trailing_surrogate c) eqn:T; [discriminate|].
      destruct (code_points (c' :: s)) as [cps'|] eqn:E; [|discriminate].
      cbn [option_map]. intros H. injection H as <-.
      destruct (IH2 Hs1 cps' eq_refl) as [F C].
      split; [constructor;
              [split; [lia | exact (not_surrogate c L T)] | exact F]|].
      cbn [map concat]. rewrite C. unfold utf16.
      replace (c <? 0x10000) with true by (symmetry; apply Z.ltb_lt; lia).
      reflexivity.
Qed.

Lemma decode_scalars cps :
  Forall scalar cps ->
  forall b,
    decode (ground b) (flat_map utf8_octets cps)
    = (ground (b || negb (is_empty cps)),
       match cps with
       | cp :: cps' =>
           (if negb b && (cp =? 0xFEFF) then [] else utf16 cp)
           ++ concat (map utf16 cps')
       | [] => []
       end).
Proof.
  induction 1 as [|cp cps Hcp _ IH]; intros b.
  - cbn. rewrite orb_false_r. reflexivity.
  - cbn [flat_map]. rewrite decode_app, (decode_one b cp Hcp).
    rewrite (IH true). cbn [orb is_empty negb]. rewrite orb_true_r.
    f_equal. f_equal. destruct cps as [|cp' cps]; [reflexivity|].
    cbn [negb andb map concat]. reflexivity.
Qed.

(** Decoding the UTF-8 encoding of a string gives the string, less a
    byte order mark at its start. *)
Lemma decode_utf8 text bytes :
  code_units text -> utf8_encode text = Some bytes ->
  decode new_TextDecoder bytes
  = (ground (negb (is_empty text)),
     if startsWith text [0xFEFF] then skipn 1 text else text).
Proof.
  intros Hu H. unfold utf8_encode in H.
  destruct (code_points text) as [cps|] eqn:E; [|discriminate].
  injection H as <-.
  destruct (code_points_spec text Hu cps E) as [F C].
  change new_TextDecoder with (ground false).
  rewrite (decode_scalars cps F false). cbn [orb negb andb].
  destruct cps as [|cp cps].
  - cbn in C. subst text. reflexivity.
  - cbn [map concat] in C. inversion F as [|? ? Hcp _]; subst.
    destruct (cp =? 0xFEFF) eqn:B.
    + apply Z.eqb_eq in B. subst cp. change (utf16 65279) with [65279].
      cbn [app is_empty negb startsWith skipn].
      rewrite startsWith_nil. reflexivity.
    + assert (U : exists u rest, utf16 cp = u :: rest /\
                    (u =? 0xFEFF) = false).
      { unfold utf16. destruct (cp <? 0x10000) eqn:L.
        - exists cp, []. auto.
        - eexists _, _. split; [reflexivity|]. apply Z.eqb_neq.
          apply Z.ltb_ge in L. destruct Hcp as [Hr _].
          rewrite Z.shiftr_div_pow2 by lia. change (2 ^ 10) with 1024.
          Z.div_mod_to_equations. lia. }
      destruct U as (u & rest & -> & Hu').
      cbn [app is_empty negb startsWith]. rewrite Hu'. reflexivity.
Qed.

Lemma utf8_octets_range cp :
  0 <= cp < 0x110000 -> Forall (fun o => 0 <= o < 256) (utf8_octets cp).
Proof.
  intros H. unfold utf8_octets. rewrite !continuation_eq.
  rewrite !Z.shiftr_div_pow2 by lia.
  change (2 ^ 6) with 64. change (2 ^ 12) with 4096.
  change (2 ^ 18) with 262144.
  destruct (cp <? 0x80) eqn:E1; [apply Z.ltb_lt in E1 | apply Z.ltb_ge in E1];
    [repeat constructor; lia|].
  destruct (cp <? 0x800) eqn:E2;
    [apply Z.ltb_lt in E2 | apply Z.ltb_ge in E2];
    [repeat (apply Forall_cons; [arith|]); constructor|].
  destruct (cp <? 0x10000) eqn:E3;
    [apply Z.ltb_lt in E3 | apply Z.ltb_ge in E3];
    repeat (apply Forall_cons; [arith|]); constructor.
Qed.

End Utf8Facts.

(* ================================================================== *)
(** * Lines: framing and the records they carry *)
(* ================================================================== *)

Module Framing.
Import JS JSFacts ChatWindow ChatWindowFacts ApiService Requests.
Import Text TextFacts Wire.

Lemma handleLine_trim a b :
  trim a = trim b -> forall s, handleLine a s = handleLine b s.
Proof. intros E s. unfold handleLine. rewrite E. reflexivity. Qed.

Lemma decodeLine_trim a b : trim a = trim b -> decodeLine a = decodeLine b.
Proof. intros E. unfold decodeLine. rewrite E. reflexivity. Qed.

Lemma line_text_trim a b : trim a = trim b -> line_text a = line_text b.
Proof. intros E. unfold line_text. rewrite (decodeLine_trim a b E). reflexivity. Qed.

Lemma line_labels_trim a b : trim a = trim b -> line_labels a = line_labels b.
Proof.
  intros E. unfold line_labels. rewrite (decodeLine_trim a b E). reflexivity.
Qed.

Lemma exec_handleLine_fields l s :
  latestAnswer (exec (handleLine l) s) = latestAnswer s ++ line_text l /\
  answer (exec (handleLine l) s) = answer s ++ line_text l /\
  statusMessages (exec (handleLine l) s) = statusMessages s ++ line_labels l /\
  calls (exec (handleLine l) s) = calls s ++ line_log l.
Proof.
  unfold exec. rewrite handleLine_run. cbn [snd].
  unfold apply_lines.
  cbn [latestAnswer answer statusMessages calls map concat].
  rewrite !app_nil_r. repeat split.
Qed.

(** X1. White space around a line is ignored: a line with white space
    before and after it (spaces, tabs, a carriage return, a byte order
    mark) is handled exactly as the line without it and carries the same
    record. So a stream whose lines end in CR LF is read like one whose
    lines end in LF. *)
Theorem surrounding_whitespace_is_ignored pre line post :
  forallb is_whitespace pre = true -> forallb is_whitespace post = true ->
  (forall s, handleLine (pre ++ line ++ post) s = handleLine line s) /\
  decodeLine (pre ++ line ++ post) = decodeLine line /\
  (forall s, handleLine (line ++ [13]) s = handleLine line s).
Proof.
  intros Hpre Hpost. split; [|split].
  - apply handleLine_trim, trim_app_ws; assumption.
  - apply decodeLine_trim, trim_app_ws; assumption.
  - apply handleLine_trim. apply (trim_app_ws [] line [13]); reflexivity.
Qed.

Lemma surrounding_whitespace_witness :
  let line := json_text "{'event':'text','payload':'x'}" in
  decodeLine ([32; 9] ++ line ++ [13; 0xFEFF]) = decodeLine line /\
  latestAnswer
    (exec (handleLine ([32; 9] ++ line ++ [13; 0xFEFF])) example_stream)
  = lit "ax".
Proof.
  cbv zeta.
  destruct (surrounding_whitespace_is_ignored
              [32; 9] (json_text "{'event':'text','payload':'x'}")
              [13; 0xFEFF] eq_refl eq_refl) as (H1 & H2 & _).
  split; [exact H2|]. unfold exec. rewrite H1. vm_compute. reflexivity.
Defined.





(** X3. A [data:] line with nothing after the prefix is not a blank
    line: its content is the empty string, which is not JSON text, so
    the line is reported on the console as a parse error; nothing else
    changes. *)
Theorem empty_data_line_is_logged w s :
  forallb is_whitespace w = true ->
  handleLine (lit "data:" ++ w) s =
  (Normal tt,
   with_calls
     (calls s ++ [console_error (ErrorInstance SyntaxError []) (lit "data:")])
     s).
Proof.
  intros Hw.
  assert (T : trim (lit "data:" ++ w) = lit "data:").
  { exact (trim_app_ws [] (lit "data:") w eq_refl Hw). }
  rewrite handleLine_run. f_equal.
  unfold apply_lines, line_text, line_labels, line_log, decodeLine.
  cbn [map concat]. rewrite T. cbn. rewrite !app_nil_r.
  destruct s; reflexivity.
Qed.

Lemma empty_data_line_witness :
  calls (exec (handleLine (lit "data:" ++ [32; 13])) example_stream)
  = [reader_read;
     console_error (ErrorInstance SyntaxError []) (lit "data:")].
Proof.
  unfold exec.
  rewrite (empty_data_line_is_logged [32; 13] example_stream eq_refl).
  reflexivity.
Defined.

(** ** Records with a string payload *)

Lemma stringify_record kind text :
  JSON_stringify (record kind (VString text)) = Some (record_line kind text).
Proof.
  change (JSON_stringify (record kind (VString text)))
    with (Some (json_text "{'event':'"
                ++ ((quote_units kind ++ [34])
                    ++ json_text ",'payload':'" ++ quote_units text ++ [34])
                   ++ [125])).
  unfold record_line. f_equal. f_equal.
  rewrite <- !app_assoc. reflexivity.
Qed.

Lemma lex_run_string q acc :
  code_units q ->
  lex_run (LString acc) (quote_units q ++ [34])
  = (LIdle, [TString (rev acc ++ q)]).
Proof.
  intros Hq. rewrite lex_run_app, (lex_quote_units q Hq acc).
  cbn [lex_run lex_step]. change (34 =? 34) with true. cbv iota.
  cbn [app]. rewrite rev_app_distr, rev_involutive. reflexivity.
Qed.

Lemma lex_record_line kind text :
  code_units kind -> code_units text ->
  lex (record_line kind text)
  = Some [TLBrace; TString (lit "event"); TColon; TString kind; TComma;
          TString (lit "payload"); TColon; TString text; TRBrace].
Proof.
  intros Hk Ht. unfold lex, record_line.
  change (json_text "','payload':'") with ([34] ++ json_text ",'payload':'").
  change (json_text "'}") with ([34] ++ [125]).
  rewrite !app_assoc.
  rewrite <- (app_assoc (json_text "{'event':'") (quote_units kind) [34]).
  rewrite <- !app_assoc.
  rewrite (app_assoc (quote_units kind)), (app_assoc (quote_units text)).
  rewrite lex_run_app.
  change (lex_run LIdle (json_text "{'event':'"))
    with (LString [], [TLBrace; TString (lit "event"); TColon]).
  cbv beta iota.
  rewrite lex_run_app, (lex_run_string kind [] Hk).
  rewrite lex_run_app.
  change (lex_run LIdle (json_text ",'payload':'"))
    with (LString [], [TComma; TString (lit "payload"); TColon]).
  cbv beta iota.
  rewrite lex_run_app, (lex_run_string text [] Ht).
  reflexivity.
Qed.

Lemma decode_record_line kind text :
  code_units kind -> code_units text ->
  decodeLine (record_line kind text) = Some (record kind (VString text)).
Proof.
  intros Hk Ht.
  assert (T : trim (record_line kind text) = record_line kind text).
  { unfold record_line.
    change (json_text "{'event':'") with (123 :: json_text "'event':'").
    change (json_text "'}") with ([34] ++ [125]).
    rewrite <- app_comm_cons. rewrite !app_assoc.
    apply trim_solid; reflexivity. }
  unfold decodeLine. rewrite T.
  change (is_empty (record_line kind text)) with false. cbv iota.
  change (replace_data_prefix (record_line kind text))
    with (record_line kind text).
  unfold JSON_parse. rewrite (lex_record_line kind text Hk Ht).
  reflexivity.
Qed.

Lemma kind_is_record k kind p :
  is_empty k = false -> kind_is k (record kind p) = str_eqb kind k.
Proof.
  intros Hk. unfold kind_is, eventType, record, get.
  change (lookup (lit "event")
            [(lit "event", VString kind); (lit "payload", p)])
    with (Some (VString kind)).
  destruct kind as [|c kind]; [|reflexivity].
  destruct k; [discriminate | reflexivity].
Qed.

Lemma record_line_no_newline kind text : ~ In 10 (record_line kind text).
Proof.
  unfold record_line. intros H.
  repeat (apply in_app_or in H; destruct H as [H|H]).
  - cbn in H. intuition discriminate.
  - exact (quote_units_no_newline _ H).
  - cbn in H. intuition discriminate.
  - exact (quote_units_no_newline _ H).
  - cbn in H. intuition discriminate.
Qed.

(** X4. A record with a string payload survives the line format: what
    [JSON.stringify] writes for the record [{event, payload}] holds no
    line feed, and [handleLine] reads the same record back from it,
    whatever code units the payload holds (quotes, backslashes, control
    characters, line feeds, surrogates alone or in pairs). A [text]
    record then adds exactly its payload to the answer, a [status] or
    [error] record with a payload that is not empty exactly one label,
    and nothing is written to the console. *)
Theorem record_round_trip kind text :
  code_units kind -> code_units text ->
  exists line,
    JSON_stringify (record kind (VString text)) = Some line /\
    ~ In 10 line /\
    decodeLine line = Some (record kind (VString text)) /\
    forall s,
      let s' := exec (handleLine line) s in
      latestAnswer s'
      = latestAnswer s ++ (if str_eqb kind (lit "text") then text else []) /\
      answer s'
      = answer s ++ (if str_eqb kind (lit "text") then text else []) /\
      statusMessages s'
      = statusMessages s ++
        (if is_empty text then []
         else if str_eqb kind (lit "status") then [text]
         else if str_eqb kind (lit "error") then [cross_mark ++ text]
         else []) /\
      calls s' = calls s.
Proof.
  intros Hk Ht. exists (record_line kind text).
  pose proof (decode_record_line kind text Hk Ht) as D.
  split; [apply stringify_record|].
  split; [apply record_line_no_newline|].
  split; [exact D|]. intros s s'. subst s'.
  destruct (exec_handleLine_fields (record_line kind text) s)
    as (-> & -> & -> & ->).
  unfold line_text, line_labels, line_log. rewrite D.
  unfold decodeLine in D.
  destruct (is_empty (trim (record_line kind text))); [discriminate|].
  destruct (JSON_parse (replace_data_prefix (trim (record_line kind text))))
    as [e|data]; [discriminate|].
  injection D as ->.
  unfold labels_of, text_payload.
  rewrite !kind_is_record by reflexivity.
  change (payload (record kind (VString text))) with (VString text).
  cbn [label_text].
  assert (E : exists t, eventType (record kind (VString text)) = inr t).
  { unfold eventType, record, get.
    change (lookup (lit "event")
              [(lit "event", VString kind); (lit "payload", VString text)])
      with (Some (VString kind)).
    destruct (truthy (VString kind)); eexists; reflexivity. }
  destruct E as [t ->]. rewrite app_nil_r.
  repeat split.
  destruct (str_eqb kind (lit "status")), (str_eqb kind (lit "error")),
    (is_empty text); reflexivity.
Qed.

Lemma record_round_trip_witness :
  let text := [0xBC95; 34; 92; 10; 0xD83D; 0xDC4B; 0xD800] in
  exists line,
    JSON_stringify (record (lit "text") (VString text)) = Some line /\
    decodeLine line = Some (record (lit "text") (VString text)) /\
    latestAnswer (exec (handleLine line) example_stream) = lit "a" ++ text.
Proof.
  cbv zeta.
  destruct (record_round_trip
              (lit "text") [0xBC95; 34; 92; 10; 0xD83D; 0xDC4B; 0xD800])
    as (line & H1 & _ & H3 & H4).
  - unfold code_units. repeat constructor; cbn; discriminate.
  - unfold code_units. repeat constructor; cbn; discriminate.
  - exists line. split; [exact H1|]. split; [exact H3|].
    destruct (H4 example_stream) as (H5 & _). cbv zeta in H5.
    rewrite H5. reflexivity.
Defined.

End Framing.

(* ================================================================== *)
(** * Failures: a refused response, a rejected promise *)
(* ================================================================== *)

Module Failures.
Import JS JSFacts ChatWindow ChatWindowFacts Trace.

Lemma resume_end piece s s1 :
  piece s = (Normal None, s1) -> isCancelled s1 = false ->
  resume piece s = ended s1.
Proof.
  intros HP HC. unfold resume, finish. rewrite HP.
  rewrite fetchStream_finally_run, HC. reflexivity.
Qed.

Lemma resume_throw e s :
  isCancelled s = false ->
  resume (throw e) s =
  let message := match e with
                 | ErrorInstance _ m => m
                 | Thrown _ => unknown_error_message
                 end in
  ended (with_calls (calls s ++ [onStreamError message])
           (with_statusMessages (statusMessages s ++ error_label message) s)).
Proof.
  intros HC. unfold resume, throw, fetchStream_catch, bind, read.
  rewrite HC. rewrite pushStatus_run. unfold do_call, write.
  unfold finish. rewrite fetchStream_finally_run.
  cbn [isCancelled with_calls with_statusMessages]. rewrite HC.
  cbn [label_text]. unfold error_label.
  destruct e as [n m|v]; reflexivity.
Qed.

Lemma resume_throw_cancelled e s :
  isCancelled s = true ->
  resume (throw e) s = with_fetchStream returned s.
Proof.
  intros HC. unfold resume, throw, fetchStream_catch, bind, read.
  rewrite HC. unfold ret, finish. rewrite fetchStream_finally_run, HC.
  reflexivity.
Qed.

Lemma step_refused s r message :
  fetchStream s = await_fetch -> isCancelled s = false ->
  (ok r = false /\
   message = lit "HTTP " ++ decimal (status r) ++ lit ": " ++ statusText r) \/
  (ok r = true /\ has_body r = false /\ message = empty_stream_message) ->
  step s (fetch_resolved r) =
  ended (with_statusMessages (statusMessages s ++ [cross_mark ++ message]) s).
Proof.
  intros HF HC H. unfold step. rewrite HF.
  apply resume_end; [|exact HC].
  unfold after_fetch, bind.
  destruct H as [[Hok ->]|(Hok & Hb & ->)]; rewrite Hok; cbn [negb];
    [|rewrite Hb; cbn [negb]]; rewrite pushStatus_run; reflexivity.
Qed.

(** Once [fetchStream] is over, only the cleanup adds to the trace. *)
Lemma run_over events : forall s,
  awaiting s = false ->
  let s' := run s events in
  latestAnswer s' = latestAnswer s /\ answer s' = answer s /\
  statusMessages s' = statusMessages s /\ isStreaming s' = isStreaming s /\
  fetchStream s' = fetchStream s /\
  exists extra,
    calls s' = calls s ++ extra /\
    Forall (fun c => c = controller_abort \/ c = reader_cancel) extra.
Proof.
  induction events as [|ev events IH]; intros s HA.
  - cbn. do 5 (split; [reflexivity|]).
    exists []. rewrite app_nil_r. split; constructor.
  - cbn [run fold_left]. fold (run (step s ev) events).
    assert (S : step s ev = s \/ step s ev = effect_cleanup s).
    { unfold awaiting in HA. unfold step.
      destruct ev, (fetchStream s); try discriminate; auto. }
    destruct S as [->| ->]; [apply IH; exact HA|].
    assert (HA' : awaiting (effect_cleanup s) = false).
    { unfold effect_cleanup, awaiting in *.
      cbn [reader with_calls with_isCancelled].
      destruct (reader s); exact HA. }
    destruct (IH _ HA') as (H1 & H2 & H3 & H4 & H5 & extra & HK & HQ).
    cbv zeta. rewrite H1, H2, H3, H4, H5.
    assert (C : exists pre,
               calls (effect_cleanup s) = calls s ++ pre /\
               Forall (fun c => c = controller_abort \/ c = reader_cancel)
                      pre).
    { unfold effect_cleanup. cbn [reader with_calls with_isCancelled calls].
      destruct (reader s); cbn [calls with_calls with_isCancelled].
      - exists [controller_abort; reader_cancel].
        rewrite <- app_assoc. split; [reflexivity|].
        repeat (apply Forall_cons; [auto|]). apply Forall_nil.
      - exists [controller_abort]. split; [reflexivity|].
        repeat (apply Forall_cons; [auto|]). apply Forall_nil. }
    destruct C as (pre & HC & HP).
    do 5 (split; [unfold effect_cleanup;
                  cbn [reader with_calls with_isCancelled];
                  destruct (reader s); reflexivity|]).
    exists (pre ++ extra). rewrite HK, HC, app_assoc.
    split; [reflexivity|]. apply Forall_app. split; assumption.
Qed.

Lemma ended_fields s :
  statusMessages (ended s) = statusMessages s /\
  answer (ended s) = answer s /\ latestAnswer (ended s) = latestAnswer s /\
  isStreaming (ended s) = false /\ fetchStream (ended s) = returned /\
  calls (ended s) = calls s ++ [onStreamComplete (latestAnswer s)] /\
  isCancelled (ended s) = isCancelled s.
Proof. repeat split. Qed.


Lemma run_refused c s0 r events :
  effect c = Some s0 ->
  ok r = false \/ has_body r = false ->
  let message :=
    if ok r then empty_stream_message
    else lit "HTTP " ++ decimal (status r) ++ lit ": " ++ statusText r in
  let s := run s0 (fetch_resolved r :: events) in
  statusMessages s = [cross_mark ++ message] /\
  answer s = [] /\ isStreaming s = false /\
  exists extra,
    calls s = (calls s0 ++ [onStreamComplete []]) ++ extra /\
    Forall (fun c => c = controller_abort \/ c = reader_cancel) extra.
Proof.
  intros HE Hr message s.
  destruct (effect_start c s0 HE) as (q & Hq & Hne & Hs0).
  assert (S : step s0 (fetch_resolved r) =
              ended (with_statusMessages
                       (statusMessages s0 ++ [cross_mark ++ message]) s0)).
  { apply step_refused; [subst s0; reflexivity | subst s0; reflexivity |].
    subst message. destruct (ok r) eqn:Hok.
    - right. destruct Hr as [Hr|Hr]; [discriminate|]. auto.
    - left. auto. }
  subst s. cbn [run fold_left]. fold (run (step s0 (fetch_resolved r)) events).
  rewrite S. clear S.
  set (s1 := with_statusMessages _ s0).
  destruct (run_over events (ended s1) eq_refl)
    as (H1 & H2 & H3 & H4 & H5 & extra & HK & HQ).
  destruct (ended_fields s1) as (E1 & E2 & E3 & E4 & E5 & E6 & E7).
  rewrite H3, H2, H4, E1, E2, E4, HK, E6.
  subst s1 s0. cbn [statusMessages answer latestAnswer calls
                    with_statusMessages].
  split; [reflexivity|]. split; [reflexivity|]. split; [reflexivity|].
  exists extra. split; [reflexivity | exact HQ].
Qed.





(** X7. The rejection that follows the cleanup of the effect (the
    AbortError of the aborted [fetch] or of the cancelled reader) is not
    reported: no label, no call, and the answer, the labels and
    [isStreaming] stay as the cleanup left them. *)
Theorem abort_is_not_reported s e ev :
  ev = fetch_rejected e \/ ev = read_rejected e ->
  let cancelled := step s cleanup in
  let s' := step cancelled ev in
  calls s' = calls cancelled /\
  statusMessages s' = statusMessages s /\ answer s' = answer s /\
  latestAnswer s' = latestAnswer s /\ isStreaming s' = isStreaming s.
Proof.
  intros H cancelled s'.
  assert (C : isCancelled cancelled = true /\
              statusMessages cancelled = statusMessages s /\
              answer cancelled = answer s /\
              latestAnswer cancelled = latestAnswer s /\
              isStreaming cancelled = isStreaming s /\
              fetchStream cancelled = fetchStream s).
  { subst cancelled. unfold step, effect_cleanup.
    cbn [reader with_calls with_isCancelled].
    destruct (reader s); repeat split. }
  destruct C as (C0 & C1 & C2 & C3 & C4 & C5).
  rewrite <- C1, <- C2, <- C3, <- C4.
  assert (S : s' = cancelled \/ s' = with_fetchStream returned cancelled).
  { subst s'. unfold step.
    destruct H as [-> | ->]; destruct (fetchStream cancelled); auto;
      right; apply resume_throw_cancelled; exact C0. }
  destruct S as [->| ->]; repeat split.
Qed.

Lemma abort_witness :
  let cancelled := step example_stream cleanup in
  let s' := step cancelled
              (read_rejected (ErrorInstance AbortError (lit "aborted"))) in
  calls s' = [reader_read; controller_abort; reader_cancel] /\
  statusMessages s' = [lit "s"].
Proof.
  cbv zeta.
  destruct (abort_is_not_reported
              example_stream (ErrorInstance AbortError (lit "aborted"))
              (read_rejected (ErrorInstance AbortError (lit "aborted")))
              (or_intror eq_refl))
    as (H1 & H2 & _).
  cbv zeta in H1, H2. rewrite H1, H2. split; reflexivity.
Defined.

End Failures.

(* ================================================================== *)
(** * What a stream keeps while it runs *)
(* ================================================================== *)

Module Progress.
Import JS JSFacts ChatWindow ChatWindowFacts Trace Failures.

Lemma extends_same s s' :
  latestAnswer s' = latestAnswer s -> answer s' = answer s ->
  statusMessages s' = statusMessages s -> extends s s'.
Proof.
  intros H1 H2 H3. exists [], []. rewrite !app_nil_r. auto.
Qed.

Lemma extends_refl s : extends s s.
Proof. apply extends_same; reflexivity. Qed.

Lemma extends_trans a b c : extends a b -> extends b c -> extends a c.
Proof.
  intros (t1 & l1 & A1 & A2 & A3) (t2 & l2 & B1 & B2 & B3).
  exists (t1 ++ t2), (l1 ++ l2). rewrite B1, B2, B3, A1, A2, A3.
  rewrite !app_assoc. auto.
Qed.

Lemma extends_apply_lines lines s : extends s (apply_lines lines s).
Proof. eexists _, _. repeat split. Qed.

Lemma extends_feed v s : extends s (feed v s).
Proof.
  destruct (feed_fields v s) as (H1 & H2 & H3 & _).
  eexists _, _. split; [exact H1|]. split; [exact H2 | exact H3].
Qed.

Lemma extends_labels s labels :
  extends s (with_statusMessages (statusMessages s ++ labels) s).
Proof.
  exists [], labels. rewrite !app_nil_r. repeat split.
Qed.

Lemma reads_app a b : reads (a ++ b) = (reads a + reads b)%nat.
Proof. unfold reads. rewrite filter_app, length_app. reflexivity. Qed.

Lemma reads_logs lines : reads (concat (map line_log lines)) = 0%nat.
Proof.
  pose proof (quiet_logs lines) as Q. unfold reads.
  induction Q as [|c cs Hc _ IH]; [reflexivity|].
  cbn [filter]. unfold quiet in Hc. apply andb_true_iff in Hc.
  destruct Hc as [Hc _]. destruct (is_read c); [discriminate | exact IH].
Qed.

Lemma reads_feed v s : reads (calls (feed v s)) = reads (calls s).
Proof.
  destruct (feed_calls v s) as [lines ->].
  rewrite reads_app, reads_logs. lia.
Qed.

(** What a piece of the [try] block leaves. *)
Lemma loop_head_grows s :
  exists o s',
    loop_head s = (o, s') /\ extends s s' /\
    isCancelled s' = isCancelled s /\
    (reads (calls s') <= reads (calls s) + 1)%nat /\
    (isCancelled s = true -> reads (calls s') = reads (calls s)).
Proof.
  unfold loop_head, bind, read. destruct (isCancelled s) eqn:E.
  - rewrite after_loop_run. unfold ret. eexists _, _.
    split; [reflexivity|]. split; [apply extends_apply_lines|].
    split; [exact E|].
    cbn [calls apply_lines]. rewrite reads_app, reads_logs.
    split; [lia|]. intros _. lia.
  - unfold do_call, write, ret. eexists _, _.
    split; [reflexivity|]. split; [apply extends_same; reflexivity|].
    split; [exact E|].
    cbn [calls with_calls]. rewrite reads_app. cbn.
    split; [lia|]. intros H. discriminate.
Qed.

Lemma piece_grows s ev piece :
  (exists r, ev = fetch_resolved r /\ piece = after_fetch r) \/
  (exists e, ev = fetch_rejected e /\ piece = throw e) \/
  (exists result, ev = read_resolved result /\ piece = after_read result) \/
  (exists e, ev = read_rejected e /\ piece = throw e) ->
  exists o s',
    piece s = (o, s') /\ extends s s' /\
    isCancelled s' = isCancelled s /\
    (reads (calls s') <= reads (calls s) + asks ev)%nat.
Proof.
  intros [(r & -> & ->)|[(e & -> & ->)|[(result & -> & ->)|(e & -> & ->)]]].
  - unfold after_fetch. destruct (ok r); cbn [negb].
    + destruct (has_body r); cbn [negb].
      * unfold bind at 1. unfold write.
        destruct (loop_head_grows (with_reader true s))
          as (o & s' & H & HX & HC & HR & _).
        exists o, s'. split; [exact H|].
        split; [exact HX|]. split; [exact HC | exact HR].
      * unfold bind. rewrite pushStatus_run. unfold ret. eexists _, _.
        split; [reflexivity|].
        split; [apply extends_labels|].
        split; [reflexivity|]. cbn [calls with_statusMessages asks]. lia.
    + unfold bind. rewrite pushStatus_run. unfold ret. eexists _, _.
      split; [reflexivity|].
      split; [apply extends_labels|].
      split; [reflexivity|]. cbn [calls with_statusMessages asks]. lia.
  - unfold throw. eexists _, _. split; [reflexivity|].
    split; [apply extends_refl|]. split; [reflexivity|]. cbn [asks]. lia.
  - unfold after_read. destruct result as [v|].
    + unfold bind at 1. rewrite loop_body_run.
      destruct (loop_head_grows (feed v s))
        as (o & s' & H & HX & HC & HR & _).
      exists o, s'. split; [exact H|].
      split; [exact (extends_trans _ _ _ (extends_feed v s) HX)|].
      split; [rewrite HC; apply feed_progress|].
      rewrite reads_feed in HR. exact HR.
    + unfold bind. rewrite after_loop_run. unfold ret. eexists _, _.
      split; [reflexivity|]. split; [apply extends_apply_lines|].
      split; [reflexivity|].
      cbn [calls apply_lines asks]. rewrite reads_app, reads_logs. lia.
  - unfold throw. eexists _, _. split; [reflexivity|].
    split; [apply extends_refl|]. split; [reflexivity|]. cbn [asks]. lia.
Qed.

Lemma finish_grows thrown s :
  extends s (finish thrown s) /\
  reads (calls (finish thrown s)) = reads (calls s).
Proof.
  unfold finish. rewrite fetchStream_finally_run.
  destruct (isCancelled s).
  - split; [apply extends_same; reflexivity | reflexivity].
  - split; [apply extends_same; reflexivity|].
    cbn [calls with_fetchStream with_calls]. rewrite reads_app. cbn. lia.
Qed.

Lemma resume_grows s ev piece :
  (exists r, ev = fetch_resolved r /\ piece = after_fetch r) \/
  (exists e, ev = fetch_rejected e /\ piece = throw e) \/
  (exists result, ev = read_resolved result /\ piece = after_read result) \/
  (exists e, ev = read_rejected e /\ piece = throw e) ->
  extends s (resume piece s) /\
  (reads (calls (resume piece s)) <= reads (calls s) + asks ev)%nat.
Proof.
  intros H. destruct (piece_grows s ev piece H) as (o & s' & HP & HX & HC & HR).
  unfold resume. rewrite HP. destruct o as [[p|]|e].
  - split; [|exact HR]. destruct HX as (t & l & H1 & H2 & H3).
    exists t, l. auto.
  - destruct (finish_grows None s') as [F1 F2].
    split; [exact (extends_trans _ _ _ HX F1) | rewrite F2; exact HR].
  - destruct (fetchStream_catch_run e s') as (labels & message & HX').
    rewrite HX'.
    set (s'' := if isCancelled s' then s' else _).
    assert (G : extends s' s'' /\ reads (calls s'') = reads (calls s')).
    { subst s''. destruct (isCancelled s').
      - split; [apply extends_refl | reflexivity].
      - split; [apply (extends_trans _ _ _ (extends_labels s' labels));
                apply extends_same; reflexivity|].
        cbn [calls with_calls with_statusMessages].
        rewrite reads_app. cbn. lia. }
    destruct G as [G1 G2]. destruct (finish_grows None s'') as [F1 F2].
    split.
    + exact (extends_trans _ _ _ HX (extends_trans _ _ _ G1 F1)).
    + rewrite F2, G2. exact HR.
Qed.

Lemma step_grows s ev :
  extends s (step s ev) /\
  (reads (calls (step s ev)) <= reads (calls s) + asks ev)%nat.
Proof.
  assert (Hid : extends s s /\ (reads (calls s) <= reads (calls s) + asks ev)%nat).
  { split; [apply extends_refl | lia]. }
  unfold step.
  destruct ev as [r|e|result|e|]; try (destruct (fetchStream s); try exact Hid;
    apply resume_grows; eauto 8).
  unfold effect_cleanup. cbn [reader with_calls with_isCancelled calls].
  destruct (reader s).
  - split; [apply extends_same; reflexivity|].
    cbn [calls with_calls with_isCancelled]. rewrite !reads_app. cbn. lia.
  - split; [apply extends_same; reflexivity|].
    cbn [calls with_calls with_isCancelled]. rewrite !reads_app. cbn. lia.
Qed.

Lemma run_grows events : forall s,
  extends s (run s events) /\
  (reads (calls (run s events))
   <= reads (calls s) + list_sum (map asks events))%nat.
Proof.
  induction events as [|ev events IH]; intros s.
  - cbn [run fold_left map list_sum fold_right]. split; [apply extends_refl | lia].
  - cbn [run fold_left map]. fold (run (step s ev) events).
    change (list_sum (asks ev :: map asks events))
      with (asks ev + list_sum (map asks events))%nat.
    destruct (step_grows s ev) as [S1 S2].
    destruct (IH (step s ev)) as [I1 I2].
    split; [exact (extends_trans _ _ _ S1 I1) | lia].
Qed.



Lemma step_before_response s ev :
  fetchStream s <> await_read ->
  (forall r, ev <> fetch_resolved r) ->
  fetchStream (step s ev) <> await_read /\
  reads (calls (step s ev)) = reads (calls s).
Proof.
  intros HF Hev. unfold step.
  destruct ev as [r|e|result|e|].
  - exfalso. exact (Hev r eq_refl).
  - destruct (fetchStream s) eqn:F; try (split; [congruence|reflexivity]).
    destruct (isCancelled s) eqn:C.
    + rewrite (resume_throw_cancelled e s C).
      split; [discriminate | reflexivity].
    + rewrite (resume_throw e s C). split; [discriminate|].
      cbn [calls ended with_calls with_fetchStream with_isStreaming
           with_statusMessages].
      rewrite !reads_app. cbn. lia.
  - destruct (fetchStream s) eqn:F; try (split; [congruence|reflexivity]).
    congruence.
  - destruct (fetchStream s) eqn:F; try (split; [congruence|reflexivity]).
    congruence.
  - unfold effect_cleanup. cbn [reader with_calls with_isCancelled calls].
    destruct (reader s); cbn [fetchStream calls with_calls with_isCancelled];
      (split; [exact HF|]); rewrite !reads_app; cbn; lia.
Qed.

(** X9. The body is read no faster than it comes: [reader.read()] is
    never called before the response has come, and it has been called
    at most once for the response and once for each range received. *)
Theorem reads_follow_the_ranges c s0 events :
  effect c = Some s0 ->
  (reads (calls (run s0 events)) <= list_sum (map asks events))%nat /\
  (Forall (fun ev => forall r, ev <> fetch_resolved r) events ->
   reads (calls (run s0 events)) = 0%nat).
Proof.
  intros HE.
  destruct (effect_start c s0 HE) as (q & _ & _ & Hs0).
  assert (R0 : reads (calls s0) = 0%nat) by (rewrite Hs0; reflexivity).
  assert (F0 : fetchStream s0 <> await_read) by (rewrite Hs0; discriminate).
  split.
  - pose proof (proj2 (run_grows events s0)) as H. lia.
  - clear HE Hs0. revert s0 R0 F0.
    induction events as [|ev events IH]; intros s0 R0 F0 HA;
      [exact R0|].
    cbn [run fold_left]. fold (run (step s0 ev) events).
    inversion HA as [|? ? Hev HA']; subst.
    destruct (step_before_response s0 ev F0 Hev) as [F1 R1].
    apply IH; [congruence | exact F1 | exact HA'].
Qed.

Lemma reads_follow_witness :
  exists s0,
    effect example_component = Some s0 /\
    (reads (calls (run s0 [fetch_resolved example_response;
                           read_resolved (chunk example_head);
                           read_resolved done])) <= 2)%nat /\
    reads (calls (run s0 [read_resolved (chunk example_head); cleanup]))
    = 0%nat.
Proof.
  eexists. split; [reflexivity|]. split.
  - exact (proj1 (reads_follow_the_ranges
                    example_component _
                    [fetch_resolved example_response;
                     read_resolved (chunk example_head);
                     read_resolved done] eq_refl)).
  - apply (proj2 (reads_follow_the_ranges
                    example_component _
                    [read_resolved (chunk example_head); cleanup] eq_refl)).
    repeat constructor; discriminate.
Defined.

Lemma feed_isStreaming v s : isStreaming (feed v s) = isStreaming s.
Proof. unfold feed. destruct (decode (decoder s) v). reflexivity. Qed.

Lemma run_returned c s0 r ranges :
  effect c = Some s0 -> ok r = true -> has_body r = true ->
  isStreaming (run s0 (delivery r ranges)) = false.
Proof.
  intros HE Hok Hb.
  pose proof (run_delivery c s0 r ranges HE Hok Hb) as U.
  pose proof (f_equal isStreaming U) as UI.
  cbn [unread isStreaming with_calls] in UI. rewrite UI.
  destruct (effect_start c s0 HE) as (q & _ & _ & Hs0).
  set (s1 := step s0 (fetch_resolved r)).
  assert (S1 : s1 = with_fetchStream await_read
                      (with_calls (calls s0 ++ [reader_read])
                         (with_reader true s0))).
  { subst s1. apply step_fetch_ok; try assumption; rewrite Hs0;
      reflexivity. }
  destruct (feed_progress (concat ranges) s1) as [F1 F2].
  rewrite step_done; [reflexivity | rewrite F1, S1; reflexivity |].
  rewrite F2, S1, Hs0. reflexivity.
Qed.



Lemma step_late s v :
  isCancelled s = true -> fetchStream s = await_read ->
  step s (read_resolved (chunk v))
  = with_fetchStream returned
      (apply_lines [buffer (feed v s)] (feed v s)).
Proof.
  intros HC HF. unfold step. rewrite HF.
  unfold resume, after_read, bind at 1. rewrite loop_body_run.
  destruct (feed_progress v s) as [_ F2].
  unfold loop_head, bind, read. rewrite F2, HC.
  rewrite after_loop_run. unfold ret, finish.
  rewrite fetchStream_finally_run.
  cbn [isCancelled apply_lines]. rewrite F2, HC. reflexivity.
Qed.

(** X11. The cleanup does not stop a range that still arrives from being
    applied: on a cancelled stream that awaits a range, the range is
    decoded and all its lines are handled, the fragment after the last
    line feed included, so the answer on the screen, the accumulated
    answer and the labels still change; the function then returns
    without asking for another range and without reporting completion,
    and [isStreaming] stays as it was. *)
Theorem late_range_is_still_applied s v :
  isCancelled s = true -> fetchStream s = await_read ->
  let s' := step s (read_resolved (chunk v)) in
  let pieces := split 10 (buffer s ++ snd (decode (decoder s) v)) in
  answer s' = answer s ++ answer_of (records pieces) /\
  latestAnswer s' = latestAnswer s ++ answer_of (records pieces) /\
  statusMessages s'
  = statusMessages s ++ concat (map labels_of (records pieces)) /\
  fetchStream s' = returned /\ isStreaming s' = isStreaming s /\
  reads (calls s') = reads (calls s) /\
  completions (calls s') = completions (calls s).
Proof.
  intros HC HF s' pieces. subst s'. rewrite (step_late s v HC HF).
  destruct (feed_fields v s) as (F1 & F2 & F3 & F4 & F5).
  fold pieces in F1, F2, F3, F4.
  cbn [answer latestAnswer statusMessages fetchStream isStreaming calls
       with_fetchStream apply_lines].
  rewrite F1, F2, F3, F4, feed_isStreaming.
  rewrite reads_app, completions_app, reads_feed, F5.
  rewrite reads_logs, completions_logs, app_nil_r, Nat.add_0_r.
  cbn [map concat]. rewrite !app_nil_r.
  assert (N : pieces <> []) by apply split_not_nil.
  pose proof (concat_pieces line_text pieces N) as T.
  pose proof (concat_pieces line_labels pieces N) as L.
  pose proof (eq_trans T (concat_line_text pieces)) as T'.
  pose proof (eq_trans L (concat_line_labels pieces)) as L'.
  rewrite <- !app_assoc.
  split; [f_equal; exact T'|]. split; [f_equal; exact T'|].
  split; [f_equal; exact L'|]. repeat split.
Qed.

Lemma late_range_witness :
  let cancelled := step example_stream cleanup in
  let s' := step cancelled
              (read_resolved
                 (chunk (json_text "{'event':'text','payload':'late'}"))) in
  answer s' = lit "alate" /\ fetchStream s' = returned /\
  completions (calls s') = [].
Proof.
  cbv zeta.
  destruct (late_range_is_still_applied
              (step example_stream cleanup)
              (json_text "{'event':'text','payload':'late'}")
              eq_refl eq_refl) as (H1 & _ & _ & H4 & _ & _ & H7).
  cbv zeta in H1, H4, H7. rewrite H1, H4, H7.
  repeat split; vm_compute; reflexivity.
Defined.

End Progress.

(* ================================================================== *)
(** * From bytes to records: the encodings of the stream *)
(* ================================================================== *)

Module Transport.
Import JS JSFacts ChatWindow ChatWindowFacts ApiService.
Import Text TextFacts Utf8Facts Wire Framing Progress.

Lemma lines_after_mark {A} (f : jsstring -> list A) text :
  (forall a b, trim a = trim b -> f a = f b) ->
  concat (map f (split 10 (0xFEFF :: text))) = concat (map f (split 10 text)).
Proof.
  intros Hf. rewrite (split_cons_other 10 0xFEFF text) by discriminate.
  pose proof (split_not_nil 10 text) as N.
  destruct (split 10 text) as [|l ls]; [contradiction|].
  cbn [hd tl map concat].
  rewrite (Hf (0xFEFF :: l) l); [reflexivity|].
  apply trim_cons_ws. reflexivity.
Qed.

Lemma records_after_mark text :
  records (split 10 (0xFEFF :: text)) = records (split 10 text).
Proof.
  unfold records. rewrite !flat_map_concat_map.
  apply (lines_after_mark
           (fun l => match decodeLine l with Some d => [d] | None => [] end)).
  intros a b E. rewrite (decodeLine_trim a b E). reflexivity.
Qed.

Lemma delivered_text c s0 r ranges text :
  effect c = Some s0 -> ok r = true -> has_body r = true ->
  code_units text -> utf8_encode text = Some (concat ranges) ->
  let s := run s0 (delivery r ranges) in
  let chunks := records (split 10 text) in
  completions (calls s) = [answer_of chunks] /\
  latestAnswer s = answer_of chunks /\ answer s = answer_of chunks /\
  statusMessages s = concat (map labels_of chunks) /\
  isStreaming s = false.
Proof.
  intros HE Hok Hb Hu Henc s chunks.
  destruct (delivery_result c s0 r ranges HE Hok Hb) as (D1 & D2 & D3 & D4 & _).
  fold s in D1, D2, D3, D4.
  pose proof (run_returned c s0 r ranges HE Hok Hb) as I. fold s in I.
  assert (L : concat (map line_text (stream_lines (concat ranges)))
              = concat (map line_text (split 10 text)) /\
              concat (map line_labels (stream_lines (concat ranges)))
              = concat (map line_labels (split 10 text))).
  { unfold stream_lines. rewrite (decode_utf8 text _ Hu Henc). cbn [snd].
    destruct text as [|u text]; [split; reflexivity|].
    cbn [startsWith]. rewrite startsWith_nil, andb_true_r.
    destruct (u =? 0xFEFF) eqn:B; [|split; reflexivity].
    apply Z.eqb_eq in B. subst u. cbn [skipn].
    split; symmetry.
    - exact (lines_after_mark line_text text line_text_trim).
    - exact (lines_after_mark line_labels text line_labels_trim). }
  destruct L as [L1 L2].
  rewrite D1, D2, D3, D4, L1, L2, concat_line_text, concat_line_labels.
  repeat split. exact I.
Qed.

(** X12. UTF-8 is read back exactly: when the body of the response is
    the UTF-8 encoding of a text, with or without a byte order mark
    before it, then however the bytes are cut into ranges (also in the
    middle of a character) the records of the stream are the records of
    the lines of that text: the answer given to [onStreamComplete] and
    shown is the concatenation of their [text] payloads and the labels
    are theirs, in order. *)
Theorem encoded_text_is_delivered c s0 r ranges text (mark : bool) :
  effect c = Some s0 -> ok r = true -> has_body r = true ->
  code_units text ->
  utf8_encode ((if mark then [0xFEFF] else []) ++ text)
  = Some (concat ranges) ->
  let s := run s0 (delivery r ranges) in
  let chunks := records (split 10 text) in
  completions (calls s) = [answer_of chunks] /\
  latestAnswer s = answer_of chunks /\ answer s = answer_of chunks /\
  statusMessages s = concat (map labels_of chunks) /\
  isStreaming s = false.
Proof.
  intros HE Hok Hb Hu Henc.
  assert (U : code_units ((if mark then [0xFEFF] else []) ++ text)).
  { destruct mark; [apply Forall_cons; [lia | exact Hu] | exact Hu]. }
  pose proof (delivered_text c s0 r ranges _ HE Hok Hb U Henc) as D.
  cbv zeta in D. destruct mark; [|exact D].
  change ([0xFEFF] ++ text) with (0xFEFF :: text) in D.
  rewrite records_after_mark in D. exact D.
Qed.

Lemma encoded_text_witness :
  let text := json_text "{'event':'text','payload':'"
              ++ [0xBC95; 0xD83D; 0xDC4B] ++ json_text "'}" ++ [10] in
  let bytes := [0xEF; 0xBB; 0xBF]
               ++ json_text "{'event':'text','payload':'"
               ++ [0xEB; 0xB2; 0x95; 0xF0; 0x9F; 0x91; 0x8B]
               ++ json_text "'}" ++ [10] in
  exists s0,
    effect example_component = Some s0 /\
    utf8_encode (0xFEFF :: text) = Some bytes /\
    completions
      (calls (run s0 (delivery example_response
                        (ranges_of [3; 29; 2; 3]%nat bytes))))
    = [[0xBC95; 0xD83D; 0xDC4B]].
Proof.
  cbv zeta. eexists. split; [reflexivity|].
  split; [vm_compute; reflexivity|].
  destruct (encoded_text_is_delivered
              example_component _ example_response
              (ranges_of [3; 29; 2; 3]%nat
                 ([0xEF; 0xBB; 0xBF]
                  ++ json_text "{'event':'text','payload':'"
                  ++ [0xEB; 0xB2; 0x95; 0xF0; 0x9F; 0x91; 0x8B]
                  ++ json_text "'}" ++ [10]))
              (json_text "{'event':'text','payload':'"
               ++ [0xBC95; 0xD83D; 0xDC4B] ++ json_text "'}" ++ [10])
              true eq_refl eq_refl eq_refl) as (H1 & _).
  - unfold code_units. repeat constructor; cbn; discriminate.
  - vm_compute. reflexivity.
  - cbv zeta in H1. rewrite H1. vm_compute. reflexivity.
Defined.

(** ** Records sent as JSON lines *)

Lemma wire_cons k p chunks :
  wire ((k, p) :: chunks) = record_line k p ++ 10 :: wire chunks.
Proof.
  unfold wire. cbn [map concat fst snd]. rewrite stringify_record.
  rewrite <- app_assoc. reflexivity.
Qed.

Lemma split_line l rest :
  ~ In 10 l -> split 10 (l ++ 10 :: rest) = l :: split 10 rest.
Proof.
  induction l as [|c l IH]; intros H.
  - reflexivity.
  - cbn [app]. rewrite split_cons_other by (intros ->; apply H; left; reflexivity).
    rewrite IH by (intros H'; apply H; right; exact H'). reflexivity.
Qed.

Lemma records_wire chunks :
  Forall sent chunks ->
  records (split 10 (wire chunks))
  = map (fun kp => record (fst kp) (VString (snd kp))) chunks.
Proof.
  induction 1 as [|[k p] chunks [Hk Hp] _ IH]; [reflexivity|].
  rewrite wire_cons, split_line by apply record_line_no_newline.
  unfold records in *. cbn [flat_map map fst snd] in *.
  rewrite (decode_record_line k p Hk Hp), IH. reflexivity.
Qed.

Lemma record_line_units k p :
  code_units k -> code_units p ->
  code_units (record_line k p) /\ well_formed (record_line k p).
Proof.
  intros Hk Hp. unfold record_line. split.
  - repeat apply code_units_app; try apply code_units_quote_units;
      try assumption; unfold code_units;
      repeat (apply Forall_cons; [cbn; lia|]); constructor.
  - repeat apply well_formed_app; try apply well_formed_quote_units;
      apply well_formed_plain; repeat (apply Forall_cons; [cbn; lia|]);
      constructor.
Qed.

Lemma wire_units chunks :
  Forall sent chunks -> code_units (wire chunks) /\ well_formed (wire chunks).
Proof.
  induction 1 as [|[k p] chunks [Hk Hp] _ [IH1 IH2]].
  - split; [constructor | discriminate].
  - rewrite wire_cons. destruct (record_line_units k p Hk Hp) as [U W].
    split.
    + apply code_units_app; [exact U|]. apply Forall_cons; [lia | exact IH1].
    + apply well_formed_app; [exact W|].
      change (10 :: wire chunks) with ([10] ++ wire chunks).
      apply well_formed_app; [|exact IH2].
      apply well_formed_plain. repeat constructor.
Qed.

Lemma answer_of_records chunks :
  answer_of (map (fun kp => record (fst kp) (VString (snd kp))) chunks)
  = concat (map snd (filter (fun kp => str_eqb (fst kp) (lit "text")) chunks)).
Proof.
  unfold answer_of.
  induction chunks as [|[k p] chunks IH]; [reflexivity|].
  cbn [map filter fst snd]. rewrite kind_is_record by reflexivity.
  destruct (str_eqb k (lit "text")); [|exact IH].
  cbn [map concat snd]. rewrite IH. reflexivity.
Qed.

Lemma labels_of_records chunks :
  concat (map labels_of
            (map (fun kp => record (fst kp) (VString (snd kp))) chunks))
  = flat_map (fun kp =>
                if is_empty (snd kp) then []
                else if str_eqb (fst kp) (lit "status") then [snd kp]
                else if str_eqb (fst kp) (lit "error")
                     then [cross_mark ++ snd kp]
                else []) chunks.
Proof.
  induction chunks as [|[k p] chunks IH]; [reflexivity|].
  cbn [map concat flat_map fst snd]. rewrite IH. f_equal.
  unfold labels_of. rewrite !kind_is_record by reflexivity.
  change (payload (record k (VString p))) with (VString p).
  cbn [label_text].
  destruct (str_eqb k (lit "status")), (str_eqb k (lit "error")),
    (is_empty p); reflexivity.
Qed.

(** X13. The consumer inverts the encoding of the stream: records with
    string payloads, each written by [JSON.stringify] and followed by a
    line feed, can always be encoded as UTF-8, and when these bytes are
    the body of the response, however they are cut into ranges, the
    answer given to [onStreamComplete] and shown is exactly the
    concatenation of the payloads of the [text] records, and the labels
    are exactly the payloads of the [status] and [error] records that
    are not empty, the latter marked as errors. *)
Theorem wire_round_trip chunks :
  Forall (fun kp => code_units (fst kp) /\ code_units (snd kp)) chunks ->
  exists bytes,
    utf8_encode (wire chunks) = Some bytes /\
    forall c s0 r ranges,
      effect c = Some s0 -> ok r = true -> has_body r = true ->
      concat ranges = bytes ->
      let s := run s0 (delivery r ranges) in
      let text :=
        concat (map snd (filter (fun kp => str_eqb (fst kp) (lit "text"))
                                chunks)) in
      completions (calls s) = [text] /\ answer s = text /\
      statusMessages s
      = flat_map (fun kp =>
                    if is_empty (snd kp) then []
                    else if str_eqb (fst kp) (lit "status") then [snd kp]
                    else if str_eqb (fst kp) (lit "error")
                         then [cross_mark ++ snd kp]
                    else []) chunks.
Proof.
  intros H. destruct (wire_units chunks H) as [U W].
  unfold well_formed in W. unfold utf8_encode at 1.
  destruct (code_points (wire chunks)) as [cps|] eqn:E; [|contradiction].
  eexists. split; [reflexivity|].
  intros c s0 r ranges HE Hok Hb Hr.
  assert (Henc : utf8_encode (wire chunks) = Some (concat ranges)).
  { unfold utf8_encode. rewrite E, Hr. reflexivity. }
  destruct (delivered_text c s0 r ranges (wire chunks) HE Hok Hb U Henc)
    as (D1 & _ & D3 & D4 & _).
  rewrite (records_wire chunks H) in D1, D3, D4.
  rewrite answer_of_records in D1, D3. rewrite labels_of_records in D4.
  auto.
Qed.

Lemma wire_round_trip_witness :
  let chunks := [(lit "status", lit "searching");
                 (lit "text", [0xBC95; 34; 10]);
                 (lit "source", lit "law");
                 (lit "text", [0xD83D; 0xDC4B; 0xD800]);
                 (lit "error", lit "boom")] in
  exists s0 bytes,
    effect example_component = Some s0 /\
    utf8_encode (wire chunks) = Some bytes /\
    let s := run s0 (delivery example_response
                       (ranges_of [40; 1; 60]%nat bytes)) in
    completions (calls s) = [[0xBC95; 34; 10; 0xD83D; 0xDC4B; 0xD800]] /\
    statusMessages s = [lit "searching"; cross_mark ++ lit "boom"].
Proof.
  cbv zeta.
  destruct (wire_round_trip
              [(lit "status", lit "searching");
               (lit "text", [0xBC95; 34; 10]);
               (lit "source", lit "law");
               (lit "text", [0xD83D; 0xDC4B; 0xD800]);
               (lit "error", lit "boom")])
    as (bytes & H1 & H2).
  - repeat constructor; cbn; discriminate.
  - eexists. exists bytes. split; [reflexivity|]. split; [exact H1|].
    destruct (H2 example_component _ example_response
                 (ranges_of [40; 1; 60]%nat bytes)
                 eq_refl eq_refl eq_refl (concat_ranges_of _ _))
      as (H3 & _ & H5).
    split; [exact H3 | exact H5].
Defined.

End Transport.

(* ================================================================== *)
(** * The page: the question box, the history and the live answer *)
(* ================================================================== *)

Module PageFacts.
Import JS JSFacts ChatWindow ChatWindowFacts TextFacts Trace Failures.
Import Progress Page.




Lemma handleSubmit_searches sb :
  SearchBar.searches (snd (SearchBar.handleSubmit sb))
  = if is_empty (trim (SearchBar.query sb)) then []
    else [trim (SearchBar.query sb)].
Proof.
  unfold SearchBar.handleSubmit.
  destruct (is_empty (trim (SearchBar.query sb))); reflexivity.
Qed.





(** X16. The Enter key submits outside composition only: a key press
    gives a query to [onSearch] exactly when the key is Enter, Shift is
    not held, no composition (of Hangul, say) is in progress and the
    text of the box is not blank; during a composition, or with Shift,
    the handler does nothing at all, and a blank text is never
    cleared. *)
Theorem enter_submits_outside_composition e sb :
  (SearchBar.searches (snd (SearchBar.handleKeyDown e sb)) <> [] <->
   SearchBar.key e = lit "Enter" /\ SearchBar.shiftKey e = false /\
   SearchBar.isComposing sb = false /\
   is_empty (trim (SearchBar.query sb)) = false) /\
  (SearchBar.isComposing sb = true \/ SearchBar.shiftKey e = true ->
   SearchBar.handleKeyDown e sb = (sb, [])) /\
  (is_empty (trim (SearchBar.query sb)) = true ->
   fst (SearchBar.handleKeyDown e sb) = sb).
Proof.
  unfold SearchBar.handleKeyDown.
  destruct (str_eqb (SearchBar.key e) (lit "Enter")) eqn:K;
    [apply str_eqb_eq in K|];
    destruct (SearchBar.shiftKey e) eqn:S;
    destruct (SearchBar.isComposing sb) eqn:C; cbn [andb negb fst snd];
    try (split; [split; [intros H; exfalso; apply H; reflexivity
                        | intros (H1 & H2 & H3 & H4); try discriminate;
                          rewrite H1 in K; discriminate]
                | split; [reflexivity | reflexivity] ]);
    try (split; [split; [intros H; exfalso; apply H; reflexivity
                        | intros (H1 & H2 & H3 & H4); try discriminate;
                          rewrite H1 in K; discriminate]
                | split; [intros [|]; discriminate | reflexivity] ]).
  pose proof (handleSubmit_searches sb) as HS.
  destruct (SearchBar.handleSubmit sb) as [sb' cs] eqn:E.
  cbn [fst snd] in *.
  change (SearchBar.searches (SearchBar.preventDefault :: cs))
    with (SearchBar.searches cs).
  rewrite HS.
  split; [|split].
  - destruct (is_empty (trim (SearchBar.query sb))).
    + split; [intros H; exfalso; apply H; reflexivity|].
      intros (_ & _ & _ & H); discriminate.
    + split; [auto | discriminate].
  - intros [|]; discriminate.
  - intros B. unfold SearchBar.handleSubmit in E. rewrite B in E.
    cbn [negb] in E. injection E as <- _. reflexivity.
Qed.

Lemma enter_witness :
  SearchBar.handleKeyDown
    {| SearchBar.key := lit "Enter"; SearchBar.shiftKey := false |}
    {| SearchBar.query := lit "q"; SearchBar.isComposing := true |}
  = ({| SearchBar.query := lit "q"; SearchBar.isComposing := true |}, []).
Proof.
  destruct (enter_submits_outside_composition
              {| SearchBar.key := lit "Enter"; SearchBar.shiftKey := false |}
              {| SearchBar.query := lit "q"; SearchBar.isComposing := true |})
    as (_ & H & _).
  apply H. left. reflexivity.
Defined.

Lemma after_calls_reports cs : forall st,
  Page.after_calls cs st = fold_left reduce (reports cs) st.
Proof.
  unfold Page.after_calls.
  induction cs as [|c cs IH]; intros st; [reflexivity|].
  cbn [fold_left]. rewrite IH. destruct c; reflexivity.
Qed.

Lemma reports_app a b : reports (a ++ b) = reports a ++ reports b.
Proof. apply flat_map_app. Qed.

Lemma reports_unread cs :
  reports (filter (fun c => negb (is_read c)) cs) = reports cs.
Proof.
  induction cs as [|c cs IH]; [reflexivity|].
  destruct c; cbn [filter is_read negb reports flat_map app] in *;
    fold (reports cs); rewrite ?IH; try reflexivity;
    fold (reports (filter (fun c => negb (is_read c)) cs));
    rewrite IH; reflexivity.
Qed.

Lemma reports_logs lines : reports (concat (map line_log lines)) = [].
Proof.
  induction lines as [|l lines IH]; [reflexivity|].
  cbn [map concat]. rewrite reports_app, IH, app_nil_r.
  unfold line_log. destruct (is_empty (trim l)); [reflexivity|].
  destruct (JSON_parse (replace_data_prefix (trim l))) as [e|data];
    [reflexivity|].
  destruct (eventType data); reflexivity.
Qed.

Lemma reports_cleanup extra :
  Forall (fun c => c = controller_abort \/ c = reader_cancel) extra ->
  reports extra = [].
Proof.
  induction 1 as [|x extra Hx _ IH]; [reflexivity|].
  destruct Hx as [-> | ->]; exact IH.
Qed.

(** X17. A refused response leaves no trace on the page: after a
    response that is not [ok] or has no body, [App] adds no message to
    the history and clears the active question, the live panel is not
    rendered, and the effect on [isStreaming, activeQuestion] then
    empties the answer and the labels, the error label included. *)
Theorem refused_response_leaves_no_trace c s0 r events page :
  effect c = Some s0 ->
  ok r = false \/ has_body r = false ->
  let s := run s0 (fetch_resolved r :: events) in
  let page' := Page.after_calls (calls s) page in
  let v := LiveAnswer.reset_effect (App.activeQuestion page')
             (LiveAnswer.view s) in
  App.messages page' = App.messages page /\
  App.activeQuestion page' = None /\
  LiveAnswer.statusMessages v = [] /\ LiveAnswer.answer v = [] /\
  LiveAnswer.render (App.activeQuestion page') (LiveAnswer.view s) = None /\
  LiveAnswer.render (App.activeQuestion page') v = None.
Proof.
  intros HE Hr s page' v.
  destruct (run_refused c s0 r events HE Hr)
    as (H1 & H2 & H3 & extra & HK & HQ).
  fold s in H1, H2, H3, HK.
  destruct (effect_start c s0 HE) as (q & _ & _ & Hs0).
  pose proof (reports_cleanup extra HQ) as R.
  assert (P : page' = App.handleStreamComplete [] page).
  { subst page'. rewrite after_calls_reports, HK, !reports_app, R, Hs0.
    reflexivity. }
  subst v. rewrite P.
  unfold LiveAnswer.reset_effect, LiveAnswer.render,
    LiveAnswer.shouldShowLiveAnswer, LiveAnswer.view.
  cbn [App.handleStreamComplete App.messages App.activeQuestion
       LiveAnswer.isStreaming LiveAnswer.answer LiveAnswer.statusMessages
       LiveAnswer.asked].
  rewrite H2, H3. repeat split.
Qed.

Lemma refused_trace_witness :
  exists s0,
    effect example_component = Some s0 /\
    let s := run s0 [fetch_resolved
                       {| ok := true; status := 204;
                          statusText := lit "No Content";
                          has_body := false |}] in
    App.messages (Page.after_calls (calls s) App.initial)
    = App.messages App.initial /\
    LiveAnswer.render None (LiveAnswer.view s) = None.
Proof.
  eexists. split; [reflexivity|]. cbv zeta.
  destruct (refused_response_leaves_no_trace
              example_component _
              {| ok := true; status := 204; statusText := lit "No Content";
                 has_body := false |}
              [] App.initial eq_refl (or_intror eq_refl))
    as (H1 & H2 & _ & _ & H5 & _).
  cbv zeta in H1, H2, H5. rewrite H2 in H5. split; [exact H1 | exact H5].
Defined.

Lemma reports_delivery c s0 r ranges :
  effect c = Some s0 -> ok r = true -> has_body r = true ->
  reports (calls (run s0 (delivery r ranges)))
  = [complete (concat (map line_text (stream_lines (concat ranges))))].
Proof.
  intros HE Hok Hb.
  pose proof (run_delivery c s0 r ranges HE Hok Hb) as U.
  destruct (delivery_result c s0 r ranges HE Hok Hb) as (L & _).
  destruct (effect_start c s0 HE) as (q & _ & _ & Hs0).
  rewrite <- reports_unread.
  change (filter (fun c => negb (is_read c))
            (calls (run s0 (delivery r ranges))))
    with (calls (unread (run s0 (delivery r ranges)))).
  rewrite U.
  set (s1 := step s0 (fetch_resolved r)).
  assert (S1 : s1 = with_fetchStream await_read
                      (with_calls (calls s0 ++ [reader_read])
                         (with_reader true s0))).
  { subst s1. apply step_fetch_ok; try assumption; rewrite Hs0; reflexivity. }
  set (s2 := feed (concat ranges) s1).
  destruct (feed_progress (concat ranges) s1) as [F1 F2]. fold s2 in F1, F2.
  assert (A2 : fetchStream s2 = await_read) by (rewrite F1, S1; reflexivity).
  assert (C2 : isCancelled s2 = false)
    by (rewrite F2, S1, Hs0; reflexivity).
  rewrite (step_done s2 A2 C2). cbv zeta.
  cbn [calls unread with_calls with_fetchStream with_isStreaming apply_lines
       latestAnswer].
  rewrite reports_unread, !reports_app, reports_logs.
  destruct (feed_calls (concat ranges) s1) as [lines HL]. fold s2 in HL.
  rewrite HL, reports_app, reports_logs, S1, Hs0.
  cbn [calls with_calls with_fetchStream with_reader app reports flat_map].
  f_equal. f_equal.
  rewrite <- L.
  destruct (done_fields s2 A2 C2) as (D1 & _).
  pose proof (f_equal latestAnswer U) as UL.
  cbn [unread latestAnswer with_calls] in UL. fold s1 s2 in UL.
  rewrite UL, D1. cbn [map concat]. rewrite app_nil_r. reflexivity.
Qed.

(** X18. A stream that ends moves its answer from the live panel to
    the history: after the last range, [App] has appended the
    concatenation of the [text] payloads as an assistant message (if it
    is not blank) and cleared the active question; the effect on
    [isStreaming, activeQuestion] then empties the live answer and the
    labels, and the live panel is no longer rendered, so the answer is
    not shown twice. *)
Theorem completed_answer_moves_to_history c s0 r ranges page :
  effect c = Some s0 -> ok r = true -> has_body r = true ->
  let s := run s0 (delivery r ranges) in
  let text := answer_of (records (stream_lines (concat ranges))) in
  let page' := Page.after_calls (calls s) page in
  let v := LiveAnswer.reset_effect (App.activeQuestion page')
             (LiveAnswer.view s) in
  App.messages page'
  = App.messages page ++
    (if is_empty (trim text) then []
     else [{| App.role := lit "assistant"; App.content := text |}]) /\
  App.activeQuestion page' = None /\
  LiveAnswer.answer v = [] /\ LiveAnswer.statusMessages v = [] /\
  LiveAnswer.render (App.activeQuestion page') v = None.
Proof.
  intros HE Hok Hb s text page' v.
  assert (P : page' = App.handleStreamComplete text page).
  { subst page' s text. rewrite after_calls_reports.
    rewrite (reports_delivery c s0 r ranges HE Hok Hb), concat_line_text.
    reflexivity. }
  pose proof (run_returned c s0 r ranges HE Hok Hb) as I. fold s in I.
  subst v. rewrite P.
  unfold LiveAnswer.reset_effect, LiveAnswer.render,
    LiveAnswer.shouldShowLiveAnswer, LiveAnswer.view.
  cbn [App.handleStreamComplete App.messages App.activeQuestion
       LiveAnswer.isStreaming LiveAnswer.answer LiveAnswer.statusMessages
       LiveAnswer.asked].
  rewrite I. cbn [negb andb LiveAnswer.isStreaming LiveAnswer.answer
                  LiveAnswer.statusMessages is_empty orb].
  split; [|repeat split].
  destruct (is_empty (trim text)); cbn [negb];
    rewrite ?app_nil_r; reflexivity.
Qed.

Lemma completed_answer_witness :
  exists s0,
    effect example_component = Some s0 /\
    let s := run s0 (delivery example_response [example_bytes]) in
    let page' := Page.after_calls (calls s) App.initial in
    App.messages page'
    = App.messages App.initial
      ++ [{| App.role := lit "assistant"; App.content := [0xBC95; 0xB839] |}] /\
    LiveAnswer.render (App.activeQuestion page')
      (LiveAnswer.reset_effect (App.activeQuestion page') (LiveAnswer.view s))
    = None.
Proof.
  eexists. split; [reflexivity|]. cbv zeta.
  destruct (completed_answer_moves_to_history
              example_component _ example_response [example_bytes]
              App.initial eq_refl eq_refl eq_refl)
    as (H1 & _ & _ & _ & H5).
  cbv zeta in H1, H5. split; [|exact H5].
  rewrite H1. vm_compute. reflexivity.
Defined.

(** X19. A failure reaches the history before the partial answer: when
    a promise of a stream that is not cancelled is rejected, [App]
    appends the apology with the error message and then, if it is not
    blank, the answer accumulated so far, each as an assistant message,
    and clears the active question. *)
Theorem failure_reaches_history s e ev page :
  isCancelled s = false ->
  (fetchStream s = await_fetch /\ ev = fetch_rejected e) \/
  (fetchStream s = await_read /\ ev = read_rejected e) ->
  let message := match e with
                 | ErrorInstance _ m => m
                 | Thrown _ => unknown_error_message
                 end in
  let s' := step s ev in
  let page' :=
    Page.after_calls (skipn (length (calls s)) (calls s')) page in
  App.messages page'
  = App.messages page
    ++ [{| App.role := lit "assistant";
           App.content := App.apology ++ message |}]
    ++ (if is_empty (trim (latestAnswer s)) then []
        else [{| App.role := lit "assistant";
                 App.content := latestAnswer s |}]) /\
  App.activeQuestion page' = None.
Proof.
  intros HC H message s' page'.
  assert (S : s' = resume (throw e) s).
  { subst s'. unfold step. destruct H as [[-> ->]|[-> ->]]; reflexivity. }
  assert (K : calls s' = calls s ++ [onStreamError message;
                                     onStreamComplete (latestAnswer s)]).
  { rewrite S, (resume_throw e s HC). cbv zeta. fold message.
    cbn [calls ended with_calls with_fetchStream with_isStreaming
         with_statusMessages latestAnswer].
    rewrite <- app_assoc. reflexivity. }
  subst page'. rewrite K, skipn_app, skipn_all, Nat.sub_diag.
  cbn [skipn app Page.after_calls fold_left Page.onChatWindow].
  unfold Page.after_calls. cbn [fold_left Page.onChatWindow].
  unfold App.handleStreamComplete, App.handleStreamError.
  cbn [App.messages App.activeQuestion].
  split; [|reflexivity].
  destruct (is_empty (trim (latestAnswer s))); cbn [negb];
    rewrite <- ?app_assoc; rewrite ?app_nil_r; reflexivity.
Qed.

Lemma failure_history_witness :
  let s' := step example_stream
              (read_rejected (Thrown (VString (lit "x")))) in
  App.messages
    (Page.after_calls (skipn (length (calls example_stream)) (calls s'))
       App.initial)
  = App.messages App.initial
    ++ [{| App.role := lit "assistant";
           App.content := App.apology ++ unknown_error_message |};
        {| App.role := lit "assistant"; App.content := lit "a" |}].
Proof.
  cbv zeta.
  destruct (failure_reaches_history
              example_stream (Thrown (VString (lit "x")))
              (read_rejected (Thrown (VString (lit "x")))) App.initial
              eq_refl (or_intror (conj eq_refl eq_refl))) as (H1 & _).
  cbv zeta in H1. rewrite H1. reflexivity.
Defined.

End PageFacts.

(* ================================================================== *)
(** * What is rendered *)
(* ================================================================== *)

Module Rendering.
Import JS JSFacts Text TextFacts ChatMessage ChatWindow ChatWindowFacts.

(** X20. The labels shown in red are the error labels: [pushStatus]
    adds at most one label, and the label it adds is rendered with the
    red class exactly when it was pushed as an error or its own text
    starts with the cross mark. *)
Theorem error_labels_are_red p isError s :
  exists added,
    statusMessages (exec (pushStatus p isError) s)
    = statusMessages s ++ added /\
    (length added <= 1)%nat /\
    Forall (fun msg =>
              LiveAnswer.label_class msg = LiveAnswer.text_red_500 <->
              isError = true \/ startsWith (label_text p) [0x274C] = true)
           added.
Proof.
  unfold exec. rewrite pushStatus_run. cbn [snd statusMessages
                                            with_statusMessages].
  destruct (is_empty (label_text p)) eqn:E.
  - exists []. split; [reflexivity|]. split; [cbn; lia | constructor].
  - eexists [_]. split; [reflexivity|]. split; [cbn; lia|].
    constructor; [|constructor]. unfold LiveAnswer.label_class.
    destruct isError.
    + change (startsWith (cross_mark ++ label_text p) [10060]) with true.
      split; auto.
    + destruct (startsWith (label_text p) [10060]); split; auto;
        try discriminate. intros [|]; discriminate.
Qed.

Lemma unescape_cons c s :
  unescape (c :: s) =
  if (c =? 92) && startsWith s [110]
  then 10 :: match s with [] => [] | _ :: s' => unescape s' end
  else c :: unescape s.
Proof.
  unfold unescape. cbn [replace_from startsWith length Nat.sub].
  destruct ((c =? 92) && startsWith s [110]); [|reflexivity].
  destruct s; reflexivity.
Qed.

Lemma markdown_source_unescape content :
  ChatMessage.markdown_source content = unescape content.
Proof.
  unfold ChatMessage.markdown_source, replaceAll. cbn [is_empty].
  destruct content; reflexivity.
Qed.

Lemma has_escape_cons c s :
  ChatMessage.has_escape (c :: s)
  = ((c =? 92) && startsWith s [110]) || ChatMessage.has_escape s.
Proof. reflexivity. Qed.

Lemma unescape_clean s :
  ChatMessage.has_escape (unescape s) = false /\
  (startsWith (unescape s) [110] = true -> startsWith s [110] = true) /\
  (length (unescape s) <= length s)%nat.
Proof.
  induction s as [| c | c c' s IH1 IH2] using pair_ind.
  - repeat split; auto.
  - rewrite unescape_cons. cbn [startsWith]. rewrite andb_false_r.
    change (unescape []) with (@nil Z). rewrite has_escape_cons.
    cbn [startsWith ChatMessage.has_escape]. rewrite andb_false_r.
    repeat split; auto.
  - rewrite unescape_cons.
    destruct IH1 as (A1 & A2 & A3). destruct IH2 as (B1 & B2 & B3).
    destruct ((c =? 92) && startsWith (c' :: s) [110]) eqn:E.
    + rewrite has_escape_cons, A1. cbn [startsWith Z.eqb andb orb length].
      split; [reflexivity|]. split; [discriminate | lia].
    + rewrite has_escape_cons, B1, orb_false_r.
      split; [|split].
      * destruct (c =? 92); [|reflexivity]. cbn [andb] in *.
        destruct (startsWith (unescape (c' :: s)) [110]) eqn:S;
          [|reflexivity].
        rewrite (B2 eq_refl) in E. discriminate.
      * cbn [startsWith]. rewrite !startsWith_nil. auto.
      * cbn [length] in *. lia.
Qed.

Lemma unescape_fixed s :
  ChatMessage.has_escape s = false -> unescape s = s.
Proof.
  induction s as [|c s IH]; [reflexivity|].
  rewrite has_escape_cons, unescape_cons. intros H.
  apply orb_false_iff in H. destruct H as [-> H]. rewrite (IH H). reflexivity.
Qed.

Lemma no_backslash_no_escape s :
  ~ In 92 s -> ChatMessage.has_escape s = false.
Proof.
  induction s as [|c s IH]; intros H; [reflexivity|].
  rewrite has_escape_cons, IH by (intros H'; apply H; right; exact H').
  replace (c =? 92) with false; [reflexivity|].
  symmetry. apply Z.eqb_neq. intros ->. apply H. left. reflexivity.
Qed.

(** X21. Escaped line feeds are rendered as line feeds: the Markdown
    source that [ChatMessage] (for a message that is not the user's)
    and [AnswerTab] give to the renderer is the content with every
    backslash followed by [n] replaced by a line feed. No such pair is
    left in it, so the replacement is idempotent; the source is never
    longer than the content and is the content itself when the content
    holds no such pair. A message of the user is shown as it is. *)
Theorem escaped_newlines_are_rendered content :
  let source := ChatMessage.markdown_source content in
  ChatMessage.has_escape source = false /\
  ChatMessage.markdown_source source = source /\
  (length source <= length content)%nat /\
  (ChatMessage.has_escape content = false -> source = content) /\
  (forall a b,
     ChatMessage.has_escape a = false ->
     ChatMessage.markdown_source (a ++ [92; 110] ++ b)
     = a ++ [10] ++ ChatMessage.markdown_source b) /\
  (forall isStreaming,
     fst (AnswerTab.render content isStreaming) = source) /\
  ChatMessage.body (ChatMessage.render (lit "user") content)
  = ChatMessage.text_node content /\
  (forall role,
     role <> lit "user" ->
     ChatMessage.body (ChatMessage.render role content)
     = ChatMessage.ReactMarkdown source).
Proof.
  intros source. subst source. rewrite !markdown_source_unescape.
  destruct (unescape_clean content) as (H1 & _ & H3).
  split; [exact H1|]. split; [apply unescape_fixed; exact H1|].
  split; [exact H3|]. split; [apply unescape_fixed|].
  split; [|split; [|split]].
  - intros a b. rewrite !markdown_source_unescape.
    change ([92; 110] ++ b) with (92 :: 110 :: b).
    change ([10] ++ unescape b) with (10 :: unescape b).
    induction a as [|c a IH]; intros H.
    + cbn [app]. rewrite unescape_cons. cbn [startsWith].
      rewrite startsWith_nil. reflexivity.
    + rewrite has_escape_cons in H. apply orb_false_iff in H.
      destruct H as [H0 H]. cbn [app]. rewrite unescape_cons.
      replace ((c =? 92) && startsWith (a ++ 92 :: 110 :: b) [110])
        with false; [rewrite (IH H); reflexivity|].
      destruct (c =? 92); [|reflexivity]. cbn [andb] in *.
      destruct a as [|x a]; [reflexivity|].
      cbn [app startsWith] in *. rewrite startsWith_nil in *.
      exact (eq_sym H0).
  - intros isStreaming. unfold AnswerTab.render. cbn [fst].
    rewrite <- markdown_source_unescape. reflexivity.
  - reflexivity.
  - intros role Hr. unfold ChatMessage.render. cbn [ChatMessage.body].
    destruct (str_eqb role (lit "user")) eqn:E.
    + apply str_eqb_eq in E. contradiction.
    + rewrite markdown_source_unescape. reflexivity.
Qed.

Lemma escaped_newlines_witness :
  markdown_source (lit "a" ++ [92; 110] ++ [92; 92; 110; 10])
  = lit "a" ++ [10] ++ [92; 10; 10] /\
  markdown_source (lit "plain") = lit "plain".
Proof.
  destruct (escaped_newlines_are_rendered (lit "plain"))
    as (_ & _ & _ & H4 & H5 & _).
  cbv zeta in H4. split; [|exact (H4 eq_refl)].
  rewrite (H5 (lit "a") [92; 92; 110; 10] eq_refl). reflexivity.
Defined.

End Rendering.

(* ================================================================== *)
(** * The request of [ApiService.getSources] *)
(* ================================================================== *)

Module SourcesFacts.
Import JS JSFacts ChatWindow ApiService Text TextFacts Utf8Facts.

Lemma upper_hex_safe h : 0 <= h < 16 -> uriUnreserved (upper_hex h) = true.
Proof.
  intros H. unfold upper_hex, uriUnreserved.
  destruct (h <? 10) eqn:E; [apply Z.ltb_lt in E | apply Z.ltb_ge in E].
  - replace (is_digit (48 + h)) with true
      by (symmetry; apply between_true; lia).
    rewrite !orb_true_r. reflexivity.
  - rewrite (between_true 65 90 (55 + h)) by lia. reflexivity.
Qed.

Lemma percent_safe octet :
  0 <= octet < 256 -> forallb url_safe (percent octet) = true.
Proof.
  intros H. unfold percent. cbn [forallb]. unfold url_safe at 1.
  change (37 =? 37) with true. rewrite orb_true_r.
  unfold url_safe.
  rewrite !upper_hex_safe by arith. reflexivity.
Qed.

Lemma percent_octets_safe cp :
  0 <= cp < 0x110000 ->
  forallb url_safe (flat_map percent (utf8_octets cp)) = true.
Proof.
  intros H. pose proof (utf8_octets_range cp H) as R.
  induction R as [|o os Ho _ IH]; [reflexivity|].
  cbn [flat_map]. rewrite forallb_app, (percent_safe o Ho), IH. reflexivity.
Qed.

Lemma unreserved_plain c :
  uriUnreserved c = true ->
  is_leading_surrogate c = false /\ is_trailing_surrogate c = false.
Proof.
  intros H.
  assert (R : c < 127).
  { unfold uriUnreserved, is_digit, between in H.
    repeat (apply orb_true_iff in H; destruct H as [H|H]);
      try (apply andb_true_iff in H; destruct H as [_ H];
           apply Z.leb_le in H; lia);
      apply Z.eqb_eq in H; lia. }
  split; apply between_false; lia.
Qed.

Lemma encodeURIComponent_cons2 c c' s :
  encodeURIComponent (c :: c' :: s) =
  if uriUnreserved c
  then option_map (cons c) (encodeURIComponent (c' :: s))
  else if is_leading_surrogate c then
    if is_trailing_surrogate c'
    then option_map
           (app (flat_map percent
                   (utf8_octets (UTF16SurrogatePairToCodePoint c c'))))
           (encodeURIComponent s)
    else None
  else if is_trailing_surrogate c then None
  else option_map (app (flat_map percent (utf8_octets c)))
                  (encodeURIComponent (c' :: s)).
Proof. reflexivity. Qed.

Lemma encodeURIComponent_throws s :
  encodeURIComponent s = None <-> code_points s = None.
Proof.
  induction s as [| c | c c' s IH1 IH2] using pair_ind.
  - split; discriminate.
  - cbn [encodeURIComponent code_points].
    destruct (uriUnreserved c) eqn:U.
    + destruct (unreserved_plain c U) as [-> ->]. split; discriminate.
    + destruct (is_leading_surrogate c); [tauto|].
      destruct (is_trailing_surrogate c); [tauto|]. split; discriminate.
  - rewrite encodeURIComponent_cons2, code_points_cons2.
    destruct (uriUnreserved c) eqn:U.
    + destruct (unreserved_plain c U) as [-> ->].
      rewrite !option_map_none. exact IH2.
    + destruct (is_leading_surrogate c).
      * destruct (is_trailing_surrogate c'); [|tauto].
        rewrite !option_map_none. exact IH1.
      * destruct (is_trailing_surrogate c); [tauto|].
        rewrite !option_map_none. exact IH2.
Qed.

Lemma encodeURIComponent_safe s :
  code_units s ->
  forall encoded,
    encodeURIComponent s = Some encoded -> forallb url_safe encoded = true.
Proof.
  induction s as [| c | c c' s IH1 IH2] using pair_ind; intros Hs encoded.
  - intros H. injection H as <-. reflexivity.
  - inversion Hs as [|? ? Hc _]; subst. cbn [encodeURIComponent].
    destruct (uriUnreserved c) eqn:U.
    + intros H. injection H as <-. cbn [forallb]. unfold url_safe.
      rewrite U. reflexivity.
    + destruct (is_leading_surrogate c); [discriminate|].
      destruct (is_trailing_surrogate c); [discriminate|].
      cbn [option_map]. intros H. injection H as <-.
      rewrite app_nil_r. apply percent_octets_safe. lia.
  - inversion Hs as [|? ? Hc Hs1]; subst.
    inversion Hs1 as [|? ? Hc' Hs2]; subst.
    rewrite encodeURIComponent_cons2.
    destruct (uriUnreserved c) eqn:U.
    + destruct (encodeURIComponent (c' :: s)) as [e|]; [|discriminate].
      cbn [option_map]. intros H. injection H as <-. cbn [forallb].
      unfold url_safe at 1. rewrite U. exact (IH2 Hs1 e eq_refl).
    + destruct (is_leading_surrogate c) eqn:L.
      * destruct (is_trailing_surrogate c') eqn:T; [|discriminate].
        destruct (encodeURIComponent s) as [e|]; [|discriminate].
        cbn [option_map]. intros H. injection H as <-.
        rewrite forallb_app, (IH1 Hs2 e eq_refl), andb_true_r.
        apply percent_octets_safe.
        destruct (utf16_pair c c' L T) as [[R _] _]. exact R.
      * destruct (is_trailing_surrogate c); [discriminate|].
        destruct (encodeURIComponent (c' :: s)) as [e|]; [|discriminate].
        cbn [option_map]. intros H. injection H as <-.
        rewrite forallb_app, (IH2 Hs1 e eq_refl), andb_true_r.
        apply percent_octets_safe. lia.
Qed.

Lemma encodeURIComponent_plain s :
  forallb uriUnreserved s = true -> encodeURIComponent s = Some s.
Proof.
  induction s as [|c s IH]; [reflexivity|].
  cbn [forallb]. intros H. apply andb_true_iff in H. destruct H as [U H].
  cbn [encodeURIComponent]. rewrite U, (IH H). reflexivity.
Qed.

(** X22. The query of [getSources] cannot alter the URL: the request,
    when one is made, is a GET without body of the base URL followed by
    [/api/sources?query=] and the encoded query, which is made of
    unreserved characters and [%] only, so it holds no [&], [=], [#],
    [?], [/], [+] or space; a query of unreserved characters is sent as
    it is. No request is made, because [encodeURIComponent] throws,
    exactly when a surrogate stands alone in the query. *)
Theorem sources_query_is_percent_encoded env query :
  code_units query ->
  (forall request,
     Sources.getSources_fetch env query = Some request ->
     exists encoded,
       encodeURIComponent query = Some encoded /\
       url request
       = API_BASE_URL env ++ lit "/api/sources?query=" ++ encoded /\
       method request = GET /\ body request = None /\
       forallb url_safe encoded = true /\
       forall c, In c (lit "&=#?/+ ") -> ~ In c encoded) /\
  (Sources.getSources_fetch env query = None <-> code_points query = None) /\
  (forallb uriUnreserved query = true ->
   encodeURIComponent query = Some query).
Proof.
  intros Hq. split; [|split].
  - intros request. unfold Sources.getSources_fetch.
    destruct (encodeURIComponent query) as [encoded|] eqn:E; [|discriminate].
    intros H. injection H as <-. exists encoded.
    pose proof (encodeURIComponent_safe query Hq encoded E) as S.
    repeat (split; [reflexivity|]). split; [exact S|].
    intros c Hc Hin. rewrite forallb_forall in S. specialize (S c Hin).
    cbn in Hc.
    repeat (destruct Hc as [<-|Hc]; [discriminate S|]). exact Hc.
  - unfold Sources.getSources_fetch.
    rewrite <- encodeURIComponent_throws.
    destruct (encodeURIComponent query); split; intros H;
      try discriminate; reflexivity.
  - apply encodeURIComponent_plain.
Qed.

Lemma sources_query_witness :
  exists request,
    Sources.getSources_fetch None [0xBC95; 32; 38; 0xD83D; 0xDC4B; 97]
    = Some request /\
    url request
    = lit "http://localhost:8000/api/sources?query=%EB%B2%95%20%26%F0%9F%91%8Ba" /\
    ~ In 38 (skipn 40 (url request)).
Proof.
  eexists. split; [reflexivity|]. split; [vm_compute; reflexivity|].
  destruct (sources_query_is_percent_encoded
              None [0xBC95; 32; 38; 0xD83D; 0xDC4B; 97]) as (H & _).
  - unfold code_units. repeat constructor; cbn; discriminate.
  - destruct (H _ eq_refl) as (encoded & H1 & H2 & _ & _ & _ & H6).
    rewrite H2.
    change (skipn 40 (API_BASE_URL None ++ lit "/api/sources?query=" ++ encoded))
      with encoded.
    apply H6. vm_compute. auto.
Defined.

End SourcesFacts.

(* ================================================================== *)
(** * SourcesTab.tsx: the percentage of a source *)
(* ================================================================== *)

Module SourcesTabFacts.
Import JS JSFacts Numbers SourcesTab.

(** A quotient of at most a hundred is rounded to a Number of at most a
    hundred: a hundred is a Number, and rounding keeps the order. *)
Lemma round_binary64_bound P Q :
  0 < P -> 0 < Q -> P <= 100 * Q ->
  round_binary64 false P Q = Zero false \/
  exists m e,
    round_binary64 false P Q = Finite false m e /\
    0 < m /\ e < 0 /\ m <= 100 * 2 ^ (- e).
Proof.
  intros HP HQ HB. unfold round_binary64.
  set (l := Z.log2 P - Z.log2 Q).
  assert (Hl : l <= 7).
  { assert (H : Z.log2 P <= Z.log2 (Q * 2 ^ 7)).
    { apply Z.log2_le_mono. change (2 ^ 7) with 128. lia. }
    rewrite Z.log2_mul_pow2 in H by lia. subst l. lia. }
  set (fl := if 0 <=? l then if Q * 2 ^ l <=? P then l else l - 1
             else if Q <=? P * 2 ^ (- l) then l else l - 1).
  assert (Hfl : fl <= 7).
  { subst fl. destruct (0 <=? l); [destruct (Q * 2 ^ l <=? P)
                                 | destruct (Q <=? P * 2 ^ (- l))]; lia. }
  set (e2 := Z.max (fl - 52) (-1074)).
  assert (He2 : -1074 <= e2 <= -45) by (subst e2; lia).
  replace (e2 <? 0) with true by (symmetry; apply Z.ltb_lt; lia).
  set (num := P * 2 ^ (- e2)).
  set (N := 100 * 2 ^ (- e2)).
  assert (Hpow : 0 < 2 ^ (- e2)) by (apply Z.pow_pos_nonneg; lia).
  assert (Hnum : 0 < num <= N * Q) by (subst num N; nia).
  pose proof (Z.div_mod num Q ltac:(lia)) as DM.
  pose proof (Z.mod_pos_bound num Q HQ) as MB.
  set (q := num / Q) in *. set (r := num mod Q) in *.
  assert (Hq : 0 <= q) by (subst q; apply Z.div_pos; lia).
  set (q1 := if (Q <? 2 * r) || ((Q =? 2 * r) && Z.odd q) then q + 1 else q).
  assert (Hq1 : 0 <= q1 <= N).
  { subst q1.
    assert (q <= N) by nia.
    destruct ((Q <? 2 * r) || ((Q =? 2 * r) && Z.odd q)) eqn:E; [|lia].
    assert (0 < r).
    { apply orb_true_iff in E. destruct E as [E|E].
      - apply Z.ltb_lt in E. lia.
      - apply andb_true_iff in E. destruct E as [E _].
        apply Z.eqb_eq in E. lia. }
    assert (q < N) by nia. lia. }
  assert (H53 : 2 ^ (- e2) = 2 * 2 ^ (- (e2 + 1))).
  { replace (- e2) with (Z.succ (- (e2 + 1))) by lia.
    rewrite Z.pow_succ_r by lia. reflexivity. }
  destruct (q1 =? 2 ^ 53) eqn:E53.
  - apply Z.eqb_eq in E53. right.
    change (2 ^ 52 =? 0) with false. cbv iota.
    replace (971 <? e2 + 1) with false by (symmetry; apply Z.ltb_ge; lia).
    exists (2 ^ 52), (e2 + 1). split; [reflexivity|].
    split; [reflexivity|]. split; [lia|].
    subst N. rewrite H53 in Hq1. change (2 ^ 53) with (2 * 2 ^ 52) in E53.
    lia.
  - destruct (q1 =? 0) eqn:E0; [left; reflexivity|].
    apply Z.eqb_neq in E0. right.
    replace (971 <? e2) with false by (symmetry; apply Z.ltb_ge; lia).
    exists q1, e2. split; [reflexivity|]. subst N. lia.
Qed.

Lemma Math_round_bound m e :
  0 < m -> e < 0 -> m <= 100 * 2 ^ (- e) ->
  exists k, 0 <= k <= 100 /\ Math_round (Finite false m e) = integer false k.
Proof.
  intros Hm He HB. unfold Math_round.
  replace (0 <=? e) with false by (symmetry; apply Z.leb_gt; exact He).
  exists ((2 * m + 2 ^ (- e)) / 2 ^ (1 - e)). split; [|reflexivity].
  assert (Hpow : 0 < 2 ^ (- e)) by (apply Z.pow_pos_nonneg; lia).
  assert (H2 : 2 ^ (1 - e) = 2 * 2 ^ (- e)).
  { replace (1 - e) with (Z.succ (- e)) by lia.
    rewrite Z.pow_succ_r by lia. reflexivity. }
  rewrite H2. split.
  - apply Z.div_pos; lia.
  - assert ((2 * m + 2 ^ (- e)) / (2 * 2 ^ (- e)) < 101); [|lia].
    apply Z.div_lt_upper_bound; lia.
Qed.

Lemma integer_toString k :
  0 <= k <= 100 -> Number_toString (integer false k) = decimal k.
Proof.
  intros H.
  assert (T : forallb (fun n => str_eqb (Number_toString
                                           (integer false (Z.of_nat n)))
                                        (decimal (Z.of_nat n)))
                      (seq 0 101) = true) by (vm_compute; reflexivity).
  rewrite forallb_forall in T.
  specialize (T (Z.to_nat k)). rewrite Z2Nat.id in T by lia.
  apply str_eqb_eq. apply T. apply in_seq. lia.
Qed.

(** X23. The percentage of a source is a whole number from 0 to 100:
    when the score that is shown ([relevance], or [similarity] when
    [relevance] is absent, zero or NaN) is a Number from zero to one,
    the text of the badge is the decimal form of an integer between 0
    and 100, followed by the percent sign, although the product with
    100 is rounded twice, as a Number and by [Math.round]. *)
Theorem relevance_is_a_percentage source :
  fraction (score source) ->
  exists k, 0 <= k <= 100 /\ badge source = decimal k ++ lit "%".
Proof.
  unfold badge. destruct (score source) as [|neg|neg|neg m e]; cbn [fraction];
    try contradiction.
  - intros _. exists 0. split; [lia|]. destruct neg; reflexivity.
  - destruct neg; [contradiction|]. intros (Hm & He & HB).
    change hundred with (Finite false (100 * 2 ^ 46) (-46)).
    cbn [Number_multiply xorb].
    replace (0 <=? e + -46) with false by (symmetry; apply Z.leb_gt; lia).
    assert (Hpow : 0 < 2 ^ (- e)) by (apply Z.pow_pos_nonneg; lia).
    assert (HP : 2 ^ (- (e + -46)) = 2 ^ 46 * 2 ^ (- e)).
    { replace (- (e + -46)) with (46 + - e) by lia.
      rewrite Z.pow_add_r by lia. reflexivity. }
    destruct (round_binary64_bound (m * (100 * 2 ^ 46)) (2 ^ (- (e + -46))))
      as [Z0|(m' & e' & R & Hm' & He' & HB')].
    + lia.
    + rewrite HP. lia.
    + rewrite HP. nia.
    + rewrite Z0. exists 0. split; [lia | reflexivity].
    + rewrite R.
      destruct (Math_round_bound m' e' Hm' He' HB') as (k & Hk & ->).
      exists k. split; [exact Hk|]. rewrite (integer_toString k Hk).
      reflexivity.
Qed.

Lemma relevance_witness :
  exists k,
    0 <= k <= 100 /\
    badge {| law_name := lit "law"; article_number := lit "1";
             title := lit "t"; text := lit "x";
             similarity := of_decimal false 4 (-1);
             relevance := Some (of_decimal false 57 (-2));
             summary := None; domain := None; link := None |}
    = decimal k ++ lit "%".
Proof.
  apply relevance_is_a_percentage. vm_compute.
  split; [reflexivity|]. split; [reflexivity | discriminate].
Defined.

End SourcesTabFacts.

(* ================================================================== *)
(** * TypingEffect.tsx *)
(* ================================================================== *)

Module TypingFacts.
Import JS JSFacts TextFacts TypingEffect.

Lemma firstn_next (text : jsstring) i :
  (i < length text)%nat ->
  firstn i text ++ at_index text i = firstn (S i) text.
Proof.
  revert i. induction text as [|c text IH]; intros i H; [cbn in H; lia|].
  destruct i as [|i]; [reflexivity|].
  change (c :: (firstn i text ++ at_index text i) = c :: firstn (S i) text).
  f_equal. apply IH. cbn in H. lia.
Qed.

Lemma resync_typed t st :
  typed {| text := t; state := st |} -> resync t st = st.
Proof.
  unfold typed. cbn [text state]. intros [D I]. unfold resync.
  destruct (length t =? 0)%nat eqn:E.
  - apply Nat.eqb_eq in E. destruct st as [d i]. cbn in *.
    assert (i = 0%nat) by lia. subst i. rewrite D. reflexivity.
  - rewrite D, startsWith_firstn. cbn [negb].
    replace (length t <? currentIndex st)%nat with false; [reflexivity|].
    symmetry. apply Nat.ltb_ge. exact I.
Qed.

Lemma typed_initial t : typed {| text := t; state := initial |}.
Proof. split; [reflexivity | cbn; lia]. Qed.

Lemma step_typed c ev : typed c -> typed (step c ev).
Proof.
  intros T. destruct c as [t st]. destruct ev as [|t']; cbn [step text state].
  - destruct (typing t st) eqn:Y; [|exact T].
    unfold typing in Y. apply Nat.ltb_lt in Y.
    assert (T' : typed {| text := t; state := timeout t st |}).
    { destruct T as [D I]. cbn [text state] in *. split; cbn [text state timeout displayedText currentIndex].
      - rewrite D. apply firstn_next. exact Y.
      - lia. }
    rewrite (resync_typed t _ T'). exact T'.
  - unfold resync.
    destruct (length t' =? 0)%nat; [apply typed_initial|].
    destruct (startsWith t' (displayedText st)) eqn:S; cbn [negb];
      [|apply typed_initial].
    destruct (length t' <? currentIndex st)%nat eqn:L.
    + split; cbn [text state displayedText currentIndex];
        [rewrite firstn_all; reflexivity | lia].
    + apply Nat.ltb_ge in L. destruct T as [D I]. cbn [text state] in *.
      split; cbn [text state]; [|exact L].
      pose proof (startsWith_prefix t' _ S) as P.
      rewrite D, length_firstn, Nat.min_l in P by exact I.
      rewrite P. exact D.
Qed.

Lemma mount_initial t : mount t = {| text := t; state := initial |}.
Proof.
  unfold mount. rewrite (resync_typed t initial (typed_initial t)).
  reflexivity.
Qed.


Lemma run_timers k : forall c,
  typed c ->
  let c' := run c (repeat timer k) in
  text c' = text c /\
  currentIndex (state c')
  = Nat.min (currentIndex (state c) + k) (length (text c)) /\
  typed c'.
Proof.
  induction k as [|k IH]; intros c T.
  - cbn [repeat run fold_left]. destruct T as [D I].
    split; [reflexivity|]. split; [lia | split; assumption].
  - cbn [repeat run fold_left]. fold (run (step c timer) (repeat timer k)).
    pose proof (step_typed c timer T) as T1.
    destruct (IH _ T1) as (H1 & H2 & H3). cbv zeta.
    rewrite H1, H2. split; [|split; [|exact H3]].
    + cbn [step]. destruct (typing (text c) (state c)); reflexivity.
    + destruct T as [D I]. cbn [step]. unfold typing.
      destruct (currentIndex (state c) <? length (text c))%nat eqn:Y.
      * apply Nat.ltb_lt in Y. cbn [text state].
        assert (T' : typed {| text := text c;
                              state := timeout (text c) (state c) |}).
        { split; cbn [text state timeout displayedText currentIndex].
          - rewrite D. apply firstn_next. exact Y.
          - lia. }
        rewrite (resync_typed _ _ T'). cbn [timeout currentIndex]. lia.
      * apply Nat.ltb_ge in Y. lia.
Qed.

(** X24. Typing reveals the text one code unit at a time: after [k]
    timeouts on a text that does not change, what is displayed is the
    first [k] code units of the text (all of it once [k] reaches its
    length), and a timeout is pending, and the cursor shown, exactly
    while [k] is less than the length. *)
Theorem typing_reveals_the_text t k :
  let c := run (mount t) (repeat timer k) in
  text c = t /\
  displayedText (state c) = firstn k t /\
  currentIndex (state c) = Nat.min k (length t) /\
  typing t (state c) = (k <? length t)%nat.
Proof.
  rewrite mount_initial.
  destruct (run_timers k _ (typed_initial t)) as (H1 & H2 & [D I]).
  cbn [text state initial currentIndex] in H1, H2. cbv zeta.
  rewrite H1 in D, I. rewrite H2 in D.
  split; [exact H1|]. split; [|split; [exact H2|]].
  - rewrite D. destruct (Nat.le_ge_cases k (length t)).
    + rewrite Nat.min_l by assumption. reflexivity.
    + rewrite Nat.min_r, !firstn_all2 by lia. reflexivity.
  - unfold typing. rewrite H2.
    destruct (k <? length t)%nat eqn:E.
    + apply Nat.ltb_lt in E. apply Nat.ltb_lt. lia.
    + apply Nat.ltb_ge in E. apply Nat.ltb_ge. lia.
Qed.



End TypingFacts.
